(** * Monolith scaffolder: text transforms and file placement

    A shallow embedding of the JavaScript sources of the repository:
    - the interactive scaffolder ([replacePlaceholders], [removeStepBlock],
      [writeFile], [main]), in its current and in its older variant;
    - the non-interactive template copier ([copyFile], [copyDir]).

    JavaScript strings are sequences of UTF-16 code units; a code unit is a
    number in [N].  The string methods the sources call ([trim],
    [startsWith], [includes], [split], [join], [replace], [match]) are
    written out below over such sequences. *)

From Stdlib Require Import List NArith Ascii String Bool Lia.
From stdpp Require Import gmap strings.
Import ListNotations.

Local Open Scope N_scope.
Local Open Scope list_scope.

#[local] Arguments N.eqb : simpl never.
#[local] Arguments N.leb : simpl never.

(** ** JavaScript strings *)

Definition jsstring : Type := list N.

(** A source literal: the code units of an ASCII string. *)
Definition js (s : string) : jsstring :=
  List.map N_of_ascii (list_ascii_of_string s).

(** ECMAScript WhiteSpace and LineTerminator code points: the set that
    [String.prototype.trim] strips and that [\s] matches. *)
Definition is_space (c : N) : bool :=
  (c =? 9) || (c =? 10) || (c =? 11) || (c =? 12) || (c =? 13) || (c =? 32)
  || (c =? 160) || (c =? 5760) || ((8192 <=? c) && (c <=? 8202))
  || (c =? 8232) || (c =? 8233) || (c =? 8239) || (c =? 8287)
  || (c =? 12288) || (c =? 65279).

Fixpoint dropWhile {A} (p : A -> bool) (l : list A) : list A :=
  match l with
  | [] => []
  | x :: l' => if p x then dropWhile p l' else l
  end.

Fixpoint takeWhile {A} (p : A -> bool) (l : list A) : list A :=
  match l with
  | [] => []
  | x :: l' => if p x then x :: takeWhile p l' else []
  end.

Definition trimStart (s : jsstring) : jsstring := dropWhile is_space s.
Definition trimEnd (s : jsstring) : jsstring := rev (dropWhile is_space (rev s)).

(** [s.trim()] *)
Definition trim (s : jsstring) : jsstring := trimEnd (trimStart s).

(** [s.startsWith(p)] *)
Fixpoint startsWith (s p : jsstring) : bool :=
  match p, s with
  | [], _ => true
  | _ :: _, [] => false
  | a :: p', b :: s' => (a =? b) && startsWith s' p'
  end.

(** [s.includes(sub)]: [sub] occurs at some position of [s]. *)
Fixpoint includes (s sub : jsstring) : bool :=
  startsWith s sub ||
  match s with
  | [] => false
  | _ :: s' => includes s' sub
  end.

Definition LF : N := 10.

(** [s.split("\n")]: never empty; the pieces hold no line feed. *)
Fixpoint split_lines (s : jsstring) : list jsstring :=
  match s with
  | [] => [[]]
  | c :: s' =>
      if c =? LF then [] :: split_lines s'
      else match split_lines s' with
           | l :: ls => (c :: l) :: ls
           | [] => [[c]]
           end
  end.

(** [lines.join("\n")] *)
Fixpoint join_lines (ls : list jsstring) : jsstring :=
  match ls with
  | [] => []
  | [l] => l
  | l :: ls' => l ++ LF :: join_lines ls'
  end.

(** ** Regular expressions

    The sources use the patterns [/^\s+- (name:|uses:|run:)/] and
    [{{\s*KEY\s*}}], and the class [[^a-z0-9-_]].  They lie in the fragment
    below: literal characters, the class [\s], negated classes of ranges,
    greedy repetition of a single-character atom, concatenation and
    alternation.  [rmatch] is the backtracking matcher of
    the language: alternatives are tried left to right, a repetition takes
    as many characters as it can and gives them back one at a time. *)

Inductive atom : Type :=
| AChar (c : N)                      (* a pattern character *)
| ASpace                             (* \s *)
| ANotIn (ranges : list (N * N)).    (* a negated class [^...] of ranges *)

Inductive regex : Type :=
| REmpty
| ROne (a : atom)
| RStar (a : atom)                (* a*, greedy *)
| RCat (r1 r2 : regex)
| RAlt (r1 r2 : regex).

Definition atom_matches (a : atom) (c : N) : bool :=
  match a with
  | AChar x => x =? c
  | ASpace => is_space c
  | ANotIn ranges =>
      negb (existsb (fun r => (fst r <=? c) && (c <=? snd r)) ranges)
  end.

(** [rmatch r s k]: match [r] at the start of [s], then hand the rest of the
    input to the continuation [k]; the first success in priority order. *)
Fixpoint rmatch {R} (r : regex) (s : jsstring) (k : jsstring -> option R) : option R :=
  match r with
  | REmpty => k s
  | ROne a =>
      match s with
      | c :: s' => if atom_matches a c then k s' else None
      | [] => None
      end
  | RStar a =>
      (fix star (s : jsstring) : option R :=
         match s with
         | c :: s' =>
             if atom_matches a c
             then match star s' with
                  | Some x => Some x
                  | None => k s
                  end
             else k s
         | [] => k s
         end) s
  | RCat r1 r2 => rmatch r1 s (fun s' => rmatch r2 s' k)
  | RAlt r1 r2 =>
      match rmatch r1 s k with
      | Some x => Some x
      | None => rmatch r2 s k
      end
  end.

(** The pattern of a literal string. *)
Fixpoint RLit (s : jsstring) : regex :=
  match s with
  | [] => REmpty
  | c :: s' => RCat (ROne (AChar c)) (RLit s')
  end.

(** The number of code units the pattern matches at the start of [s]. *)
Definition exec_at (r : regex) (s : jsstring) : option nat :=
  rmatch r s (fun rest => Some (length s - length rest)%nat).

(** [re.test(s)] / truthiness of [s.match(re)] for a pattern anchored by [^]
    (no [m] flag): only a match at index 0 counts. *)
Definition test_anchored (r : regex) (s : jsstring) : bool :=
  match exec_at r s with Some _ => true | None => false end.

(** ** removeStepBlock *)

(** [/^\s+- (name:|uses:|run:)/] without its anchor. *)
Definition sibling_step_re : regex :=
  RCat (ROne ASpace)
    (RCat (RStar ASpace)
       (RCat (RLit (js "- "))
          (RAlt (RLit (js "name:")) (RAlt (RLit (js "uses:")) (RLit (js "run:")))))).

(** The first [if] of the loop: a step whose name holds the target. *)
Definition is_target_step (stepNameSubstring line : jsstring) : bool :=
  let trimmed := trim line in
  startsWith trimmed (js "- name:") && includes trimmed stepNameSubstring.

(** The second [if] of the loop: the next sibling step. *)
Definition is_sibling_step (stepNameSubstring line : jsstring) : bool :=
  let trimmed := trim line in
  test_anchored sibling_step_re line && negb (includes trimmed stepNameSubstring).

(** One iteration of the [for] loop over [(skipping, result)]. *)
Definition loop_body (stepNameSubstring : jsstring)
    (st : bool * list jsstring) (line : jsstring) : bool * list jsstring :=
  let '(skipping, result) := st in
  if negb skipping && is_target_step stepNameSubstring line
  then (true, result)                                   (* continue *)
  else
    let skipping :=
      if skipping && is_sibling_step stepNameSubstring line then false else skipping in
    if negb skipping then (skipping, result ++ [line]) else (skipping, result).

Definition removeStepBlock (yaml stepNameSubstring : jsstring) : jsstring :=
  let lines := split_lines yaml in
  let '(_, result) := fold_left (loop_body stepNameSubstring) lines (false, []) in
  join_lines result.

(** The lines one scan keeps, as a recursive function of the skipping flag
    (the loop without its accumulator). *)
Fixpoint kept (stepNameSubstring : jsstring) (skipping : bool)
    (lines : list jsstring) : list jsstring :=
  match lines with
  | [] => []
  | line :: rest =>
      if negb skipping && is_target_step stepNameSubstring line
      then kept stepNameSubstring true rest
      else if skipping && is_sibling_step stepNameSubstring line
      then line :: kept stepNameSubstring false rest
      else if skipping then kept stepNameSubstring true rest
      else line :: kept stepNameSubstring false rest
  end.

(** ** [String.prototype.replace] with a global pattern *)

Definition DOLLAR : N := 36.
Definition AMPERSAND : N := 38.
Definition APOSTROPHE : N := 39.
Definition BACKTICK : N := 96.

(** GetSubstitution for a pattern without capture groups: [$$] is a dollar
    sign, [$&] the matched text, [$`] the text before the match, [$'] the
    text after it; a dollar sign before anything else (a digit included,
    there being no group to refer to) stands for itself. *)
Fixpoint GetSubstitution (matched before after replacement : jsstring) : jsstring :=
  match replacement with
  | [] => []
  | c :: r =>
      if c =? DOLLAR then
        match r with
        | [] => [DOLLAR]
        | d :: r' =>
            if d =? DOLLAR then DOLLAR :: GetSubstitution matched before after r'
            else if d =? AMPERSAND then matched ++ GetSubstitution matched before after r'
            else if d =? BACKTICK then before ++ GetSubstitution matched before after r'
            else if d =? APOSTROPHE then after ++ GetSubstitution matched before after r'
            else DOLLAR :: GetSubstitution matched before after r
        end
      else c :: GetSubstitution matched before after r
  end.

(** The scan of [s.replace(re, replacement)] for a pattern with the [g]
    flag.  [before] is the text already passed, [skip] the number of code
    units still to pass over because they belong to the match just
    replaced.  At every other position the pattern is tried: a match is
    replaced and passed over, an empty match is replaced and the scan moves
    one code unit on, and where nothing matches the code unit is copied. *)
Fixpoint replace_from (re : regex) (replacement before : jsstring)
    (skip : nat) (s : jsstring) : jsstring :=
  match s with
  | [] =>
      match skip, exec_at re [] with
      | O, Some _ => GetSubstitution [] before [] replacement
      | _, _ => []
      end
  | c :: s' =>
      match skip with
      | S k => replace_from re replacement (before ++ [c]) k s'
      | O =>
          match exec_at re s with
          | Some (S k) =>
              GetSubstitution (firstn (S k) s) before (skipn (S k) s) replacement
              ++ replace_from re replacement (before ++ [c]) k s'
          | Some O =>
              GetSubstitution [] before s replacement
              ++ c :: replace_from re replacement (before ++ [c]) O s'
          | None => c :: replace_from re replacement (before ++ [c]) O s'
          end
      end
  end.

(** A replacement text without dollar signs stands for itself. *)
Definition no_dollar (v : jsstring) : bool := negb (existsb (N.eqb DOLLAR) v).

Definition replace (re : regex) (replacement s : jsstring) : jsstring :=
  replace_from re replacement [] O s.

(** ** replacePlaceholders *)

(** The values a variable map holds: a string, or nothing. *)
Inductive jsval : Type :=
| JUndefined
| JNull
| JString (s : jsstring).

(** [val ?? ""] *)
Definition or_empty (val : jsval) : jsstring :=
  match val with
  | JString s => s
  | JUndefined | JNull => []
  end.

(** The characters with a meaning of their own in a pattern. *)
Definition is_syntax_char (c : N) : bool :=
  existsb (N.eqb c) (js "^$\.*+?()[]{}|").

Definition is_literal_key (key : jsstring) : bool :=
  forallb (fun c => negb (is_syntax_char c)) key.

(** What a call of [new RegExp] or of [replacePlaceholders] comes to: it
    returns, or it throws a [SyntaxError]; [NotDescribed] stands for the
    keys whose pattern this development does not describe. *)
Inductive attempt (A : Type) : Type :=
| Returned (a : A)
| SyntaxError
| NotDescribed.
Arguments Returned {A} a.
Arguments SyntaxError {A}.
Arguments NotDescribed {A}.

(** A key that opens a group nothing can close: it holds [(], and neither
    [)] nor a character that could take the [(] for itself ([\] before it,
    [[] around it).  The pattern text around the key, [{{\s*] and [\s*}}],
    holds no [)] either. *)
Definition unterminated_group (key : jsstring) : bool :=
  existsb (N.eqb 40) key
  && negb (existsb (fun c => (c =? 41) || (c =? 91) || (c =? 92)) key).

(** [new RegExp(`{{\\s*${key}\\s*}}`, "g")].  The key is pasted into the
    pattern text as it is.  A key without syntax characters stands for
    itself, and the pattern is two braces, white space, the key, white
    space, two braces.  Any other key is read as pattern syntax by the
    constructor: it throws for a key that leaves a group open, and what it
    makes of the remaining keys is not described here. *)
Definition placeholder_RegExp (key : jsstring) : attempt regex :=
  if is_literal_key key
  then Returned (RCat (RLit (js "{{"))
                   (RCat (RStar ASpace)
                      (RCat (RLit key) (RCat (RStar ASpace) (RLit (js "}}"))))))
  else if unterminated_group key then SyntaxError
  else NotDescribed.

(** The loop over [Object.entries(vars)], in the order of the entries; an
    exception of the constructor ends the call. *)
Fixpoint replacePlaceholders (str : jsstring) (vars : list (jsstring * jsval))
    : attempt jsstring :=
  match vars with
  | [] => Returned str
  | (key, val) :: rest =>
      match placeholder_RegExp key with
      | Returned re => replacePlaceholders (replace re (or_empty val) str) rest
      | SyntaxError => SyntaxError
      | NotDescribed => NotDescribed
      end
  end.

(** A variable map whose keys are plain names. *)
Definition literal_keys (vars : list (jsstring * jsval)) : Prop :=
  Forall (fun kv => is_literal_key (fst kv) = true) vars.

Definition is_brace (c : N) : bool := (c =? 123) || (c =? 125).

(** *** The language of a pattern, and placeholder tokens *)

(** The strings a pattern matches. *)
Inductive matches : regex -> jsstring -> Prop :=
| matches_empty : matches REmpty []
| matches_one a c : atom_matches a c = true -> matches (ROne a) [c]
| matches_star a m :
    Forall (fun c => atom_matches a c = true) m -> matches (RStar a) m
| matches_cat r1 r2 m1 m2 :
    matches r1 m1 -> matches r2 m2 -> matches (RCat r1 r2) (m1 ++ m2)
| matches_alt_l r1 r2 m : matches r1 m -> matches (RAlt r1 r2) m
| matches_alt_r r1 r2 m : matches r2 m -> matches (RAlt r1 r2) m.

(** A placeholder token for [key]: opening braces, the key with optional
    white space around it, closing braces. *)
Definition is_token (key m : jsstring) : Prop :=
  exists w1 w2,
    Forall (fun c => is_space c = true) w1 /\
    Forall (fun c => is_space c = true) w2 /\
    m = js "{{" ++ w1 ++ key ++ w2 ++ js "}}".

Definition token_at_head (key s : jsstring) : Prop :=
  exists m post, is_token key m /\ s = m ++ post.

Definition token_occurs (key s : jsstring) : Prop :=
  exists pre m post, is_token key m /\ s = pre ++ m ++ post.

(** What the words "every occurrence of the token is replaced by [v]" say
    of a text and its rendering, read from left to right: a token at the
    head of the text gives [v], and the scan goes on behind it; a code unit
    at which no token starts is copied. *)
Inductive tokens_replaced (key v : jsstring) : jsstring -> jsstring -> Prop :=
| tr_end : tokens_replaced key v [] []
| tr_token m post out :
    is_token key m -> tokens_replaced key v post out ->
    tokens_replaced key v (m ++ post) (v ++ out)
| tr_copy c s out :
    ~ token_at_head key (c :: s) -> tokens_replaced key v s out ->
    tokens_replaced key v (c :: s) (c :: out).

(** *** Shapes of workflow documents used in the statements *)

(** An indentation: at least one white-space character, none a line feed. *)
Definition is_indent (ind : jsstring) : bool :=
  match ind with
  | [] => false
  | _ => forallb (fun c => is_space c && negb (c =? LF)) ind
  end.

(** The header line of the step called [name] at indentation [ind]. *)
Definition step_header (ind name : jsstring) : jsstring :=
  ind ++ js "- name: " ++ name.

Definition no_LF (line : jsstring) : bool := negb (existsb (N.eqb LF) line).

(** A line of a step's body: one line, and not itself the start of a step
    (neither a [- name:] line once trimmed, nor a line the sibling pattern
    accepts). *)
Definition is_body_line (line : jsstring) : bool :=
  no_LF line && negb (startsWith (trim line) (js "- name:"))
  && negb (test_anchored sibling_step_re line).

(** ** Effects: a file system, and exceptions *)

(** The exceptions a run is followed through: a template that is not there,
    a path that cannot be written, and a call of [replacePlaceholders] that
    did not return.  The failures of the file system that the worlds below
    do not tell apart (a template path that is a directory, a path under a
    file, ...) are not part of them. *)
Inductive error : Type :=
| ENOENT (path : string)       (* a template is missing *)
| EACCES (path : string)       (* a path cannot be written *)
| BadPattern.                  (* a key that is no plain name *)

Inductive outcome (A : Type) : Type :=
| Done (a : A)
| Threw (e : error).
Arguments Done {A} a.
Arguments Threw {A} e.

(** A computation over a world [W]: it returns or throws, and leaves a
    world behind in both cases (what was written before an exception stays
    written). *)
Definition io (W A : Type) : Type := W -> outcome A * W.

Definition ret {W A} (a : A) : io W A := fun w => (Done a, w).
Definition throw {W A} (e : error) : io W A := fun w => (Threw e, w).
Definition bind {W A B} (c : io W A) (f : A -> io W B) : io W B :=
  fun w =>
    match c w with
    | (Done a, w') => f a w'
    | (Threw e, w') => (Threw e, w')
    end.

Notation "'let*' x ':=' c1 'in' c2" := (bind c1 (fun x => c2))
  (at level 10, x name, c1 at level 100, c2 at level 200).
Notation "c1 ';;;' c2" := (bind c1 (fun _ => c2))
  (at level 100, right associativity).

(** ** The interactive scaffolder *)

Inductive stack : Type := node | java | python.

Definition stack_name (s : stack) : string :=
  match s with
  | node => "node"
  | java => "java"
  | python => "python"
  end.

Inductive pipeline_mode : Type := simple | production.

(** What the prompts return. *)
Record answers : Type := {
  projectName : jsstring;
  stack_of : stack;
  prodBranch : jsstring;
  stagingBranch : jsstring;
  installCommand : jsstring;
  lintCommand : jsstring;
  testCommand : jsstring;
  useDocker : bool;
  mode : pipeline_mode;
  migrationCommand : jsstring      (* asked in production mode only *)
}.

(** The fields of [presets/<stack>.json] that [main] reads after the
    prompts: the text of the field, or [None] when the field is missing or
    falsy (so that [||] takes its right operand). *)
Record preset : Type := {
  defaultPort : option jsstring;
  runtimeVersion : option jsstring;
  buildCommand : option jsstring;
  healthPath : option jsstring
}.

(** [x || d] *)
Definition or_else (x : option jsstring) (d : jsstring) : jsstring :=
  match x with
  | Some s => s
  | None => d
  end.

(** [/[^a-z0-9-_]/]: the hyphen after the second range is a plain
    character of the class. *)
Definition not_slug_re : regex :=
  ROne (ANotIn [(97, 122); (48, 57); (45, 45); (95, 95)]).

Definition is_slug_char (c : N) : bool :=
  ((97 <=? c) && (c <=? 122)) || ((48 <=? c) && (c <=? 57))
  || (c =? 45) || (c =? 95).

(** [echo "No build step"] *)
Definition no_build_step : jsstring :=
  js "echo " ++ [34] ++ js "No build step" ++ [34].

(** The world of the interactive scaffolder: the templates of the package
    (read only), the files under the working directory by their path from
    it, the paths marked executable, the paths that cannot be written
    (every write to one of them throws), and the paths whose mode cannot be
    changed ([chmodSync] throws on each of them). *)
Record world : Type := {
  templates : gmap string jsstring;
  files : gmap string jsstring;
  executable : gset string;
  denied : gset string;
  chmod_fails : gset string
}.

Definition set_files (w : world) (f : gmap string jsstring) : world :=
  {| templates := templates w; files := f;
     executable := executable w; denied := denied w;
     chmod_fails := chmod_fails w |}.

Definition set_executable (w : world) (x : gset string) : world :=
  {| templates := templates w; files := files w;
     executable := x; denied := denied w;
     chmod_fails := chmod_fails w |}.

Definition readTemplate (relPath : string) : io world jsstring :=
  fun w =>
    match templates w !! relPath with
    | Some text => (Done text, w)
    | None => (Threw (ENOENT relPath), w)
    end.

(** [mkdirSync(dirname, {recursive: true})] then [writeFileSync]: the file
    holds [content] afterwards, whatever it held before. *)
Definition writeFile (targetPath : string) (content : jsstring) : io world unit :=
  fun w =>
    if decide (targetPath ∈ denied w)
    then (Threw (EACCES targetPath), w)
    else (Done tt, set_files w (<[targetPath := content]> (files w))).

Definition existsSync (p : string) : io world bool :=
  fun w => (Done (bool_decide (is_Some (files w !! p))), w).

(** [try { chmodSync(p, 0o755) } catch {}]: where [chmodSync] throws, for
    a file that is not there or a mode that cannot be changed, the
    exception is dropped and nothing is marked. *)
Definition makeExecutable (p : string) : io world unit :=
  fun w =>
    if bool_decide (is_Some (files w !! p)) && negb (bool_decide (p ∈ chmod_fails w))
    then (Done tt, set_executable w ({[p]} ∪ executable w))
    else (Done tt, w).

(** [replacePlaceholders] inside a run. *)
Definition render (str : jsstring) (vars : list (jsstring * jsval))
    : io world jsstring :=
  match replacePlaceholders str vars with
  | Returned out => ret out
  | SyntaxError | NotDescribed => throw BadPattern
  end.

(** Read a template, fill it in, write it:
    [writeFile(target, replacePlaceholders(readTemplate(tpl), vars))]. *)
Definition writeRendered (target tplPath : string)
    (vars : list (jsstring * jsval)) : io world unit :=
  let* tpl := readTemplate tplPath in
  let* out := render tpl vars in
  writeFile target out.

Definition is_empty (s : jsstring) : bool :=
  match s with [] => true | _ :: _ => false end.

(** *** The current variant

    The case conversion of the engine, [String.prototype.toLowerCase], is a
    table of the runtime and not code of the repository: a parameter.  What
    [main] prints on the console is left out. *)
Module Interactive.
Section Main.

Variable toLowerCase : jsstring -> jsstring.

(** [projectName.toLowerCase().replace(/[^a-z0-9-_]/g, "")] *)
Definition imageName (a : answers) : jsstring :=
  replace not_slug_re [] (toLowerCase (projectName a)).

(** [mode === "production" ? await input(...) : ""] *)
Definition asked_migrationCommand (a : answers) : jsstring :=
  match mode a with
  | production => migrationCommand a
  | simple => []
  end.

(** [vars.MIGRATION_COMMAND] *)
Definition MIGRATION_COMMAND (a : answers) : jsstring :=
  trim (asked_migrationCommand a).

(** The entries of [vars], in the order of the object literal. *)
Definition vars (a : answers) (p : preset) : list (jsstring * jsval) :=
  [ (js "APP_NAME", JString (imageName a));
    (js "IMAGE_NAME", JString (imageName a));
    (js "PORT", JString (or_else (defaultPort p) (js "3000")));
    (js "RUNTIME_VERSION", JString (or_else (runtimeVersion p) (js "latest")));
    (js "INSTALL_COMMAND", JString (installCommand a));
    (js "LINT_COMMAND", JString (lintCommand a));
    (js "TEST_COMMAND", JString (testCommand a));
    (js "BUILD_COMMAND", JString (or_else (buildCommand p) no_build_step));
    (js "PROD_BRANCH", JString (prodBranch a));
    (js "STAGING_BRANCH", JString (stagingBranch a));
    (js "MIGRATION_COMMAND", JString (MIGRATION_COMMAND a));
    (js "HEALTH_PATH", JString (or_else (healthPath p) (js "/health"))) ].

(** The block "Dockerfile + .dockerignore", the same in both modes: the
    Dockerfile is written, the ignore list only if no such file exists. *)
Definition dockerFiles (a : answers) (p : preset) : io world unit :=
  writeRendered "Dockerfile"
    ("docker/Dockerfile." +:+ stack_name (stack_of a) +:+ ".template") (vars a p) ;;;
  let* present := existsSync ".dockerignore" in
  if negb present
  then let* tpl := readTemplate "docker/.dockerignore.template" in
       writeFile ".dockerignore" tpl
  else ret tt.

Definition script (tplRel outName : string) (a : answers) (p : preset)
    : io world unit :=
  writeRendered ("scripts/" +:+ outName) tplRel (vars a p) ;;;
  makeExecutable ("scripts/" +:+ outName).

Definition main (a : answers) (p : preset) : io world unit :=
  match mode a with
  | simple =>
      writeRendered ".github/workflows/monolith.yml"
        ("workflows/monolith." +:+ stack_name (stack_of a) +:+ ".yml.template")
        (vars a p) ;;;
      if useDocker a then dockerFiles a p else ret tt
  | production =>
      (* CI *)
      writeRendered ".github/workflows/ci.yml"
        ("workflows/ci." +:+ stack_name (stack_of a) +:+ ".yml.template")
        (vars a p) ;;;
      (* Build *)
      writeRendered ".github/workflows/build.yml"
        (if useDocker a then "workflows/build.docker.yml.template"
         else "workflows/build.basic.yml.template")
        (vars a p) ;;;
      (* Deploy: strip migration step blocks when no migration command was given *)
      (let* deployTpl := readTemplate "workflows/deploy.yml.template" in
       let deployTpl :=
         if is_empty (MIGRATION_COMMAND a)
         then removeStepBlock deployTpl (js "Run migrations")
         else deployTpl in
       let* out := render deployTpl (vars a p) in
       writeFile ".github/workflows/deploy.yml" out) ;;;
      (* Rollback *)
      writeRendered ".github/workflows/rollback.yml"
        "workflows/rollback.yml.template" (vars a p) ;;;
      (* Security scan *)
      writeRendered ".github/workflows/security-scan.yml"
        "workflows/security-scan.yml.template" (vars a p) ;;;
      (* Shell scripts *)
      script "scripts/deploy.sh.template" "deploy.sh" a p ;;;
      script "scripts/rollback.sh.template" "rollback.sh" a p ;;;
      script "scripts/health-check.sh.template" "health-check.sh" a p ;;;
      (* Dockerfile + .dockerignore *)
      if useDocker a then dockerFiles a p else ret tt
  end.

End Main.
End Interactive.

(** *** The older variant

    One mode only, fewer prompts (the fields [stagingBranch], [lintCommand]
    and [mode] of [answers] are not read), and no ignore list. *)
Module Legacy.
Section Main.

Variable toLowerCase : jsstring -> jsstring.

Definition vars (a : answers) (p : preset) : list (jsstring * jsval) :=
  [ (js "APP_NAME", JString (projectName a));
    (js "IMAGE_NAME",
      JString (replace not_slug_re [] (toLowerCase (projectName a))));
    (js "PORT", JString (or_else (defaultPort p) (js "3000")));
    (js "INSTALL_COMMAND", JString (installCommand a));
    (js "TEST_COMMAND", JString (testCommand a));
    (js "BUILD_COMMAND", JString (or_else (buildCommand p) no_build_step));
    (js "PROD_BRANCH", JString (prodBranch a));
    (js "MIGRATION_COMMAND", JString (migrationCommand a)) ].

(** The filter that drops the migration lines of the deploy template. *)
Definition keep_line (line : jsstring) : bool :=
  negb (includes line (js "MIGRATION_COMMAND"))
  && negb (includes (toLowerCase line) (js "run migrations")).

Definition main (a : answers) (p : preset) : io world unit :=
  (* CI *)
  writeRendered ".github/workflows/ci.yml" "workflows/ci.yml.template" (vars a p) ;;;
  (* Build *)
  writeRendered ".github/workflows/build.yml"
    (if useDocker a then "workflows/build.docker.yml.template"
     else "workflows/build.basic.yml.template")
    (vars a p) ;;;
  (* Deploy (handle optional migration step) *)
  (let* deployTpl := readTemplate "workflows/deploy.yml.template" in
   let deployTpl :=
     if is_empty (migrationCommand a) || is_empty (trim (migrationCommand a))
     then join_lines (List.filter keep_line (split_lines deployTpl))
     else deployTpl in
   let* deployYml := render deployTpl (vars a p) in
   writeFile ".github/workflows/deploy.yml" deployYml) ;;;
  (* Rollback *)
  writeRendered ".github/workflows/rollback.yml"
    "workflows/rollback.yml.template" (vars a p) ;;;
  (* Scripts *)
  (let* deployTpl := readTemplate "scripts/deploy.sh.template" in
   let* deploySh := render deployTpl (vars a p) in
   let* rollbackTpl := readTemplate "scripts/rollback.sh.template" in
   let* rollbackSh := render rollbackTpl (vars a p) in
   let* healthTpl := readTemplate "scripts/health-check.sh.template" in
   let* healthSh := render healthTpl (vars a p) in
   writeFile "scripts/deploy.sh" deploySh ;;;
   writeFile "scripts/rollback.sh" rollbackSh ;;;
   writeFile "scripts/health-check.sh" healthSh ;;;
   makeExecutable "scripts/deploy.sh" ;;;
   makeExecutable "scripts/rollback.sh" ;;;
   makeExecutable "scripts/health-check.sh") ;;;
  (* Dockerfile (optional) *)
  if useDocker a
  then writeRendered "Dockerfile"
         ("docker/Dockerfile." +:+ stack_name (stack_of a) +:+ ".template") (vars a p)
  else ret tt.

End Main.
End Legacy.


(** ** The template copier ([index.js]) *)

Module Copier.

(** The templates directory of the package: files with their content,
    directories with their entries in the order [readdirSync] lists them. *)
#[warnings="-register-all"]
Inductive tree : Type :=
| File (content : jsstring)
| Dir (entries : list (string * tree)).

(** A line of the log. *)
Inductive event : Type :=
| Skipped (relPath : string)
| Copied (relPath : string).

(** The files under the working directory, the paths that cannot be
    written, and what was logged so far. *)
Record world : Type := {
  files : gmap string jsstring;
  denied : gset string;
  log : list event
}.

Definition say (e : event) : io world unit :=
  fun w => (Done tt, {| files := files w; denied := denied w; log := log w ++ [e] |}).

(** [mkdirSync(dirname(dest), {recursive: true})] and [copyFileSync(src,
    dest)], [src] being given by its content. *)
Definition copyFileSync (src : jsstring) (dest : string) : io world unit :=
  fun w =>
    if decide (dest ∈ denied w)
    then (Threw (EACCES dest), w)
    else (Done tt, {| files := <[dest := src]> (files w);
                      denied := denied w; log := log w |}).

Definition existsSync (p : string) : io world bool :=
  fun w => (Done (bool_decide (is_Some (files w !! p))), w).

Section Run.

(** [args.includes("--force")] *)
Variable force : bool.

Definition copyFile (src : jsstring) (dest : string) : io world unit :=
  let* present := existsSync dest in
  if present && negb force
  then say (Skipped dest)
  else copyFileSync src dest ;;; say (Copied dest).

(** [copyDir], by recursion on the directory read: an entry that is a
    directory is entered, any other entry is copied. *)
Fixpoint copyEntry (t : tree) (destPath : string) : io world unit :=
  match t with
  | File content => copyFile content destPath
  | Dir entries =>
      (fix each (es : list (string * tree)) : io world unit :=
         match es with
         | [] => ret tt
         | (entry, t') :: es' =>
             copyEntry t' (destPath +:+ "/" +:+ entry) ;;; each es'
         end) entries
  end.

Definition copyDir (entries : list (string * tree)) (destDir : string)
    : io world unit :=
  copyEntry (Dir entries) destDir.

Definition TARGET_DIR : string := ".github/workflows".

(** [main]: the exit code and the world left.  [TEMPLATES_DIR] is [None]
    when the directory does not exist. *)
Definition main (TEMPLATES_DIR : option (list (string * tree))) (w : world)
    : nat * world :=
  match TEMPLATES_DIR with
  | None => (1%nat, w)
  | Some [] => (1%nat, w)
  | Some templates =>
      match copyDir templates TARGET_DIR w with
      | (Done _, w') => (0%nat, w')
      | (Threw _, w') => (1%nat, w')
      end
  end.

End Run.

(** The destination paths a copy visits, in order. *)
Fixpoint dests (t : tree) (destPath : string) : list string :=
  match t with
  | File _ => [destPath]
  | Dir entries =>
      (fix each (es : list (string * tree)) : list string :=
         match es with
         | [] => []
         | (entry, t') :: es' =>
             dests t' (destPath +:+ "/" +:+ entry) ++ each es'
         end) entries
  end.

Definition is_Skipped (e : event) : bool :=
  match e with Skipped _ => true | Copied _ => false end.

End Copier.

(** ** Frame conditions on runs *)

(** [c] relates the world it starts in to the world it leaves, however
    it ends. *)
Definition stable {A} (R : world -> world -> Prop) (c : io world A) : Prop :=
  forall w r w', c w = (r, w') -> R w w'.

(** A relation between worlds that every step of a run respects, writes
    being restricted to the paths [frame_ok]. *)
Class Frame (R : world -> world -> Prop) : Type := {
  frame_ok : string -> Prop;
  frame_refl : forall w, R w w;
  frame_trans : forall w1 w2 w3, R w1 w2 -> R w2 w3 -> R w1 w3;
  frame_write : forall w t c, frame_ok t -> R w (set_files w (<[t := c]> (files w)));
  frame_exec : forall w x, R w (set_executable w x)
}.

(** The templates and the unwritable paths are the same. *)
Definition same_setup (w w' : world) : Prop :=
  templates w' = templates w /\ denied w' = denied w.

(** The file at [p] is the same, or absent as before. *)
Definition same_at (p : string) (w w' : world) : Prop :=
  files w' !! p = files w !! p.

(** A file present at [p] is still there, with the same content. *)
Definition kept_at (p : string) (w w' : world) : Prop :=
  forall c, files w !! p = Some c -> files w' !! p = Some c.

(** What holds of the world when a run reaches its Docker block: the
    templates are as at the start, and so is the ignore list. *)
Definition docker_ready (w w' : world) : Prop :=
  same_setup w w' /\ same_at ".dockerignore" w w'.

(** [c] returns, from every world with the templates [T] and no unwritable
    path, and leaves such a world. *)
Definition completes (T : gmap string jsstring) {A} (c : io world A) : Prop :=
  forall w, templates w = T -> denied w = ∅ ->
    exists a w', c w = (Done a, w') /\ templates w' = T /\ denied w' = ∅.

(** The templates a run of the current variant reads at most. *)
Definition interactive_templates_read (a : answers) : list string :=
  match mode a with
  | simple =>
      ["workflows/monolith." +:+ stack_name (stack_of a) +:+ ".yml.template"]
  | production =>
      ["workflows/ci." +:+ stack_name (stack_of a) +:+ ".yml.template";
       if useDocker a then "workflows/build.docker.yml.template"
       else "workflows/build.basic.yml.template";
       "workflows/deploy.yml.template";
       "workflows/rollback.yml.template";
       "workflows/security-scan.yml.template";
       "scripts/deploy.sh.template";
       "scripts/rollback.sh.template";
       "scripts/health-check.sh.template"]
  end%string
  ++ (if useDocker a
      then ["docker/Dockerfile." +:+ stack_name (stack_of a) +:+ ".template";
            "docker/.dockerignore.template"]
      else [])%string.

(** The templates a run of the older variant reads. *)
Definition legacy_templates_read (a : answers) : list string :=
  ["workflows/ci.yml.template";
   if useDocker a then "workflows/build.docker.yml.template"
   else "workflows/build.basic.yml.template";
   "workflows/deploy.yml.template";
   "workflows/rollback.yml.template";
   "scripts/deploy.sh.template";
   "scripts/rollback.sh.template";
   "scripts/health-check.sh.template"]%string
  ++ (if useDocker a
      then ["docker/Dockerfile." +:+ stack_name (stack_of a) +:+ ".template"]
      else [])%string.

(** The world after [events] were logged and nothing else happened. *)
Definition logged (w : Copier.world) (events : list Copier.event) : Copier.world :=
  {| Copier.files := Copier.files w;
     Copier.denied := Copier.denied w;
     Copier.log := Copier.log w ++ events |}.

(** A package with two templates, one of them in a folder. *)
Definition sample_package : list (string * Copier.tree) :=
  [ ("ci.yml"%string, Copier.File (js "on: push"));
    ("extra"%string, Copier.Dir [ ("lint.yml"%string, Copier.File (js "on: pull_request")) ]) ].

(** A project in which one of the two workflows exists already. *)
Definition sample_project : Copier.world :=
  {| Copier.files := {[ ".github/workflows/ci.yml"%string := js "mine" ]};
     Copier.denied := ∅;
     Copier.log := [] |}.

(** ** Sample inputs for the examples *)

(** [vars.KEY]: the value of the first entry under the key. *)
Fixpoint get_var (key : jsstring) (vars : list (jsstring * jsval)) : option jsval :=
  match vars with
  | [] => None
  | (k, v) :: rest => if decide (k = key) then Some v else get_var key rest
  end.

(** The case conversion on text in the ASCII range, where it maps A-Z to
    a-z and nothing else. *)
Definition ascii_toLowerCase (s : jsstring) : jsstring :=
  List.map (fun c => if (65 <=? c) && (c <=? 90) then c + 32 else c) s.

Definition sample_answers : answers :=
  {| projectName := js "My App";
     stack_of := node;
     prodBranch := js "main";
     stagingBranch := js "staging";
     installCommand := js "npm ci";
     lintCommand := js "npm run lint";
     testCommand := js "npm test";
     useDocker := true;
     mode := production;
     migrationCommand := js "" |}.

Definition sample_preset : preset :=
  {| defaultPort := Some (js "3000");
     runtimeVersion := Some (js "20");
     buildCommand := None;
     healthPath := None |}.

Definition sample_deploy_template : jsstring :=
  js "name: Deploy {{APP_NAME}}
    steps:
      - name: Pull image
        run: docker pull {{ IMAGE_NAME }}
      - name: Run migrations (staging)
        run: {{MIGRATION_COMMAND}}
      - name: Restart
        run: ./deploy.sh".

Definition sample_templates : gmap string jsstring :=
  list_to_map
    [ ("workflows/ci.node.yml.template"%string, js "ci {{TEST_COMMAND}}");
      ("workflows/monolith.node.yml.template"%string, js "all {{TEST_COMMAND}}");
      ("workflows/build.docker.yml.template"%string, js "build {{IMAGE_NAME}}");
      ("workflows/deploy.yml.template"%string, sample_deploy_template);
      ("workflows/rollback.yml.template"%string, js "rollback");
      ("workflows/security-scan.yml.template"%string, js "scan");
      ("scripts/deploy.sh.template"%string, js "deploy {{PORT}}");
      ("scripts/rollback.sh.template"%string, js "rollback {{PORT}}");
      ("scripts/health-check.sh.template"%string, js "curl {{HEALTH_PATH}}");
      ("docker/Dockerfile.node.template"%string, js "FROM node:{{RUNTIME_VERSION}}");
      ("docker/.dockerignore.template"%string, js ".git") ].

(** A project that already holds a Dockerfile and an ignore list. *)
Definition sample_world : world :=
  {| templates := sample_templates;
     files := list_to_map [ ("Dockerfile"%string, js "FROM scratch");
                            (".dockerignore"%string, js "mine") ];
     executable := ∅;
     denied := ∅;
     chmod_fails := ∅ |}.

(** ** Definitions for the further properties *)

(** The sample answers under another project name. *)
Definition sample_answers_named (name : jsstring) : answers :=
  {| projectName := name;
     stack_of := stack_of sample_answers;
     prodBranch := prodBranch sample_answers;
     stagingBranch := stagingBranch sample_answers;
     installCommand := installCommand sample_answers;
     lintCommand := lintCommand sample_answers;
     testCommand := testCommand sample_answers;
     useDocker := useDocker sample_answers;
     mode := mode sample_answers;
     migrationCommand := migrationCommand sample_answers |}.

(** The sample answers with a migration command. *)
Definition sample_answers_migrating (command : jsstring) : answers :=
  {| projectName := projectName sample_answers;
     stack_of := stack_of sample_answers;
     prodBranch := prodBranch sample_answers;
     stagingBranch := stagingBranch sample_answers;
     installCommand := installCommand sample_answers;
     lintCommand := lintCommand sample_answers;
     testCommand := testCommand sample_answers;
     useDocker := useDocker sample_answers;
     mode := mode sample_answers;
     migrationCommand := command |}.

(** The paths a run of the current variant may write. *)
Definition interactive_outputs (a : answers) : list string :=
  match mode a with
  | simple => [".github/workflows/monolith.yml"]
  | production =>
      [".github/workflows/ci.yml";
       ".github/workflows/build.yml";
       ".github/workflows/deploy.yml";
       ".github/workflows/rollback.yml";
       ".github/workflows/security-scan.yml";
       "scripts/deploy.sh";
       "scripts/rollback.sh";
       "scripts/health-check.sh"]
  end%string
  ++ (if useDocker a then ["Dockerfile"; ".dockerignore"] else [])%string.

(** The paths a run of the older variant may write. *)
Definition legacy_outputs (a : answers) : list string :=
  [".github/workflows/ci.yml";
   ".github/workflows/build.yml";
   ".github/workflows/deploy.yml";
   ".github/workflows/rollback.yml";
   "scripts/deploy.sh";
   "scripts/rollback.sh";
   "scripts/health-check.sh"]%string
  ++ (if useDocker a then ["Dockerfile"] else [])%string.

(** The files at the paths outside [L] are the same, or absent as before;
    so are the templates and the unwritable paths. *)
Definition same_outside (L : list string) (w w' : world) : Prop :=
  same_setup w w' /\ forall q, ~ In q L -> files w' !! q = files w !! q.

(** The exceptions a run may end with, for the templates [T], the
    unwritable paths [D] and the templates [L] it reads: a template of [L]
    that is missing, or a path that cannot be written. *)
Definition expected_error (T : gmap string jsstring) (D : gset string)
    (L : list string) (e : error) : Prop :=
  (exists path, e = ENOENT path /\ In path L /\ T !! path = None)
  \/ (exists target, e = EACCES target /\ target ∈ D).

Definition throws_only (T : gmap string jsstring) (D : gset string)
    (L : list string) {A} (c : io world A) : Prop :=
  forall w r w', templates w = T -> denied w = D -> c w = (r, w') ->
    templates w' = T /\ denied w' = D /\
    match r with Done _ => True | Threw e => expected_error T D L e end.

(** The step of [main] that reads a template, passes it through [f], fills
    it in and writes it; [writeRendered] is the case where [f] changes
    nothing, the deploy step of the current variant the case where [f]
    removes the migration steps or not. *)
Definition writeRenderedWith (f : jsstring -> jsstring) (target tplPath : string)
    (vars : list (jsstring * jsval)) : io world unit :=
  let* tpl := readTemplate tplPath in
  let tpl := f tpl in
  let* out := render tpl vars in
  writeFile target out.

(** [target] can be written and holds the rendering of the template
    [tplPath] passed through [f]. *)
Definition holds_rendering (f : jsstring -> jsstring) (target tplPath : string)
    (vars : list (jsstring * jsval)) (w : world) : Prop :=
  exists tpl out,
    templates w !! tplPath = Some tpl /\
    replacePlaceholders (f tpl) vars = Returned out /\
    (target ∉ denied w) /\
    files w !! target = Some out.

(** The paths whose mode cannot be changed are the same. *)
Definition same_chmod (w w' : world) : Prop :=
  chmod_fails w' = chmod_fails w.

(** The setup is the same, and so is the file at [p]. *)
Definition setup_and_at (p : string) (w w' : world) : Prop :=
  same_setup w w' /\ same_at p w w' /\ same_chmod w w'.

(** The script at [p] is marked executable, unless its mode cannot be
    changed. *)
Definition marked_if_possible (p : string) (w : world) : Prop :=
  p ∈ executable w \/ p ∈ chmod_fails w.

(** What the deploy step of the current variant does to its template. *)
Definition strip_migrations (a : answers) (deployTpl : jsstring) : jsstring :=
  if is_empty (Interactive.MIGRATION_COMMAND a)
  then removeStepBlock deployTpl (js "Run migrations")
  else deployTpl.

(** [c] relates the executable marks before and after by [R], however it
    ends. *)
Definition marks {A} (R : gset string -> gset string -> Prop) (c : io world A) : Prop :=
  forall w r w', c w = (r, w') -> R (executable w) (executable w').

(** The marks only grow, and by scripts only. *)
Definition grows_by (S : gset string) (E E' : gset string) : Prop :=
  E ⊆ E' /\ E' ⊆ E ∪ S.

(** The three scripts of the production mode. *)
Definition script_paths : gset string :=
  {[ "scripts/deploy.sh"%string; "scripts/rollback.sh"%string;
     "scripts/health-check.sh"%string ]}.

(** What a completed run of the current variant in production mode leaves:
    each output holds its rendering, the scripts are marked where their
    mode can be changed, and with Docker there is an ignore list. *)
Definition production_outcome (toLowerCase : jsstring -> jsstring)
    (a : answers) (p : preset) (w : world) : Prop :=
  let vars := Interactive.vars toLowerCase a p in
  let plain := fun tpl : jsstring => tpl in
  holds_rendering plain ".github/workflows/ci.yml"
    ("workflows/ci." +:+ stack_name (stack_of a) +:+ ".yml.template") vars w
  /\ holds_rendering plain ".github/workflows/build.yml"
       (if useDocker a then "workflows/build.docker.yml.template"
        else "workflows/build.basic.yml.template") vars w
  /\ holds_rendering (strip_migrations a) ".github/workflows/deploy.yml"
       "workflows/deploy.yml.template" vars w
  /\ holds_rendering plain ".github/workflows/rollback.yml"
       "workflows/rollback.yml.template" vars w
  /\ holds_rendering plain ".github/workflows/security-scan.yml"
       "workflows/security-scan.yml.template" vars w
  /\ (holds_rendering plain "scripts/deploy.sh" "scripts/deploy.sh.template" vars w
      /\ marked_if_possible "scripts/deploy.sh" w)
  /\ (holds_rendering plain "scripts/rollback.sh" "scripts/rollback.sh.template" vars w
      /\ marked_if_possible "scripts/rollback.sh" w)
  /\ (holds_rendering plain "scripts/health-check.sh"
        "scripts/health-check.sh.template" vars w
      /\ marked_if_possible "scripts/health-check.sh" w)
  /\ (useDocker a = true ->
      holds_rendering plain "Dockerfile"
        ("docker/Dockerfile." +:+ stack_name (stack_of a) +:+ ".template") vars w
      /\ is_Some (files w !! ".dockerignore")).

(** The same for the simple mode. *)
Definition simple_outcome (toLowerCase : jsstring -> jsstring)
    (a : answers) (p : preset) (w : world) : Prop :=
  let vars := Interactive.vars toLowerCase a p in
  let plain := fun tpl : jsstring => tpl in
  holds_rendering plain ".github/workflows/monolith.yml"
    ("workflows/monolith." +:+ stack_name (stack_of a) +:+ ".yml.template") vars w
  /\ (useDocker a = true ->
      holds_rendering plain "Dockerfile"
        ("docker/Dockerfile." +:+ stack_name (stack_of a) +:+ ".template") vars w
      /\ is_Some (files w !! ".dockerignore")).

(** The destinations a copy visits with the content it brings, in order. *)
Fixpoint dest_contents (t : Copier.tree) (destPath : string)
    : list (string * jsstring) :=
  match t with
  | Copier.File content => [(destPath, content)]
  | Copier.Dir entries =>
      (fix each (es : list (string * Copier.tree)) : list (string * jsstring) :=
         match es with
         | [] => []
         | (entry, t') :: es' =>
             dest_contents t' (destPath +:+ "/" +:+ entry) ++ each es'
         end) entries
  end.

Definition event_path (e : Copier.event) : string :=
  match e with
  | Copier.Skipped relPath => relPath
  | Copier.Copied relPath => relPath
  end.

(** What the copier logs for a destination, and what it leaves there. *)
Definition copy_event (force : bool) (w : Copier.world) (q : string)
    : Copier.event :=
  if bool_decide (is_Some (Copier.files w !! q)) && negb force
  then Copier.Skipped q else Copier.Copied q.

Definition copy_result (force : bool) (w : Copier.world) (q : string)
    (content : jsstring) : option jsstring :=
  match Copier.files w !! q with
  | Some old => Some (if force then content else old)
  | None => Some content
  end.

(* ================================================================== *)
(** * Theorems *)

Example removeStepBlock_abc :
  removeStepBlock (js "  - name: A
    run: a
  - name: B
    run: b
  - name: C
    run: c") (js "B") = js "  - name: A
    run: a
  - name: C
    run: c".
Proof. vm_compute. reflexivity. Qed.

(** ** Lines: [split] and [join] *)

Lemma split_lines_nonempty s : split_lines s <> [].
Proof.
  destruct s as [|c s]; simpl; [discriminate|].
  destruct (c =? LF); [discriminate|].
  destruct (split_lines s); discriminate.
Qed.

Lemma join_lines_cons l ls :
  ls <> [] -> join_lines (l :: ls) = l ++ LF :: join_lines ls.
Proof. destruct ls; [congruence | reflexivity]. Qed.

(** Joining the pieces of a split gives the text back. *)
Lemma join_split_lines s : join_lines (split_lines s) = s.
Proof.
  induction s as [|c s IH]; [reflexivity|].
  simpl. destruct (N.eqb_spec c LF) as [->|Hc].
  - rewrite join_lines_cons by apply split_lines_nonempty. now rewrite IH.
  - pose proof (split_lines_nonempty s) as Hne.
    destruct (split_lines s) as [|l ls]; [congruence|].
    destruct ls as [|l' ls]; simpl in *; now rewrite <- IH.
Qed.

Lemma split_lines_app_LF l s :
  no_LF l = true -> split_lines (l ++ LF :: s) = l :: split_lines s.
Proof.
  unfold no_LF. induction l as [|c l IH]; intros H; simpl in *.
  - reflexivity.
  - rewrite negb_true_iff in H. apply orb_false_elim in H as [Hc Hl].
    rewrite N.eqb_sym, Hc. rewrite IH by now rewrite Hl. reflexivity.
Qed.

Lemma split_lines_single l : no_LF l = true -> split_lines l = [l].
Proof.
  unfold no_LF. induction l as [|c l IH]; intros H; simpl in *.
  - reflexivity.
  - rewrite negb_true_iff in H. apply orb_false_elim in H as [Hc Hl].
    rewrite N.eqb_sym, Hc. rewrite IH by now rewrite Hl. reflexivity.
Qed.

(** Splitting the join of single lines gives the lines back. *)
Lemma split_join_lines ls :
  ls <> [] -> forallb no_LF ls = true -> split_lines (join_lines ls) = ls.
Proof.
  induction ls as [|l ls IH]; [congruence|]. intros _ H.
  simpl in H. apply andb_prop in H as [Hl Hls].
  destruct ls as [|l' ls].
  - simpl. now apply split_lines_single.
  - rewrite join_lines_cons by discriminate.
    rewrite split_lines_app_LF by assumption.
    f_equal. apply IH; [discriminate | assumption].
Qed.

(** ** The scan of [removeStepBlock] *)

Lemma fold_loop_body_kept sub lines skipping result :
  snd (fold_left (loop_body sub) lines (skipping, result))
  = result ++ kept sub skipping lines.
Proof.
  revert skipping result.
  induction lines as [|line rest IH]; intros skipping result; simpl.
  - now rewrite app_nil_r.
  - destruct skipping; simpl.
    + destruct (is_sibling_step sub line); simpl; rewrite IH.
      * now rewrite <- app_assoc.
      * reflexivity.
    + destruct (is_target_step sub line); simpl; rewrite IH.
      * reflexivity.
      * now rewrite <- app_assoc.
Qed.

Lemma removeStepBlock_kept yaml sub :
  removeStepBlock yaml sub = join_lines (kept sub false (split_lines yaml)).
Proof.
  unfold removeStepBlock.
  pose proof (fold_loop_body_kept sub (split_lines yaml) false []) as H.
  destruct (fold_left _ _ _) as [sk result]. simpl in H. now rewrite H.
Qed.

Lemma kept_false_no_target sub pre rest :
  forallb (fun l => negb (is_target_step sub l)) pre = true ->
  kept sub false (pre ++ rest) = pre ++ kept sub false rest.
Proof.
  induction pre as [|l pre IH]; intros H; simpl in *; [reflexivity|].
  apply andb_prop in H as [Hl Hpre]. rewrite negb_true_iff in Hl.
  rewrite Hl. simpl. now rewrite IH.
Qed.

Lemma kept_false_target sub hdr rest :
  is_target_step sub hdr = true ->
  kept sub false (hdr :: rest) = kept sub true rest.
Proof. intros H. simpl. now rewrite H. Qed.

Lemma kept_true_no_sibling sub body rest :
  forallb (fun l => negb (is_sibling_step sub l)) body = true ->
  kept sub true (body ++ rest) = kept sub true rest.
Proof.
  induction body as [|l body IH]; intros H; simpl in *; [reflexivity|].
  apply andb_prop in H as [Hl Hbody]. rewrite negb_true_iff in Hl.
  rewrite Hl. now rewrite IH.
Qed.

Lemma kept_true_sibling sub next rest :
  is_sibling_step sub next = true ->
  kept sub true (next :: rest) = next :: kept sub false rest.
Proof. intros H. simpl. now rewrite H. Qed.

Lemma kept_nil sub skipping : kept sub skipping [] = [].
Proof. reflexivity. Qed.

(** Removing one block: the lines before the target header stay, the header
    and the lines up to the next sibling go, the sibling and what follows
    stay. *)
Lemma kept_block sub pre hdr body next rest :
  forallb (fun l => negb (is_target_step sub l)) pre = true ->
  is_target_step sub hdr = true ->
  forallb (fun l => negb (is_sibling_step sub l)) body = true ->
  is_sibling_step sub next = true ->
  forallb (fun l => negb (is_target_step sub l)) rest = true ->
  kept sub false (pre ++ hdr :: body ++ next :: rest) = pre ++ next :: rest.
Proof.
  intros Hpre Hhdr Hbody Hnext Hrest.
  rewrite kept_false_no_target by assumption.
  rewrite kept_false_target by assumption.
  rewrite kept_true_no_sibling by assumption.
  rewrite kept_true_sibling by assumption.
  rewrite <- (app_nil_r rest) at 1.
  rewrite kept_false_no_target by assumption.
  now rewrite kept_nil, app_nil_r.
Qed.

(** Removing the last block: nothing after the target header stays. *)
Lemma kept_last_block sub pre hdr body :
  forallb (fun l => negb (is_target_step sub l)) pre = true ->
  is_target_step sub hdr = true ->
  forallb (fun l => negb (is_sibling_step sub l)) body = true ->
  kept sub false (pre ++ hdr :: body) = pre.
Proof.
  intros Hpre Hhdr Hbody.
  rewrite kept_false_no_target by assumption.
  rewrite kept_false_target by assumption.
  rewrite <- (app_nil_r body).
  rewrite kept_true_no_sibling by assumption.
  now rewrite kept_nil, app_nil_r.
Qed.

(** ** White space, trimming and the sibling pattern *)

#[local] Arguments is_space : simpl never.

Lemma is_indent_inv ind :
  is_indent ind = true ->
  ind <> [] /\ Forall (fun c => is_space c = true) ind /\ no_LF ind = true.
Proof.
  intros H. split; [destruct ind; [discriminate | discriminate]|].
  assert (Hall : forallb (fun c => is_space c && negb (c =? LF)) ind = true)
    by (destruct ind; [discriminate | exact H]).
  clear H. unfold no_LF.
  induction ind as [|c ind IH]; simpl in *; [split; [constructor | reflexivity]|].
  apply andb_prop in Hall as [Hc Hall]. apply andb_prop in Hc as [Hsp Hlf].
  destruct (IH Hall) as [Hf Hn]. split; [constructor; assumption|].
  rewrite negb_true_iff in *. rewrite N.eqb_sym, Hlf. exact Hn.
Qed.

Lemma trimStart_spaces ws s :
  Forall (fun c => is_space c = true) ws -> trimStart (ws ++ s) = trimStart s.
Proof.
  unfold trimStart. induction 1 as [|c ws Hc _ IH]; simpl; [reflexivity|].
  now rewrite Hc.
Qed.

Lemma trim_spaces ws s :
  Forall (fun c => is_space c = true) ws -> trim (ws ++ s) = trim s.
Proof. intros H. unfold trim. now rewrite trimStart_spaces. Qed.

Lemma no_LF_app a b : no_LF (a ++ b) = no_LF a && no_LF b.
Proof. unfold no_LF. now rewrite existsb_app, negb_orb. Qed.

Lemma rmatch_star_cons {R} a c s (k : jsstring -> option R) :
  rmatch (RStar a) (c :: s) k =
  if atom_matches a c
  then match rmatch (RStar a) s k with Some x => Some x | None => k (c :: s) end
  else k (c :: s).
Proof. reflexivity. Qed.

Lemma rmatch_star_nil {R} a (k : jsstring -> option R) :
  rmatch (RStar a) [] k = k [].
Proof. reflexivity. Qed.

Lemma rmatch_cat {R} r1 r2 s (k : jsstring -> option R) :
  rmatch (RCat r1 r2) s k = rmatch r1 s (fun s' => rmatch r2 s' k).
Proof. reflexivity. Qed.

Lemma rmatch_one_cons {R} a c s (k : jsstring -> option R) :
  rmatch (ROne a) (c :: s) k = if atom_matches a c then k s else None.
Proof. reflexivity. Qed.

(** White space before a character that is not white space is consumed
    whole by [\s*] when what follows matches. *)
Lemma rmatch_star_spaces {R} ws rest (k : jsstring -> option R) x :
  Forall (fun c => is_space c = true) ws ->
  match rest with c :: _ => is_space c = false | [] => True end ->
  k rest = Some x ->
  rmatch (RStar ASpace) (ws ++ rest) k = Some x.
Proof.
  intros Hws Hrest Hk. induction Hws as [|c ws Hc _ IH]; simpl app.
  - destruct rest as [|c rest].
    + now rewrite rmatch_star_nil.
    + rewrite rmatch_star_cons. simpl atom_matches. now rewrite Hrest.
  - rewrite rmatch_star_cons. simpl atom_matches. now rewrite Hc, IH.
Qed.

(** The sibling pattern accepts every line that is white space, at least one
    character of it, followed by [- name:], [- uses:] or [- run:], whatever
    the amount of white space and whatever follows. *)
Lemma sibling_step_re_accepts ws kw tail :
  ws <> [] -> Forall (fun c => is_space c = true) ws ->
  In kw [js "name:"; js "uses:"; js "run:"] ->
  test_anchored sibling_step_re (ws ++ js "- " ++ kw ++ tail) = true.
Proof.
  intros Hne Hws Hkw. destruct ws as [|c ws]; [congruence|].
  inversion Hws as [|? ? Hc Hws']; subst.
  unfold test_anchored, exec_at, sibling_step_re.
  set (k0 := fun rest : jsstring => Some _).
  rewrite rmatch_cat. simpl app. rewrite rmatch_one_cons.
  simpl atom_matches. rewrite Hc, rmatch_cat.
  assert (Hk : exists x,
    rmatch (RCat (RLit (js "- "))
       (RAlt (RLit (js "name:")) (RAlt (RLit (js "uses:")) (RLit (js "run:")))))
       (js "- " ++ kw ++ tail) k0 = Some x).
  { simpl in Hkw. destruct Hkw as [<-|[<-|[<-|[]]]]; eexists; reflexivity. }
  destruct Hk as [x Hk].
  erewrite (rmatch_star_spaces ws (js "- " ++ kw ++ tail) _ x); auto.
  reflexivity.
Qed.

(** The sibling pattern rejects every line that does not begin with white
    space: a step header at column 0 is no boundary. *)
Lemma sibling_step_re_rejects line :
  match line with c :: _ => is_space c = false | [] => True end ->
  test_anchored sibling_step_re line = false.
Proof.
  intros H. unfold test_anchored, exec_at, sibling_step_re.
  rewrite rmatch_cat. destruct line as [|c line]; [reflexivity|].
  rewrite rmatch_one_cons. simpl atom_matches. now rewrite H.
Qed.

(** ** Facts about the two tests of the loop *)

Lemma body_line_not_target sub l :
  is_body_line l = true -> negb (is_target_step sub l) = true.
Proof.
  unfold is_body_line, is_target_step. intros H.
  apply andb_prop in H as [H _]. apply andb_prop in H as [_ H].
  rewrite negb_true_iff in *. now rewrite H.
Qed.

Lemma body_line_not_sibling sub l :
  is_body_line l = true -> negb (is_sibling_step sub l) = true.
Proof.
  unfold is_body_line, is_sibling_step. intros H.
  apply andb_prop in H as [_ H]. rewrite negb_true_iff in *. now rewrite H.
Qed.

Lemma body_line_no_LF l : is_body_line l = true -> no_LF l = true.
Proof.
  unfold is_body_line. intros H.
  apply andb_prop in H as [H _]. now apply andb_prop in H as [H _].
Qed.

Lemma forallb_impl {A} (p q : A -> bool) l :
  (forall x, p x = true -> q x = true) -> forallb p l = true -> forallb q l = true.
Proof.
  intros Hpq. induction l as [|x l IH]; simpl; [reflexivity|].
  intros H. apply andb_prop in H as [Hx Hl]. now rewrite (Hpq x Hx), IH.
Qed.

Lemma step_header_no_LF ind name :
  is_indent ind = true -> no_LF name = true -> no_LF (step_header ind name) = true.
Proof.
  intros Hind Hname. apply is_indent_inv in Hind as (_ & _ & Hn).
  unfold step_header. now rewrite !no_LF_app, Hn, Hname.
Qed.

Lemma step_header_target sub ind name :
  is_indent ind = true ->
  is_target_step sub (step_header ind name) = is_target_step sub (js "- name: " ++ name).
Proof.
  intros Hind. apply is_indent_inv in Hind as (_ & Hsp & _).
  unfold is_target_step, step_header. now rewrite trim_spaces.
Qed.

Lemma step_header_sibling sub ind name :
  is_indent ind = true ->
  is_sibling_step sub (step_header ind name)
  = negb (includes (trim (js "- name: " ++ name)) sub).
Proof.
  intros Hind. apply is_indent_inv in Hind as (Hne & Hsp & _).
  unfold is_sibling_step, step_header. rewrite trim_spaces by assumption.
  change (js "- name: " ++ name) with (js "- " ++ js "name:" ++ (js " " ++ name)) at 1.
  rewrite sibling_step_re_accepts; auto. simpl. auto.
Qed.

(** The general shape of one removal, on documents: [pre] holds no target
    header, [hdr] is one, [body] holds no sibling boundary, [next] is one,
    [rest] holds no target header. *)
Lemma removeStepBlock_block sub pre hdr body next rest :
  forallb no_LF (pre ++ hdr :: body ++ next :: rest) = true ->
  forallb (fun l => negb (is_target_step sub l)) pre = true ->
  is_target_step sub hdr = true ->
  forallb (fun l => negb (is_sibling_step sub l)) body = true ->
  is_sibling_step sub next = true ->
  forallb (fun l => negb (is_target_step sub l)) rest = true ->
  removeStepBlock (join_lines (pre ++ hdr :: body ++ next :: rest)) sub
  = join_lines (pre ++ next :: rest).
Proof.
  intros Hlf Hpre Hhdr Hbody Hnext Hrest.
  rewrite removeStepBlock_kept, split_join_lines; auto.
  - now rewrite kept_block.
  - destruct pre; discriminate.
Qed.

Lemma removeStepBlock_last_block sub pre hdr body :
  forallb no_LF (pre ++ hdr :: body) = true ->
  forallb (fun l => negb (is_target_step sub l)) pre = true ->
  is_target_step sub hdr = true ->
  forallb (fun l => negb (is_sibling_step sub l)) body = true ->
  removeStepBlock (join_lines (pre ++ hdr :: body)) sub = join_lines pre.
Proof.
  intros Hlf Hpre Hhdr Hbody.
  rewrite removeStepBlock_kept, split_join_lines; auto.
  - now rewrite kept_last_block.
  - destruct pre; discriminate.
Qed.

Lemma kept_true_nothing sub lines :
  (forall l, In l lines -> is_sibling_step sub l = false) ->
  kept sub true lines = [].
Proof.
  induction lines as [|l lines IH]; intros H; simpl; [reflexivity|].
  rewrite (H l) by now left. apply IH. intros l' Hl'. apply H. now right.
Qed.

Lemma kept_false_takeWhile sub lines :
  (forall l, In l lines -> is_sibling_step sub l = false) ->
  kept sub false lines = takeWhile (fun l => negb (is_target_step sub l)) lines.
Proof.
  induction lines as [|l lines IH]; intros H; simpl; [reflexivity|].
  destruct (is_target_step sub l); simpl.
  - apply kept_true_nothing. intros l' Hl'. apply H. now right.
  - f_equal. apply IH. intros l' Hl'. apply H. now right.
Qed.

(** ** Block removal: the claims *)

(** C5.  A target that occurs in no step header of the document (no line
    that, once trimmed, starts with [- name:] and holds the target) leaves
    the document unchanged, code unit for code unit.  [removeStepBlock] is a
    total function: it yields a document for every input. *)
Theorem removeStepBlock_no_match_identity (yaml stepNameSubstring : jsstring) :
  (forall line, In line (split_lines yaml) ->
                is_target_step stepNameSubstring line = false) ->
  removeStepBlock yaml stepNameSubstring = yaml.
Proof.
  intros H. rewrite removeStepBlock_kept.
  rewrite <- (app_nil_r (split_lines yaml)).
  rewrite kept_false_no_target.
  - now rewrite kept_nil, app_nil_r, join_split_lines.
  - apply forallb_forall. intros l Hl. now rewrite (H l Hl).
Qed.

Lemma removeStepBlock_no_match_identity_witness :
  removeStepBlock (js "steps:
  - name: Build
    run: make") (js "Run migrations")
  = js "steps:
  - name: Build
    run: make".
Proof.
  apply removeStepBlock_no_match_identity.
  intros line Hin. vm_compute in Hin.
  destruct Hin as [<-|[<-|[<-|[]]]]; vm_compute; reflexivity.
Defined.

(** C2.  While skipping, a line that the sibling pattern accepts and that
    holds the target does not end the skipping and is dropped.  Hence, in a
    document whose every step boundary holds the target, the result is the
    lines before the first target header: everything from that header to
    the end of the document is removed. *)
Theorem skipping_continues_on_target_boundary (stepNameSubstring : jsstring) :
  (forall result line,
      test_anchored sibling_step_re line = true ->
      includes (trim line) stepNameSubstring = true ->
      loop_body stepNameSubstring (true, result) line = (true, result))
  /\
  (forall yaml,
      (forall line, In line (split_lines yaml) ->
                    test_anchored sibling_step_re line = true ->
                    includes (trim line) stepNameSubstring = true) ->
      removeStepBlock yaml stepNameSubstring
      = join_lines (takeWhile (fun l => negb (is_target_step stepNameSubstring l))
                      (split_lines yaml))).
Proof.
  split.
  - intros result line Hre Hinc. unfold loop_body, is_sibling_step.
    simpl. now rewrite Hre, Hinc.
  - intros yaml H. rewrite removeStepBlock_kept. f_equal.
    apply kept_false_takeWhile. intros l Hl. unfold is_sibling_step.
    destruct (test_anchored sibling_step_re l) eqn:Hre; [|reflexivity].
    now rewrite (H l Hl Hre).
Qed.

Lemma skipping_continues_on_target_boundary_witness :
  loop_body (js "Deploy") (true, [js "jobs:"]) (js "  - name: Deploy prod")
  = (true, [js "jobs:"])
  /\
  removeStepBlock (js "jobs:
  - name: Deploy staging
    run: a
  - name: Deploy prod
    run: b") (js "Deploy") = js "jobs:".
Proof.
  destruct (skipping_continues_on_target_boundary (js "Deploy")) as [Hstep Hdoc].
  split.
  - apply Hstep; vm_compute; reflexivity.
  - rewrite Hdoc; [vm_compute; reflexivity|].
    intros line Hin Hre. vm_compute in Hin.
    destruct Hin as [<-|[<-|[<-|[<-|[<-|[]]]]]];
      solve [vm_compute; reflexivity | vm_compute in Hre; discriminate].
Defined.

(** C4.  A document of three step blocks named A, B and C, each a header
    line at some indentation followed by body lines: removing B gives the A
    block followed by the C block, verbatim; removing the last step, C,
    gives the A block followed by the B block, with nothing after it. *)
Theorem remove_middle_and_last_step
    (indA indB indC : jsstring) (bodyA bodyB bodyC : list jsstring) :
  is_indent indA = true -> is_indent indB = true -> is_indent indC = true ->
  forallb is_body_line bodyA = true ->
  forallb is_body_line bodyB = true ->
  forallb is_body_line bodyC = true ->
  let blockA := step_header indA (js "A") :: bodyA in
  let blockB := step_header indB (js "B") :: bodyB in
  let blockC := step_header indC (js "C") :: bodyC in
  removeStepBlock (join_lines (blockA ++ blockB ++ blockC)) (js "B")
  = join_lines (blockA ++ blockC)
  /\
  removeStepBlock (join_lines (blockA ++ blockB ++ blockC)) (js "C")
  = join_lines (blockA ++ blockB).
Proof.
  intros HA HB HC HbA HbB HbC blockA blockB blockC.
  assert (Hlf : forallb no_LF (blockA ++ blockB ++ blockC) = true).
  { subst blockA blockB blockC. rewrite !forallb_app. simpl.
    rewrite !step_header_no_LF by (assumption || reflexivity).
    rewrite !(forallb_impl is_body_line no_LF) by (assumption || apply body_line_no_LF).
    reflexivity. }
  split.
  - subst blockA blockB blockC.
    change ((step_header indA (js "A") :: bodyA) ++
            (step_header indB (js "B") :: bodyB) ++ step_header indC (js "C") :: bodyC)
      with ((step_header indA (js "A") :: bodyA) ++
            step_header indB (js "B") :: bodyB ++ step_header indC (js "C") :: bodyC) in *.
    apply removeStepBlock_block; try assumption.
    + simpl. rewrite step_header_target by assumption.
      apply (forallb_impl is_body_line); [apply body_line_not_target | assumption].
    + now rewrite step_header_target.
    + apply (forallb_impl is_body_line); [apply body_line_not_sibling | assumption].
    + now rewrite step_header_sibling.
    + apply (forallb_impl is_body_line); [apply body_line_not_target | assumption].
  - subst blockA blockB blockC.
    rewrite app_assoc in *.
    apply removeStepBlock_last_block; try assumption.
    + rewrite forallb_app. simpl. rewrite !step_header_target by assumption.
      rewrite !(forallb_impl is_body_line (fun l => negb (is_target_step (js "C") l)))
        by (assumption || apply body_line_not_target).
      reflexivity.
    + now rewrite step_header_target.
    + apply (forallb_impl is_body_line); [apply body_line_not_sibling | assumption].
Qed.

Lemma remove_middle_and_last_step_witness :
  removeStepBlock (js "      - name: A
        uses: actions/checkout@v4
      - name: B
        run: |
          migrate

      - name: C
        run: deploy") (js "B")
  = js "      - name: A
        uses: actions/checkout@v4
      - name: C
        run: deploy"
  /\
  removeStepBlock (js "      - name: A
        uses: actions/checkout@v4
      - name: B
        run: |
          migrate

      - name: C
        run: deploy") (js "C")
  = js "      - name: A
        uses: actions/checkout@v4
      - name: B
        run: |
          migrate
".
Proof.
  apply (remove_middle_and_last_step (js "      ") (js "      ") (js "      ")
           [js "        uses: actions/checkout@v4"]
           [js "        run: |"; js "          migrate"; js ""]
           [js "        run: deploy"]); vm_compute; reflexivity.
Defined.

(** C9, as the claim words it, fails: a line of the sibling shape that holds
    the target does not end the skipping.  Here the nested [- run:] item
    names the target, so the scan never leaves the removed step. *)
Lemma sibling_shape_with_target_keeps_skipping :
  test_anchored sibling_step_re (js "        - run: migrate up") = true
  /\ loop_body (js "migrate") (true, []) (js "        - run: migrate up") = (true, [])
  /\ removeStepBlock (js "  - name: migrate
        - run: migrate up
        env: prod") (js "migrate") = js "".
Proof. vm_compute. repeat split; reflexivity. Qed.

(** C9, amended.  The boundary that ends the skipping looks at white space
    only, not at its amount: every line made of white space (one character
    or more), then [- name:], [- uses:] or [- run:], ends the skipping and is
    kept, provided it does not hold the target.  So a list item of that
    shape inside the body of the removed step, however deep, ends the
    removal early, and the body lines after it are kept.  A line that does
    not start with white space, such as a header at column 0, never ends
    the skipping. *)
Theorem sibling_boundary_ignores_indentation (stepNameSubstring : jsstring) :
  (forall ws kw tail result,
      ws <> [] -> Forall (fun c => is_space c = true) ws ->
      In kw [js "name:"; js "uses:"; js "run:"] ->
      includes (trim (ws ++ js "- " ++ kw ++ tail)) stepNameSubstring = false ->
      loop_body stepNameSubstring (true, result) (ws ++ js "- " ++ kw ++ tail)
      = (false, result ++ [ws ++ js "- " ++ kw ++ tail]))
  /\
  (forall pre hdr body ws kw tail remaining,
      let item := ws ++ js "- " ++ kw ++ tail in
      forallb no_LF (pre ++ hdr :: body ++ item :: remaining) = true ->
      forallb (fun l => negb (is_target_step stepNameSubstring l)) pre = true ->
      is_target_step stepNameSubstring hdr = true ->
      forallb (fun l => negb (is_sibling_step stepNameSubstring l)) body = true ->
      ws <> [] -> Forall (fun c => is_space c = true) ws ->
      In kw [js "name:"; js "uses:"; js "run:"] ->
      includes (trim item) stepNameSubstring = false ->
      forallb (fun l => negb (is_target_step stepNameSubstring l)) remaining = true ->
      removeStepBlock (join_lines (pre ++ hdr :: body ++ item :: remaining))
        stepNameSubstring
      = join_lines (pre ++ item :: remaining))
  /\
  (forall line result,
      match line with c :: _ => is_space c = false | [] => True end ->
      loop_body stepNameSubstring (true, result) line = (true, result)).
Proof.
  split; [|split].
  - intros ws kw tail result Hne Hws Hkw Hinc.
    unfold loop_body, is_sibling_step.
    rewrite sibling_step_re_accepts by assumption. now rewrite Hinc.
  - intros pre hdr body ws kw tail remaining item Hlf Hpre Hhdr Hbody Hne Hws Hkw Hinc Hrem.
    apply removeStepBlock_block; try assumption.
    unfold is_sibling_step. subst item.
    now rewrite sibling_step_re_accepts, Hinc.
  - intros line result Hcol. unfold loop_body, is_sibling_step.
    now rewrite sibling_step_re_rejects.
Qed.

Lemma sibling_boundary_ignores_indentation_witness :
  loop_body (js "Run migrations") (true, []) (js "            - run: echo nested")
  = (false, [js "            - run: echo nested"])
  /\
  removeStepBlock (js "      - name: Run migrations
        with:
          script: |
            - run: echo nested
            trailing body line
      - name: Next") (js "Run migrations")
  = js "            - run: echo nested
            trailing body line
      - name: Next"
  /\
  loop_body (js "Run migrations") (true, []) (js "- name: Next") = (true, []).
Proof.
  destruct (sibling_boundary_ignores_indentation (js "Run migrations"))
    as (Hitem & Hdoc & Hcol).
  split; [|split].
  - apply (Hitem (js "            ") (js "run:") (js " echo nested") []).
    + discriminate.
    + repeat constructor.
    + simpl. auto.
    + vm_compute. reflexivity.
  - apply (Hdoc [] (js "      - name: Run migrations")
             [js "        with:"; js "          script: |"]
             (js "            ") (js "run:") (js " echo nested")
             [js "            trailing body line"; js "      - name: Next"]).
    + vm_compute. reflexivity.
    + reflexivity.
    + vm_compute. reflexivity.
    + vm_compute. reflexivity.
    + discriminate.
    + repeat constructor.
    + simpl. auto.
    + vm_compute. reflexivity.
    + vm_compute. reflexivity.
  - apply Hcol. vm_compute. reflexivity.
Defined.

(** ** Placeholder substitution *)

Example replacePlaceholders_sample :
  replacePlaceholders (js "name: {{ APP_NAME }} port: {{PORT}} {{ X }}")
    [(js "APP_NAME", JString (js "demo")); (js "PORT", JNull);
     (js "UNUSED", JString (js "u"))]
  = Returned (js "name: demo port:  {{ X }}").
Proof. vm_compute. reflexivity. Qed.

Example replace_dollar_patterns :
  replace (RLit (js "b")) (js "[$&$$$1]") (js "abc") = js "a[b$$1]c".
Proof. vm_compute. reflexivity. Qed.

(** *** The matcher against the language of a pattern *)

(** A success of the matcher is a match: a prefix in the language, and the
    continuation succeeding on the rest. *)
Lemma rmatch_sound {R} r : forall s (k : jsstring -> option R) x,
  rmatch r s k = Some x ->
  exists m rest, s = m ++ rest /\ matches r m /\ k rest = Some x.
Proof.
  induction r as [|a|a|r1 IH1 r2 IH2|r1 IH1 r2 IH2]; intros s k x H.
  - exists [], s. repeat split; [constructor | exact H].
  - destruct s as [|c s]; [discriminate|]. rewrite rmatch_one_cons in H.
    destruct (atom_matches a c) eqn:Hc; [|discriminate].
    exists [c], s. repeat split; [now constructor | exact H].
  - induction s as [|c s IHs].
    + rewrite rmatch_star_nil in H. exists [], []. repeat split; [|exact H].
      constructor. constructor.
    + rewrite rmatch_star_cons in H.
      destruct (atom_matches a c) eqn:Hc.
      * destruct (rmatch (RStar a) s k) as [y|] eqn:Hs.
        -- injection H as <-. destruct (IHs eq_refl) as (m & rest & -> & Hm & Hk).
           exists (c :: m), rest. repeat split; [|exact Hk].
           inversion Hm; subst. constructor. now constructor.
        -- exists [], (c :: s). repeat split; [|exact H]. constructor. constructor.
      * exists [], (c :: s). repeat split; [|exact H]. constructor. constructor.
  - rewrite rmatch_cat in H.
    destruct (IH1 _ _ _ H) as (m1 & rest1 & -> & Hm1 & H1).
    destruct (IH2 _ _ _ H1) as (m2 & rest2 & -> & Hm2 & H2).
    exists (m1 ++ m2), rest2. rewrite <- app_assoc.
    repeat split; [now constructor | exact H2].
  - simpl in H. destruct (rmatch r1 s k) as [y|] eqn:H1.
    + injection H as <-. destruct (IH1 _ _ _ H1) as (m & rest & -> & Hm & Hk).
      exists m, rest. repeat split; [now apply matches_alt_l | exact Hk].
    + destruct (IH2 _ _ _ H) as (m & rest & -> & Hm & Hk).
      exists m, rest. repeat split; [now apply matches_alt_r | exact Hk].
Qed.

(** A failure of the matcher leaves no match out: the continuation fails
    behind every prefix in the language. *)
Lemma rmatch_complete {R} r : forall s (k : jsstring -> option R),
  rmatch r s k = None ->
  forall m rest, s = m ++ rest -> matches r m -> k rest = None.
Proof.
  induction r as [|a|a|r1 IH1 r2 IH2|r1 IH1 r2 IH2]; intros s k H m rest Hs Hm.
  - inversion Hm; subst. exact H.
  - inversion Hm as [|? c Hc| | | |]; subst. simpl app in H.
    rewrite rmatch_one_cons, Hc in H. exact H.
  - inversion Hm as [| |? ? Hall| | |]; subst. clear Hm.
    induction Hall as [|c m Hc Hall IHm]; simpl app in H.
    + destruct rest as [|c rest]; [exact H|].
      rewrite rmatch_star_cons in H. destruct (atom_matches a c); [|exact H].
      now destruct (rmatch (RStar a) rest k).
    + rewrite rmatch_star_cons, Hc in H.
      destruct (rmatch (RStar a) (m ++ rest) k) eqn:Hs; [discriminate|].
      now apply IHm.
  - inversion Hm as [| | |? ? m1 m2 Hm1 Hm2| |]; subst.
    rewrite rmatch_cat in H. rewrite <- app_assoc in H.
    apply (IH2 (m2 ++ rest) k) with (m := m2); [|reflexivity|assumption].
    exact (IH1 _ _ H m1 (m2 ++ rest) eq_refl Hm1).
  - simpl in H. destruct (rmatch r1 s k) eqn:H1; [discriminate|].
    inversion Hm; subst; [eapply IH1 | eapply IH2]; eauto.
Qed.

Lemma exec_at_Some r s n :
  exec_at r s = Some n ->
  exists m rest, s = m ++ rest /\ matches r m /\ n = length m.
Proof.
  unfold exec_at. intros H.
  destruct (rmatch_sound _ _ _ _ H) as (m & rest & -> & Hm & Hk).
  exists m, rest. repeat split; [assumption|].
  injection Hk as <-. rewrite length_app. lia.
Qed.

Lemma exec_at_None r s :
  exec_at r s = None -> forall m rest, s = m ++ rest -> ~ matches r m.
Proof.
  unfold exec_at. intros H m rest Hs Hm.
  pose proof (rmatch_complete _ _ _ H m rest Hs Hm). discriminate.
Qed.

Lemma matches_RLit l m : matches (RLit l) m <-> m = l.
Proof.
  revert m. induction l as [|c l IH]; intros m; simpl; split; intros H.
  - now inversion H.
  - subst. constructor.
  - inversion H as [| | |? ? m1 m2 H1 H2| |]; subst.
    inversion H1 as [|? d Hd| | | |]; subst. simpl in Hd.
    apply N.eqb_eq in Hd as ->. simpl. f_equal. now apply IH.
  - subst. change (c :: l) with ([c] ++ l). constructor.
    + constructor. simpl. apply N.eqb_refl.
    + now apply IH.
Qed.

Lemma matches_cat_inv r1 r2 m :
  matches (RCat r1 r2) m ->
  exists m1 m2, m = m1 ++ m2 /\ matches r1 m1 /\ matches r2 m2.
Proof. intros H. inversion H; subst. eauto. Qed.

Lemma matches_star_space m :
  matches (RStar ASpace) m <-> Forall (fun c => is_space c = true) m.
Proof. split; intros H; [now inversion H | now constructor]. Qed.

(** The strings the placeholder pattern of a literal key matches are the
    tokens of the key. *)
Lemma placeholder_RegExp_tokens key re m :
  placeholder_RegExp key = Returned re -> (matches re m <-> is_token key m).
Proof.
  unfold placeholder_RegExp. destruct (is_literal_key key);
    [|destruct (unterminated_group key); discriminate].
  intros Heq.
  assert (Hre : re = RCat (RLit (js "{{"))
                       (RCat (RStar ASpace)
                          (RCat (RLit key) (RCat (RStar ASpace) (RLit (js "}}"))))))
    by congruence.
  clear Heq. subst re. unfold is_token. split.
  - intros H.
    apply matches_cat_inv in H as (m1 & r1 & -> & H1 & H).
    apply matches_cat_inv in H as (m2 & r2 & -> & H2 & H).
    apply matches_cat_inv in H as (m3 & r3 & -> & H3 & H).
    apply matches_cat_inv in H as (m4 & r4 & -> & H4 & H5).
    apply matches_RLit in H1, H3, H5. subst.
    apply matches_star_space in H2, H4.
    now exists m2, m4.
  - intros (w1 & w2 & H1 & H2 & ->).
    repeat (constructor; try (now apply matches_RLit)); assumption.
Qed.

Lemma placeholder_RegExp_literal key :
  is_literal_key key = true -> exists re, placeholder_RegExp key = Returned re.
Proof. unfold placeholder_RegExp. intros ->. eauto. Qed.

(** *** The scan of [replace] *)

Lemma replace_from_nil re v before skip :
  replace_from re v before skip [] =
  match skip, exec_at re [] with
  | O, Some _ => GetSubstitution [] before [] v
  | _, _ => []
  end.
Proof. reflexivity. Qed.

Lemma replace_from_cons_skip re v before k c s :
  replace_from re v before (S k) (c :: s) = replace_from re v (before ++ [c]) k s.
Proof. reflexivity. Qed.

Lemma replace_from_cons_try re v before c s :
  replace_from re v before O (c :: s) =
  match exec_at re (c :: s) with
  | Some (S k) =>
      GetSubstitution (firstn (S k) (c :: s)) before (skipn (S k) (c :: s)) v
      ++ replace_from re v (before ++ [c]) k s
  | Some O =>
      GetSubstitution [] before (c :: s) v
      ++ c :: replace_from re v (before ++ [c]) O s
  | None => c :: replace_from re v (before ++ [c]) O s
  end.
Proof. reflexivity. Qed.

(** Passing over the rest of a match. *)
Lemma replace_from_skip re v m : forall before post,
  replace_from re v before (length m) (m ++ post)
  = replace_from re v (before ++ m) O post.
Proof.
  induction m as [|c m IH]; intros before post.
  - now rewrite app_nil_r.
  - simpl length. simpl app. rewrite replace_from_cons_skip, IH.
    now rewrite <- app_assoc.
Qed.

(** A match at the current position is replaced and passed over. *)
Lemma replace_from_match re v before m post :
  m <> [] -> exec_at re (m ++ post) = Some (length m) ->
  replace_from re v before O (m ++ post)
  = GetSubstitution m before post v ++ replace_from re v (before ++ m) O post.
Proof.
  intros Hm H. destruct m as [|c m]; [congruence|].
  simpl app in *. rewrite replace_from_cons_try, H. simpl length. cbv iota beta.
  change (firstn (S (length m)) (c :: m ++ post)) with (c :: firstn (length m) (m ++ post)).
  change (skipn (S (length m)) (c :: m ++ post)) with (skipn (length m) (m ++ post)).
  rewrite firstn_app, Nat.sub_diag, firstn_all, firstn_O, app_nil_r.
  rewrite skipn_app, Nat.sub_diag, skipn_all, skipn_O. simpl app.
  rewrite replace_from_skip. now rewrite <- app_assoc.
Qed.

Lemma replace_from_no_match re v before c s :
  exec_at re (c :: s) = None ->
  replace_from re v before O (c :: s) = c :: replace_from re v (before ++ [c]) O s.
Proof. intros H. now rewrite replace_from_cons_try, H. Qed.

(** *** Tokens and the placeholder pattern *)

Lemma token_length key m : is_token key m -> (4 <= length m)%nat.
Proof.
  intros (w1 & w2 & _ & _ & ->). rewrite !length_app.
  change (length (js "{{")) with 2%nat. change (length (js "}}")) with 2%nat. lia.
Qed.

Lemma exec_at_token key re s n :
  placeholder_RegExp key = Returned re -> exec_at re s = Some n ->
  exists m post, is_token key m /\ s = m ++ post /\ n = length m.
Proof.
  intros Hre H. destruct (exec_at_Some _ _ _ H) as (m & post & -> & Hm & ->).
  exists m, post. repeat split. now apply (placeholder_RegExp_tokens key re).
Qed.

Lemma exec_at_no_token key re s :
  placeholder_RegExp key = Returned re -> exec_at re s = None ->
  ~ token_at_head key s.
Proof.
  intros Hre H (m & post & Hm & ->).
  apply (exec_at_None _ _ H m post eq_refl).
  now apply (placeholder_RegExp_tokens key re).
Qed.

Lemma GetSubstitution_no_dollar matched before after v :
  no_dollar v = true -> GetSubstitution matched before after v = v.
Proof.
  unfold no_dollar. induction v as [|c v IH]; intros H; [reflexivity|].
  simpl in H. rewrite negb_true_iff in H. apply orb_false_elim in H as [Hc Hv].
  simpl. rewrite N.eqb_sym, Hc. f_equal. apply IH. now rewrite Hv.
Qed.

(** The scan replaces every token it meets by the value and copies the
    rest, for a value without dollar signs. *)
Lemma replace_from_tokens_replaced key re v :
  placeholder_RegExp key = Returned re -> no_dollar v = true ->
  forall n s before, (length s <= n)%nat ->
    tokens_replaced key v s (replace_from re v before O s).
Proof.
  intros Hre Hv. induction n as [|n IH]; intros s before Hlen.
  - destruct s; [|simpl in Hlen; lia].
    rewrite replace_from_nil.
    destruct (exec_at re []) as [k|] eqn:He; [|constructor].
    destruct (exec_at_token _ _ _ _ Hre He) as (m & post & Hm & Hs & _).
    apply token_length in Hm. symmetry in Hs. apply app_eq_nil in Hs as [-> _].
    simpl in Hm. lia.
  - destruct s as [|c s].
    + apply (IH [] before). simpl. lia.
    + destruct (exec_at re (c :: s)) as [k|] eqn:He.
      * destruct (exec_at_token _ _ _ _ Hre He) as (m & post & Hm & Hs & ->).
        pose proof (token_length _ _ Hm) as Hl.
        rewrite Hs in *. rewrite replace_from_match; auto.
        -- rewrite GetSubstitution_no_dollar by assumption.
           constructor; [assumption|]. apply IH.
           rewrite length_app in Hlen. lia.
        -- intros ->. simpl in Hl. lia.
      * rewrite replace_from_no_match by assumption.
        constructor; [now apply (exec_at_no_token key re)|].
        apply IH. simpl in Hlen. lia.
Qed.

(** Where no token of the key occurs, the text is copied whole. *)
Lemma replace_from_no_token key re v :
  placeholder_RegExp key = Returned re ->
  forall s before,
    (forall pre suf, s = pre ++ suf -> ~ token_at_head key suf) ->
    replace_from re v before O s = s.
Proof.
  intros Hre. induction s as [|c s IH]; intros before H.
  - rewrite replace_from_nil.
    destruct (exec_at re []) as [k|] eqn:He; [|reflexivity].
    destruct (exec_at_token _ _ _ _ Hre He) as (m & post & Hm & Hs & _).
    exfalso. apply (H [] [] eq_refl). now exists m, post.
  - destruct (exec_at re (c :: s)) as [k|] eqn:He.
    + destruct (exec_at_token _ _ _ _ Hre He) as (m & post & Hm & Hs & _).
      exfalso. apply (H [] (c :: s) eq_refl). now exists m, post.
    + rewrite replace_from_no_match by assumption. f_equal.
      apply IH. intros pre suf ->. apply (H (c :: pre) suf). reflexivity.
Qed.

Lemma replace_no_token key re v s :
  placeholder_RegExp key = Returned re -> ~ token_occurs key s -> replace re v s = s.
Proof.
  intros Hre H. unfold replace. apply (replace_from_no_token key); [assumption|].
  intros pre suf -> (m & post & Hm & ->). apply H. now exists pre, m, post.
Qed.

(** *** The loop over the entries *)

Lemma replacePlaceholders_cons str key val rest re :
  placeholder_RegExp key = Returned re ->
  replacePlaceholders str ((key, val) :: rest)
  = replacePlaceholders (replace re (or_empty val) str) rest.
Proof. intros H. simpl. now rewrite H. Qed.

Lemma replacePlaceholders_total vars : forall str,
  literal_keys vars -> exists out, replacePlaceholders str vars = Returned out.
Proof.
  induction vars as [|[key val] rest IH]; intros str H.
  - now exists str.
  - inversion H as [|? ? Hk Hrest]; subst. simpl in Hk.
    destruct (placeholder_RegExp_literal key Hk) as [re Hre].
    rewrite (replacePlaceholders_cons _ _ _ _ re Hre). now apply IH.
Qed.

Lemma replacePlaceholders_app done rest : forall str,
  replacePlaceholders str (done ++ rest)
  = match replacePlaceholders str done with
    | Returned mid => replacePlaceholders mid rest
    | SyntaxError => SyntaxError
    | NotDescribed => NotDescribed
    end.
Proof.
  induction done as [|[key val] done IH]; intros str; [reflexivity|].
  simpl. destruct (placeholder_RegExp key); [apply IH | reflexivity | reflexivity].
Qed.

Lemma literal_keys_app a b : literal_keys (a ++ b) -> literal_keys a /\ literal_keys b.
Proof. apply Forall_app. Qed.

Lemma replacePlaceholders_unused vars : forall str,
  literal_keys vars ->
  (forall key, In key (List.map fst vars) -> ~ token_occurs key str) ->
  replacePlaceholders str vars = Returned str.
Proof.
  induction vars as [|[key val] rest IH]; intros str H Hno; [reflexivity|].
  inversion H as [|? ? Hk Hrest]; subst. simpl in Hk.
  destruct (placeholder_RegExp_literal key Hk) as [re Hre].
  rewrite (replacePlaceholders_cons _ _ _ _ re Hre).
  rewrite (replace_no_token key) by (assumption || (apply Hno; now left)).
  apply IH; [assumption|]. intros k Hin. apply Hno. now right.
Qed.

Lemma unterminated_group_not_literal key :
  unterminated_group key = true -> is_literal_key key = false.
Proof.
  unfold unterminated_group, is_literal_key. intros H.
  apply andb_true_iff in H as [H _].
  induction key as [|c key IH]; [discriminate H|].
  simpl in H |- *. apply orb_true_iff in H as [H|H].
  - apply N.eqb_eq in H. subst c. reflexivity.
  - rewrite (IH H). apply andb_false_r.
Qed.

(** The constructor throws for a key that leaves a group open, and the call
    of [replacePlaceholders] ends there, whatever the text and the keys
    behind. *)
Lemma replacePlaceholders_unterminated_group done key val rest str :
  literal_keys done -> unterminated_group key = true ->
  replacePlaceholders str (done ++ (key, val) :: rest) = SyntaxError.
Proof.
  intros Hdone Hkey. rewrite replacePlaceholders_app.
  destruct (replacePlaceholders_total done str Hdone) as [mid ->].
  simpl. unfold placeholder_RegExp.
  now rewrite (unterminated_group_not_literal key Hkey), Hkey.
Qed.

(** C7, as the claim words it, fails: substitution is not total over the
    variable maps.  The key is pasted into the pattern text unescaped, so a
    key that is [(] makes [new RegExp] throw a [SyntaxError], also when the
    text holds no token at all and the value is absent. *)
Lemma replacePlaceholders_throws_for_open_parenthesis :
  replacePlaceholders (js "port: 80") [(js "(", JUndefined)] = SyntaxError
  /\ replacePlaceholders (js "port: {{PORT}}")
       [(js "PORT", JString (js "80")); (js "(", JString (js "v"))] = SyntaxError.
Proof. vm_compute. split; reflexivity. Qed.

(** Among plain keys, too, a token of a key with an absent value need not
    come out empty: an earlier key may have taken it.  [{{B }}] is a token
    of the key [B] and of the key [B ], and the key [B ] has its turn
    first. *)
Example replacePlaceholders_earlier_key_takes_token :
  is_literal_key (js "B ") = true
  /\ replacePlaceholders (js "a{{B }}c") [(js "B ", JString (js "x")); (js "B", JNull)]
     = Returned (js "axc")
  /\ replacePlaceholders (js "a{{B }}c") [(js "B", JNull)] = Returned (js "ac").
Proof. vm_compute. repeat split; reflexivity. Qed.

(** C7, amended.  For a variable map whose keys are plain names (no
    character with a meaning in a pattern), substitution always returns a
    text.  When the turn of a key with an absent value ([undefined] or
    [null]) comes, every token of that key in the text as it then stands is
    replaced by the empty string; that text is the template itself when no
    earlier key has a token in the template.  A key no token of which occurs
    in the text leaves the text as it is at its turn; and a map none of
    whose keys occurs in the template returns the template unchanged. *)
Theorem replacePlaceholders_total_absent_unused
    (str : jsstring) (vars : list (jsstring * jsval)) :
  literal_keys vars ->
  (exists out, replacePlaceholders str vars = Returned out)
  /\
  (forall done key val rest,
      vars = done ++ (key, val) :: rest ->
      val = JUndefined \/ val = JNull ->
      exists mid mid',
        replacePlaceholders str done = Returned mid /\
        tokens_replaced key [] mid mid' /\
        replacePlaceholders str vars = replacePlaceholders mid' rest)
  /\
  (forall done key val rest,
      vars = done ++ (key, val) :: rest ->
      val = JUndefined \/ val = JNull ->
      (forall k, In k (List.map fst done) -> ~ token_occurs k str) ->
      exists out',
        tokens_replaced key [] str out' /\
        replacePlaceholders str vars = replacePlaceholders out' rest)
  /\
  (forall done key val rest,
      vars = done ++ (key, val) :: rest ->
      exists mid,
        replacePlaceholders str done = Returned mid /\
        (~ token_occurs key mid ->
         replacePlaceholders str vars = replacePlaceholders mid rest))
  /\
  ((forall key, In key (List.map fst vars) -> ~ token_occurs key str) ->
   replacePlaceholders str vars = Returned str).
Proof.
  intros Hlit. split; [|split; [|split; [|split]]].
  - now apply replacePlaceholders_total.
  - intros done key val rest -> Habsent.
    apply literal_keys_app in Hlit as [Hdone Hrest].
    destruct (replacePlaceholders_total done str Hdone) as [mid Hmid].
    inversion Hrest as [|? ? Hk _]; subst. simpl in Hk.
    destruct (placeholder_RegExp_literal key Hk) as [re Hre].
    exists mid, (replace re [] mid). split; [assumption|]. split.
    + apply (replace_from_tokens_replaced key re [] Hre eq_refl (length mid)). lia.
    + rewrite replacePlaceholders_app, Hmid.
      rewrite (replacePlaceholders_cons _ _ _ _ re Hre).
      now destruct Habsent as [-> | ->].
  - intros done key val rest -> Habsent Hunused.
    apply literal_keys_app in Hlit as [Hdone Hrest].
    inversion Hrest as [|? ? Hk _]; subst. simpl in Hk.
    destruct (placeholder_RegExp_literal key Hk) as [re Hre].
    exists (replace re [] str). split.
    + apply (replace_from_tokens_replaced key re [] Hre eq_refl (length str)). lia.
    + rewrite replacePlaceholders_app.
      rewrite (replacePlaceholders_unused done str Hdone Hunused).
      rewrite (replacePlaceholders_cons _ _ _ _ re Hre).
      now destruct Habsent as [-> | ->].
  - intros done key val rest ->.
    apply literal_keys_app in Hlit as [Hdone Hrest].
    destruct (replacePlaceholders_total done str Hdone) as [mid Hmid].
    inversion Hrest as [|? ? Hk _]; subst. simpl in Hk.
    destruct (placeholder_RegExp_literal key Hk) as [re Hre].
    exists mid. split; [assumption|]. intros Hno.
    rewrite replacePlaceholders_app, Hmid.
    rewrite (replacePlaceholders_cons _ _ _ _ re Hre).
    now rewrite (replace_no_token key).
  - now apply replacePlaceholders_unused.
Qed.

Lemma replacePlaceholders_total_absent_unused_witness :
  exists out',
    tokens_replaced (js "PORT") [] (js "port: {{ PORT }}, tag: {{TAG}}") out' /\
    replacePlaceholders (js "port: {{ PORT }}, tag: {{TAG}}")
      [(js "PORT", JUndefined); (js "UNUSED", JString (js "u"))]
    = replacePlaceholders out' [(js "UNUSED", JString (js "u"))].
Proof.
  assert (Hlit : literal_keys [(js "PORT", JUndefined); (js "UNUSED", JString (js "u"))])
    by (repeat constructor).
  apply (proj1 (proj2 (proj2
           (replacePlaceholders_total_absent_unused
              (js "port: {{ PORT }}, tag: {{TAG}}")
              [(js "PORT", JUndefined); (js "UNUSED", JString (js "u"))] Hlit)))
           [] (js "PORT") JUndefined [(js "UNUSED", JString (js "u"))]).
  - reflexivity.
  - now left.
  - intros k [].
Defined.

(** *** No collision between keys *)


Lemma js_braces : js "{{" = [123; 123] /\ js "}}" = [125; 125] /\ js "FOO" = [70; 79; 79].
Proof. repeat split. Qed.

Lemma literal_not_brace c : is_syntax_char c = false -> is_brace c = false.
Proof.
  unfold is_syntax_char, is_brace. intros H.
  destruct (N.eqb_spec c 123) as [->|?]; [discriminate H|].
  destruct (N.eqb_spec c 125) as [->|?]; [discriminate H|]. reflexivity.
Qed.

Lemma space_not_brace c : is_space c = true -> is_brace c = false.
Proof.
  unfold is_brace. intros H.
  destruct (N.eqb_spec c 123) as [->|?]; [discriminate H|].
  destruct (N.eqb_spec c 125) as [->|?]; [discriminate H|]. reflexivity.
Qed.

(** Between its braces a token of a plain key holds no brace. *)
Lemma token_inner key m :
  is_literal_key key = true -> is_token key m ->
  exists w1 w2,
    Forall (fun c => is_space c = true) w1 /\
    Forall (fun c => is_space c = true) w2 /\
    m = [123; 123] ++ (w1 ++ key ++ w2) ++ [125; 125] /\
    forallb (fun c => negb (is_brace c)) (w1 ++ key ++ w2) = true.
Proof.
  intros Hk (w1 & w2 & H1 & H2 & ->). exists w1, w2.
  repeat split; try assumption.
  - destruct js_braces as (-> & -> & _). now rewrite <- !app_assoc.
  - rewrite !forallb_app. unfold is_literal_key in Hk.
    assert (Hsp : forall w, Forall (fun c => is_space c = true) w ->
                            forallb (fun c => negb (is_brace c)) w = true).
    { induction 1 as [|c w Hc _ IH]; simpl; [reflexivity|].
      now rewrite (space_not_brace c Hc), IH. }
    rewrite (Hsp w1 H1), (Hsp w2 H2), andb_true_r. simpl.
    apply (forallb_impl (fun c => negb (is_syntax_char c))); [|assumption].
    intros c Hc. rewrite negb_true_iff in *. now apply literal_not_brace.
Qed.








Lemma exec_at_needs_braces key re s :
  placeholder_RegExp key = Returned re ->
  match s with 123 :: 123 :: _ => False | _ => True end ->
  exec_at re s = None.
Proof.
  intros Hre Hs. destruct (exec_at re s) as [n|] eqn:H; [|reflexivity].
  destruct (exec_at_token _ _ _ _ Hre H) as (m & rest & (w1 & w2 & _ & _ & ->) & -> & _).
  destruct js_braces as (Hb & _). rewrite Hb in Hs. simpl in Hs. contradiction.
Qed.





Example no_partial_key_collision :
  replacePlaceholders (js "{{FOO}} {{FOOBAR}} {{ FOOBAR }}")
    [(js "FOOBAR", JString (js "x"))] = Returned (js "{{FOO}} x x")
  /\ replacePlaceholders (js "{{FOO}} {{FOOBAR}}")
       [(js "FOO", JString (js "y"))] = Returned (js "y {{FOOBAR}}").
Proof. vm_compute. split; reflexivity. Qed.

(** ** The project identifier *)

Lemma not_slug_atom c :
  atom_matches (ANotIn [(97, 122); (48, 57); (45, 45); (95, 95)]) c
  = negb (is_slug_char c).
Proof.
  unfold atom_matches, is_slug_char. simpl. f_equal. rewrite orb_false_r.
  assert (H : forall n, (n <=? c) && (c <=? n) = (c =? n)).
  { intros n. destruct (N.eqb_spec c n) as [->|Hne].
    - now rewrite N.leb_refl.
    - destruct (N.leb_spec n c), (N.leb_spec c n); try reflexivity. lia. }
  now rewrite !H, !orb_assoc.
Qed.

Lemma exec_at_not_slug c s :
  exec_at not_slug_re (c :: s) = if is_slug_char c then None else Some 1%nat.
Proof.
  unfold exec_at, not_slug_re. rewrite rmatch_one_cons, not_slug_atom.
  destruct (is_slug_char c); simpl; [reflexivity|].
  f_equal. lia.
Qed.

(** Replacing every code unit outside [a-z0-9-_] by nothing keeps exactly
    the code units inside. *)
Lemma replace_not_slug s :
  replace not_slug_re [] s = List.filter is_slug_char s.
Proof.
  unfold replace. generalize (@nil N) at 2 as before.
  induction s as [|c s IH]; intros before; [reflexivity|].
  rewrite replace_from_cons_try, exec_at_not_slug. simpl.
  destruct (is_slug_char c); simpl; now rewrite IH.
Qed.

Lemma filter_slug_all s : forallb is_slug_char (List.filter is_slug_char s) = true.
Proof.
  induction s as [|c s IH]; [reflexivity|]. simpl.
  destruct (is_slug_char c) eqn:Hc; simpl; [now rewrite Hc|assumption].
Qed.

(** In the current variant both names are the project name in lower case
    without the code units outside [a-z0-9-_]. *)
Lemma interactive_names_sanitised toLowerCase a p :
  let slug := List.filter is_slug_char (toLowerCase (projectName a)) in
  get_var (js "APP_NAME") (Interactive.vars toLowerCase a p) = Some (JString slug)
  /\ get_var (js "IMAGE_NAME") (Interactive.vars toLowerCase a p) = Some (JString slug)
  /\ forallb is_slug_char slug = true.
Proof.
  intros slug. unfold Interactive.vars, Interactive.imageName.
  rewrite replace_not_slug. repeat split. apply filter_slug_all.
Qed.

Lemma legacy_image_name_sanitised toLowerCase a p :
  get_var (js "IMAGE_NAME") (Legacy.vars toLowerCase a p)
  = Some (JString (List.filter is_slug_char (toLowerCase (projectName a)))).
Proof. unfold Legacy.vars. now rewrite replace_not_slug. Qed.

(** C8 fails in the older variant: its APP_NAME is the project name as
    typed.  For the name "My App" it holds a capital letter and a space. *)
Theorem legacy_APP_NAME_as_typed toLowerCase p :
  get_var (js "APP_NAME") (Legacy.vars toLowerCase sample_answers p)
  = Some (JString (js "My App"))
  /\ forallb is_slug_char (js "My App") = false
  /\ get_var (js "APP_NAME") (Interactive.vars ascii_toLowerCase sample_answers p)
     = Some (JString (js "myapp")).
Proof. repeat split. Qed.

(** ** Runs: how computations end *)

Lemma bind_Done {W A B} (c : io W A) (f : A -> io W B) w b w2 :
  bind c f w = (Done b, w2) ->
  exists a w1, c w = (Done a, w1) /\ f a w1 = (Done b, w2).
Proof. unfold bind. destruct (c w) as [[a|e] w1]; [eauto | discriminate]. Qed.

Lemma readTemplate_Done relPath w text w' :
  readTemplate relPath w = (Done text, w') ->
  templates w !! relPath = Some text /\ w' = w.
Proof.
  unfold readTemplate. destruct (templates w !! relPath); [|discriminate].
  now intros [= -> ->].
Qed.

Lemma render_Done str vars w out w' :
  render str vars w = (Done out, w') ->
  replacePlaceholders str vars = Returned out /\ w' = w.
Proof.
  unfold render. destruct (replacePlaceholders str vars); [|discriminate|discriminate].
  now intros [= -> ->].
Qed.

Lemma writeFile_Done target content w u w' :
  writeFile target content w = (Done u, w') ->
  (target ∉ denied w) /\ w' = set_files w (<[target := content]> (files w)).
Proof.
  unfold writeFile. destruct (decide (target ∈ denied w)); [discriminate|].
  now intros [= _ <-].
Qed.

Lemma writeRendered_Done target tplPath vars w u w' :
  writeRendered target tplPath vars w = (Done u, w') ->
  exists tpl out,
    templates w !! tplPath = Some tpl /\
    replacePlaceholders tpl vars = Returned out /\
    w' = set_files w (<[target := out]> (files w)).
Proof.
  unfold writeRendered. intros H.
  apply bind_Done in H as (tpl & w1 & H1 & H).
  apply bind_Done in H as (out & w2 & H2 & H).
  apply readTemplate_Done in H1 as [Htpl ->].
  apply render_Done in H2 as [Hout ->].
  apply writeFile_Done in H as [_ ->]. eauto.
Qed.

(** ** Frames *)

#[local] Instance same_setup_frame : Frame same_setup.
Proof.
  refine {| frame_ok := fun _ => True |}.
  - now split.
  - intros w1 w2 w3 [H1 H2] [H3 H4]. split; congruence.
  - now split.
  - now split.
Defined.

#[local] Instance same_at_frame p : Frame (same_at p).
Proof.
  refine {| frame_ok := fun t => p <> t |}.
  - reflexivity.
  - unfold same_at. congruence.
  - intros w t c Hne. unfold same_at. simpl. now rewrite lookup_insert_ne.
  - reflexivity.
Defined.

#[local] Instance kept_at_frame p : Frame (kept_at p).
Proof.
  refine {| frame_ok := fun t => p <> t |}.
  - now intros w c.
  - unfold kept_at. eauto.
  - intros w t c Hne c0. simpl. now rewrite lookup_insert_ne.
  - now intros w x c.
Defined.

Section Stable.

Context {R : world -> world -> Prop} `{!Frame R}.

Lemma stable_ret {A} (a : A) : stable R (ret a).
Proof. intros w r w' [= _ <-]. apply frame_refl. Qed.

Lemma stable_throw {A} e : stable R (throw (A:=A) e).
Proof. intros w r w' [= _ <-]. apply frame_refl. Qed.

Lemma stable_bind {A B} (c : io world A) (f : A -> io world B) :
  stable R c -> (forall a, stable R (f a)) -> stable R (bind c f).
Proof.
  intros Hc Hf w r w' H. unfold bind in H.
  destruct (c w) as [[a|e] w1] eqn:Hcw.
  - eapply frame_trans; [exact (Hc _ _ _ Hcw) | exact (Hf a _ _ _ H)].
  - injection H as _ <-. exact (Hc _ _ _ Hcw).
Qed.

Lemma stable_readTemplate relPath : stable R (readTemplate relPath).
Proof.
  intros w r w'. unfold readTemplate.
  destruct (templates w !! relPath); intros [= _ <-]; apply frame_refl.
Qed.

Lemma stable_render str vars : stable R (render str vars).
Proof.
  unfold render. destruct (replacePlaceholders str vars);
    [apply stable_ret | apply stable_throw | apply stable_throw].
Qed.

Lemma stable_existsSync p : stable R (existsSync p).
Proof. intros w r w' [= _ <-]. apply frame_refl. Qed.

Lemma stable_makeExecutable p : stable R (makeExecutable p).
Proof.
  intros w r w'. unfold makeExecutable.
  destruct (_ && _); intros [= _ <-]; [apply frame_exec | apply frame_refl].
Qed.

Lemma stable_writeFile target content :
  frame_ok target -> stable R (writeFile target content).
Proof.
  intros Hok w r w'. unfold writeFile.
  destruct (decide (target ∈ denied w)); intros [= _ <-];
    [apply frame_refl | now apply frame_write].
Qed.

Lemma stable_writeRendered target tplPath vars :
  frame_ok target -> stable R (writeRendered target tplPath vars).
Proof.
  intros Hok. unfold writeRendered.
  apply stable_bind; [apply stable_readTemplate|]. intros tpl.
  apply stable_bind; [apply stable_render|]. intros out.
  now apply stable_writeFile.
Qed.

Lemma stable_if {A} (b : bool) (c1 c2 : io world A) :
  stable R c1 -> stable R c2 -> stable R (if b then c1 else c2).
Proof. now destruct b. Qed.

End Stable.

(** One step of a frame proof; the side conditions left are the
    inequalities between the path watched and the paths written. *)
Ltac stable_step :=
  lazymatch goal with
  | |- stable _ (ret _) => apply stable_ret
  | |- stable _ (readTemplate _) => apply stable_readTemplate
  | |- stable _ (render _ _) => apply stable_render
  | |- stable _ (existsSync _) => apply stable_existsSync
  | |- stable _ (makeExecutable _) => apply stable_makeExecutable
  | |- stable _ (writeRendered _ _ _) => apply stable_writeRendered
  | |- stable _ (writeFile _ _) => apply stable_writeFile
  | |- stable _ (if _ then _ else _) => apply stable_if
  | |- stable _ (bind _ _) => apply stable_bind; [|intros ?]
  end.

Ltac path_ok := simpl; first [exact I | discriminate].

Ltac stable_run := repeat stable_step; try path_ok.

(** ** Runs that complete *)

Section Completes.

Variable T : gmap string jsstring.

Lemma completes_ret {A} (a : A) : completes T (ret a).
Proof. intros w HT Hd. exists a, w. auto. Qed.

Lemma completes_bind {A B} (c : io world A) (f : A -> io world B) :
  completes T c -> (forall a, completes T (f a)) -> completes T (bind c f).
Proof.
  intros Hc Hf w HT Hd. destruct (Hc w HT Hd) as (a & w1 & H1 & HT1 & Hd1).
  destruct (Hf a w1 HT1 Hd1) as (b & w2 & H2 & HT2 & Hd2).
  exists b, w2. unfold bind. rewrite H1. auto.
Qed.

Lemma completes_readTemplate relPath :
  is_Some (T !! relPath) -> completes T (readTemplate relPath).
Proof.
  intros [text Htext] w HT Hd. exists text, w. unfold readTemplate.
  rewrite HT, Htext. auto.
Qed.

Lemma completes_render str vars :
  literal_keys vars -> completes T (render str vars).
Proof.
  intros Hlit w HT Hd. unfold render.
  destruct (replacePlaceholders_total vars str Hlit) as [out ->].
  exists out, w. auto.
Qed.

Lemma completes_writeFile target content : completes T (writeFile target content).
Proof.
  intros w HT Hd. unfold writeFile.
  destruct (decide (target ∈ denied w)) as [Hin|_].
  - rewrite Hd in Hin. now apply not_elem_of_empty in Hin.
  - eexists tt, _. split; [reflexivity|]. simpl. auto.
Qed.

Lemma completes_existsSync p : completes T (existsSync p).
Proof. intros w HT Hd. eexists _, w. unfold existsSync. auto. Qed.

Lemma completes_makeExecutable p : completes T (makeExecutable p).
Proof.
  intros w HT Hd. unfold makeExecutable.
  destruct (_ && _); eexists tt, _; (split; [reflexivity|]); simpl; auto.
Qed.

Lemma completes_writeRendered target tplPath vars :
  is_Some (T !! tplPath) -> literal_keys vars ->
  completes T (writeRendered target tplPath vars).
Proof.
  intros Htpl Hlit. unfold writeRendered.
  apply completes_bind; [now apply completes_readTemplate|]. intros tpl.
  apply completes_bind; [now apply completes_render|]. intros out.
  apply completes_writeFile.
Qed.

Lemma completes_if {A} (b : bool) (c1 c2 : io world A) :
  completes T c1 -> completes T c2 -> completes T (if b then c1 else c2).
Proof. now destruct b. Qed.

End Completes.

Ltac completes_step :=
  lazymatch goal with
  | |- completes _ (ret _) => apply completes_ret
  | |- completes _ (readTemplate _) => apply completes_readTemplate
  | |- completes _ (render _ _) => apply completes_render
  | |- completes _ (existsSync _) => apply completes_existsSync
  | |- completes _ (makeExecutable _) => apply completes_makeExecutable
  | |- completes _ (writeRendered _ _ _) => apply completes_writeRendered
  | |- completes _ (writeFile _ _) => apply completes_writeFile
  | |- completes _ (if _ then _ else _) => apply completes_if
  | |- completes _ (bind _ _) => apply completes_bind; [|intros ?]
  end.

Lemma interactive_vars_literal toLowerCase a p :
  literal_keys (Interactive.vars toLowerCase a p).
Proof. repeat constructor. Qed.

Lemma legacy_vars_literal toLowerCase a p :
  literal_keys (Legacy.vars toLowerCase a p).
Proof. repeat constructor. Qed.

(** With its templates in place and nothing unwritable, a run of the
    current variant completes. *)
Lemma interactive_main_completes toLowerCase a p w :
  (forall relPath, In relPath (interactive_templates_read a) ->
                   is_Some (templates w !! relPath)) ->
  denied w = ∅ ->
  exists w', Interactive.main toLowerCase a p w = (Done tt, w').
Proof.
  intros Hall Hd.
  assert (H : completes (templates w) (Interactive.main toLowerCase a p)).
  { unfold Interactive.main, Interactive.script, Interactive.dockerFiles.
    unfold interactive_templates_read in Hall.
    destruct (mode a), (useDocker a); repeat completes_step;
      first [ apply interactive_vars_literal | apply Hall; simpl; auto 20 ]. }
  destruct (H w eq_refl Hd) as ([] & w' & Hrun & _). eauto.
Qed.

Lemma legacy_main_completes toLowerCase a p w :
  (forall relPath, In relPath (legacy_templates_read a) ->
                   is_Some (templates w !! relPath)) ->
  denied w = ∅ ->
  exists w', Legacy.main toLowerCase a p w = (Done tt, w').
Proof.
  intros Hall Hd.
  assert (H : completes (templates w) (Legacy.main toLowerCase a p)).
  { unfold Legacy.main. unfold legacy_templates_read in Hall.
    destruct (useDocker a); repeat completes_step;
      first [ apply legacy_vars_literal | apply Hall; simpl; auto 20 ]. }
  destruct (H w eq_refl Hd) as ([] & w' & Hrun & _). eauto.
Qed.

(** ** The deploy workflow *)

Lemma MIGRATION_COMMAND_empty a :
  mode a = production -> trim (migrationCommand a) = [] ->
  Interactive.MIGRATION_COMMAND a = [].
Proof.
  intros Hmode Hempty.
  unfold Interactive.MIGRATION_COMMAND, Interactive.asked_migrationCommand.
  now rewrite Hmode.
Qed.

(** What a completed run in production mode with an empty migration
    command leaves in the deploy workflow. *)
Lemma deploy_yml_of_completed_run
    (toLowerCase : jsstring -> jsstring) (a : answers) (p : preset) (w w' : world) :
  mode a = production ->
  trim (migrationCommand a) = [] ->
  Interactive.main toLowerCase a p w = (Done tt, w') ->
  exists deployTpl out,
    templates w !! "workflows/deploy.yml.template" = Some deployTpl /\
    replacePlaceholders (removeStepBlock deployTpl (js "Run migrations"))
      (Interactive.vars toLowerCase a p) = Returned out /\
    files w' !! ".github/workflows/deploy.yml" = Some out.
Proof.
  intros Hmode Hempty H. unfold Interactive.main in H. rewrite Hmode in H.
  rewrite (MIGRATION_COMMAND_empty a Hmode Hempty) in H. simpl is_empty in H.
  apply bind_Done in H as (u1 & w1 & H1 & H).
  apply bind_Done in H as (u2 & w2 & H2 & H).
  apply bind_Done in H as (u3 & w3 & H3 & H).
  pose proof (stable_writeRendered (R:=same_setup) _ _ _ I _ _ _ H1) as [T1 _].
  pose proof (stable_writeRendered (R:=same_setup) _ _ _ I _ _ _ H2) as [T2 _].
  apply bind_Done in H3 as (deployTpl & w2' & Hread & H3).
  apply bind_Done in H3 as (out & w2'' & Hrender & Hwrite).
  apply readTemplate_Done in Hread as [Hread ->].
  apply render_Done in Hrender as [Hrender ->].
  apply writeFile_Done in Hwrite as [_ ->].
  exists deployTpl, out. split; [congruence|]. split; [assumption|].
  match type of H with
  | ?c ?w0 = _ =>
      assert (Hs : stable (same_at ".github/workflows/deploy.yml") c)
        by (unfold Interactive.script, Interactive.dockerFiles; stable_run);
      rewrite (Hs _ _ _ H)
  end.
  simpl. apply lookup_insert_eq.
Qed.

(** C3.  In production mode with an empty migration command (empty once
    trimmed), a run completes when its templates are in place and nothing is
    unwritable; and a run that completes has read the deploy template,
    removed the step block "Run migrations" from it with [removeStepBlock],
    substituted the variables in what was left, and written that to the
    deploy workflow: the file holds the substitution of the stripped
    template. *)
Theorem deploy_block_removed_before_substitution
    (toLowerCase : jsstring -> jsstring) (a : answers) (p : preset) (w : world) :
  mode a = production ->
  trim (migrationCommand a) = [] ->
  ((forall relPath, In relPath (interactive_templates_read a) ->
                    is_Some (templates w !! relPath)) ->
   denied w = ∅ ->
   exists w', Interactive.main toLowerCase a p w = (Done tt, w'))
  /\
  (forall w',
      Interactive.main toLowerCase a p w = (Done tt, w') ->
      exists deployTpl out,
        templates w !! "workflows/deploy.yml.template" = Some deployTpl /\
        replacePlaceholders (removeStepBlock deployTpl (js "Run migrations"))
          (Interactive.vars toLowerCase a p) = Returned out /\
        files w' !! ".github/workflows/deploy.yml" = Some out).
Proof.
  intros Hmode Hempty. split.
  - apply interactive_main_completes.
  - intros w'. now apply deploy_yml_of_completed_run.
Qed.

(** The older variant drops the migration lines with a line filter of its
    own, not with [removeStepBlock]; there too the lines go before the
    variables are substituted. *)
Lemma legacy_deploy_filtered_before_substitution toLowerCase a p w w' :
  trim (migrationCommand a) = [] ->
  Legacy.main toLowerCase a p w = (Done tt, w') ->
  exists deployTpl out,
    templates w !! "workflows/deploy.yml.template" = Some deployTpl /\
    replacePlaceholders
      (join_lines (List.filter (Legacy.keep_line toLowerCase) (split_lines deployTpl)))
      (Legacy.vars toLowerCase a p) = Returned out /\
    files w' !! ".github/workflows/deploy.yml" = Some out.
Proof.
  intros Hempty H. unfold Legacy.main in H.
  rewrite Hempty, orb_true_r in H.
  apply bind_Done in H as (u1 & w1 & H1 & H).
  apply bind_Done in H as (u2 & w2 & H2 & H).
  apply bind_Done in H as (u3 & w3 & H3 & H).
  pose proof (stable_writeRendered (R:=same_setup) _ _ _ I _ _ _ H1) as [T1 _].
  pose proof (stable_writeRendered (R:=same_setup) _ _ _ I _ _ _ H2) as [T2 _].
  apply bind_Done in H3 as (deployTpl & w2' & Hread & H3).
  apply bind_Done in H3 as (out & w2'' & Hrender & Hwrite).
  apply readTemplate_Done in Hread as [Hread ->].
  apply render_Done in Hrender as [Hrender ->].
  apply writeFile_Done in Hwrite as [_ ->].
  exists deployTpl, out. split; [congruence|]. split; [assumption|].
  match type of H with
  | ?c ?w0 = _ =>
      assert (Hs : stable (same_at ".github/workflows/deploy.yml") c) by stable_run;
      rewrite (Hs _ _ _ H)
  end.
  simpl. apply lookup_insert_eq.
Qed.

Lemma deploy_block_removed_before_substitution_witness :
  (exists w', Interactive.main ascii_toLowerCase sample_answers sample_preset
                sample_world = (Done tt, w'))
  /\
  exists deployTpl out,
    templates sample_world !! "workflows/deploy.yml.template" = Some deployTpl /\
    replacePlaceholders (removeStepBlock deployTpl (js "Run migrations"))
      (Interactive.vars ascii_toLowerCase sample_answers sample_preset) = Returned out /\
    files (snd (Interactive.main ascii_toLowerCase sample_answers sample_preset
                  sample_world))
      !! ".github/workflows/deploy.yml" = Some out.
Proof.
  destruct (deploy_block_removed_before_substitution ascii_toLowerCase
              sample_answers sample_preset sample_world) as [Hruns Hfile].
  - reflexivity.
  - reflexivity.
  - split.
    + apply Hruns; [|reflexivity].
      intros relPath Hin. vm_compute in Hin.
      repeat (destruct Hin as [<-|Hin]; [vm_compute; eauto|]). destruct Hin.
    + apply Hfile. vm_compute. reflexivity.
Defined.

Example sample_deploy_yml :
  files (snd (Interactive.main ascii_toLowerCase sample_answers sample_preset
                sample_world))
    !! ".github/workflows/deploy.yml"
  = Some (js "name: Deploy myapp
    steps:
      - name: Pull image
        run: docker pull myapp
      - name: Restart
        run: ./deploy.sh").
Proof. vm_compute. reflexivity. Qed.

(** ** The Dockerfile and the ignore list *)

#[local] Instance docker_ready_frame : Frame docker_ready.
Proof.
  refine {| frame_ok := fun t => ".dockerignore"%string <> t |}.
  - intros w. split; apply frame_refl.
  - intros w1 w2 w3 [H1 H2] [H3 H4]. split; eapply frame_trans; eauto.
  - intros w t c Hne. split; apply frame_write; [exact I | exact Hne].
  - intros w x. split; apply frame_exec.
Defined.

Lemma bind_Done_stable {R} `{!Frame R} {A B}
    (c : io world A) (f : A -> io world B) w b w2 :
  stable R c -> bind c f w = (Done b, w2) ->
  exists a w1, R w w1 /\ f a w1 = (Done b, w2).
Proof.
  intros Hc H. apply bind_Done in H as (a & w1 & H1 & H).
  exists a, w1. split; [exact (Hc _ _ _ H1) | exact H].
Qed.

(** The Docker block leaves an ignore list that is there as it is. *)
Lemma dockerFiles_keeps_ignore toLowerCase a p :
  stable (kept_at ".dockerignore") (Interactive.dockerFiles toLowerCase a p).
Proof.
  unfold Interactive.dockerFiles.
  apply stable_bind; [apply stable_writeRendered; simpl; discriminate|].
  intros _ w r w' H. unfold bind, existsSync in H.
  destruct (bool_decide (is_Some (files w !! ".dockerignore"))) eqn:Hp; simpl in H.
  - injection H as _ <-. now intros c.
  - intros c Hc. apply bool_decide_eq_false in Hp. exfalso. apply Hp. eauto.
Qed.

(** The Docker block, completed: the Dockerfile is the rendered template,
    and an ignore list that was missing is the ignore template. *)
Lemma dockerFiles_Done toLowerCase a p w w' :
  Interactive.dockerFiles toLowerCase a p w = (Done tt, w') ->
  (exists tpl out,
      templates w !! ("docker/Dockerfile." +:+ stack_name (stack_of a) +:+ ".template")
      = Some tpl /\
      replacePlaceholders tpl (Interactive.vars toLowerCase a p) = Returned out /\
      files w' !! "Dockerfile" = Some out)
  /\
  (files w !! ".dockerignore" = None ->
   exists ign,
     templates w !! "docker/.dockerignore.template" = Some ign /\
     files w' !! ".dockerignore" = Some ign).
Proof.
  unfold Interactive.dockerFiles. intros H.
  apply bind_Done in H as (u & w1 & H1 & H).
  apply writeRendered_Done in H1 as (tpl & out & Htpl & Hout & ->).
  apply bind_Done in H as (present & w2 & Hp & H).
  injection Hp as <- <-. simpl in H.
  rewrite lookup_insert_ne in H by discriminate.
  destruct (bool_decide (is_Some (files w !! ".dockerignore"))) eqn:Hp; simpl in H.
  - injection H as <-. split.
    + exists tpl, out. repeat split; try assumption. simpl. apply lookup_insert_eq.
    + intros Hnone. apply bool_decide_eq_true in Hp as [c Hc]. congruence.
  - apply bind_Done in H as (ign & w3 & Hread & H).
    apply readTemplate_Done in Hread as [Hign ->].
    apply writeFile_Done in H as [_ ->]. simpl in *. split.
    + exists tpl, out. repeat split; try assumption.
      rewrite lookup_insert_ne by discriminate. apply lookup_insert_eq.
    + intros _. exists ign. split; [assumption | apply lookup_insert_eq].
Qed.

Ltac peel R H :=
  let u := fresh "u" in
  let w1 := fresh "w" in
  let HR := fresh "HR" in
  apply (bind_Done_stable (R:=R)) in H as (u & w1 & HR & H);
  [| unfold Interactive.script; stable_run ].

(** A completed run of the current variant reaches its last statement, the
    Docker block, in a world that is [docker_ready]. *)
Lemma main_reaches_docker toLowerCase a p w w' :
  Interactive.main toLowerCase a p w = (Done tt, w') ->
  exists wk, docker_ready w wk /\
    (if useDocker a then Interactive.dockerFiles toLowerCase a p else ret tt) wk
    = (Done tt, w').
Proof.
  unfold Interactive.main. intros H. destruct (mode a).
  - peel docker_ready H. eauto.
  - do 8 (peel docker_ready H).
    eexists. split; [|exact H].
    repeat (eapply frame_trans; [eassumption|]). apply frame_refl.
Qed.

Lemma interactive_main_keeps_ignore toLowerCase a p :
  stable (kept_at ".dockerignore") (Interactive.main toLowerCase a p).
Proof.
  unfold Interactive.main, Interactive.script.
  destruct (mode a), (useDocker a);
    repeat first [ apply dockerFiles_keeps_ignore | stable_step ]; try path_ok.
Qed.

Lemma legacy_main_keeps_ignore toLowerCase a p :
  stable (kept_at ".dockerignore") (Legacy.main toLowerCase a p).
Proof. unfold Legacy.main. stable_run. Qed.

Lemma legacy_main_Dockerfile toLowerCase a p w w' :
  Legacy.main toLowerCase a p w = (Done tt, w') -> useDocker a = true ->
  exists tpl out,
    templates w !! ("docker/Dockerfile." +:+ stack_name (stack_of a) +:+ ".template")
    = Some tpl /\
    replacePlaceholders tpl (Legacy.vars toLowerCase a p) = Returned out /\
    files w' !! "Dockerfile" = Some out.
Proof.
  unfold Legacy.main. intros H Hd. rewrite Hd in H.
  do 5 (peel same_setup H).
  apply writeRendered_Done in H as (tpl & out & Htpl & Hout & ->).
  exists tpl, out. repeat split; try assumption.
  - rewrite <- Htpl. f_equal.
    assert (Hs : same_setup w w4).
    { repeat (eapply frame_trans; [eassumption|]). apply frame_refl. }
    symmetry. apply Hs.
  - simpl. apply lookup_insert_eq.
Qed.

(** C10.  A run of either variant completes when its templates are in place
    and nothing is unwritable.  In both modes of the current variant an
    ignore list that exists
    before the run is there unchanged after it, however the run ends; with
    Docker enabled a completed run leaves the rendered Dockerfile template
    in the Dockerfile whatever was there before, and writes the ignore list
    only if there was none.  The older variant writes the Dockerfile in the
    same way and never touches an ignore list. *)
Theorem dockerignore_guarded_Dockerfile_overwritten
    (toLowerCase : jsstring -> jsstring) (a : answers) (p : preset) (w : world) :
  ((forall relPath, In relPath (interactive_templates_read a) ->
                    is_Some (templates w !! relPath)) ->
   denied w = ∅ ->
   exists w', Interactive.main toLowerCase a p w = (Done tt, w'))
  /\
  ((forall relPath, In relPath (legacy_templates_read a) ->
                    is_Some (templates w !! relPath)) ->
   denied w = ∅ ->
   exists w', Legacy.main toLowerCase a p w = (Done tt, w'))
  /\
  (forall r w' c,
      Interactive.main toLowerCase a p w = (r, w') ->
      files w !! ".dockerignore" = Some c ->
      files w' !! ".dockerignore" = Some c)
  /\
  (forall w',
      Interactive.main toLowerCase a p w = (Done tt, w') ->
      useDocker a = true ->
      (exists tpl out,
          templates w !! ("docker/Dockerfile." +:+ stack_name (stack_of a) +:+ ".template")
          = Some tpl /\
          replacePlaceholders tpl (Interactive.vars toLowerCase a p) = Returned out /\
          files w' !! "Dockerfile" = Some out)
      /\
      (files w !! ".dockerignore" = None ->
       exists ign,
         templates w !! "docker/.dockerignore.template" = Some ign /\
         files w' !! ".dockerignore" = Some ign))
  /\
  (forall r w' c,
      Legacy.main toLowerCase a p w = (r, w') ->
      files w !! ".dockerignore" = Some c ->
      files w' !! ".dockerignore" = Some c)
  /\
  (forall w',
      Legacy.main toLowerCase a p w = (Done tt, w') ->
      useDocker a = true ->
      exists tpl out,
        templates w !! ("docker/Dockerfile." +:+ stack_name (stack_of a) +:+ ".template")
        = Some tpl /\
        replacePlaceholders tpl (Legacy.vars toLowerCase a p) = Returned out /\
        files w' !! "Dockerfile" = Some out).
Proof.
  split; [apply interactive_main_completes|].
  split; [apply legacy_main_completes|].
  split; [|split; [|split]].
  - intros r w' c H. exact (interactive_main_keeps_ignore toLowerCase a p w r w' H c).
  - intros w' H Hd.
    apply main_reaches_docker in H as (wk & [[Ht _] Hi] & H). rewrite Hd in H.
    apply dockerFiles_Done in H as [HD HI]. unfold same_at in Hi.
    rewrite Ht, Hi in *. now split.
  - intros r w' c H. exact (legacy_main_keeps_ignore toLowerCase a p w r w' H c).
  - intros w' H Hd. now apply legacy_main_Dockerfile.
Qed.

Lemma dockerignore_guarded_Dockerfile_overwritten_witness :
  let run := Interactive.main ascii_toLowerCase sample_answers sample_preset sample_world in
  (exists w', run = (Done tt, w'))
  /\ files sample_world !! ".dockerignore" = Some (js "mine")
  /\ files (snd run) !! ".dockerignore" = Some (js "mine")
  /\ files sample_world !! "Dockerfile" = Some (js "FROM scratch")
  /\ exists tpl out,
       templates sample_world !! "docker/Dockerfile.node.template" = Some tpl /\
       replacePlaceholders tpl
         (Interactive.vars ascii_toLowerCase sample_answers sample_preset) = Returned out /\
       files (snd run) !! "Dockerfile" = Some out.
Proof.
  intros run.
  destruct (dockerignore_guarded_Dockerfile_overwritten ascii_toLowerCase
              sample_answers sample_preset sample_world)
    as (Hruns & _ & Hkeep & Hdocker & _).
  split; [|split; [reflexivity|]]; [|split; [|split; [reflexivity|]]].
  - apply Hruns; [|reflexivity].
    intros relPath Hin. vm_compute in Hin.
    repeat (destruct Hin as [<-|Hin]; [vm_compute; eauto|]). destruct Hin.
  - apply (Hkeep (fst run) (snd run)); [apply surjective_pairing | reflexivity].
  - apply (Hdocker (snd run)); [vm_compute; reflexivity | reflexivity].
Defined.

(** ** The template copier *)

Lemma tree_ind_nested (P : Copier.tree -> Prop) :
  (forall content, P (Copier.File content)) ->
  (forall entries, Forall (fun e => P (snd e)) entries -> P (Copier.Dir entries)) ->
  forall t, P t.
Proof.
  intros HF HD.
  refine (fix IH (t : Copier.tree) : P t :=
            match t with
            | Copier.File content => HF content
            | Copier.Dir entries =>
                HD entries
                  ((fix each (es : list (string * Copier.tree))
                      : Forall (fun e => P (snd e)) es :=
                      match es with
                      | [] => List.Forall_nil _
                      | e :: es' => List.Forall_cons _ _ _ (IH (snd e)) (each es')
                      end) entries)
            end).
Qed.

Lemma copyEntry_Dir_cons force entry t es destPath :
  Copier.copyEntry force (Copier.Dir ((entry, t) :: es)) destPath
  = (Copier.copyEntry force t (destPath +:+ "/" +:+ entry) ;;;
     Copier.copyEntry force (Copier.Dir es) destPath).
Proof. reflexivity. Qed.

Lemma dests_Dir_cons entry t es destPath :
  Copier.dests (Copier.Dir ((entry, t) :: es)) destPath
  = Copier.dests t (destPath +:+ "/" +:+ entry)
    ++ Copier.dests (Copier.Dir es) destPath.
Proof. reflexivity. Qed.

(** With [--force] absent a file that exists is skipped: one line in the
    log, and nothing else changes. *)
Lemma copyFile_skips src dest w :
  is_Some (Copier.files w !! dest) ->
  Copier.copyFile false src dest w = (Done tt, logged w [Copier.Skipped dest]).
Proof.
  intros H. unfold Copier.copyFile, bind, Copier.existsSync.
  now rewrite bool_decide_eq_true_2.
Qed.

Lemma logged_logged w l1 l2 : logged (logged w l1) l2 = logged w (l1 ++ l2).
Proof. unfold logged. simpl. now rewrite app_assoc. Qed.

(** Where every destination exists, a copy without [--force] skips them
    all. *)
Lemma copyEntry_all_skipped t : forall destPath w,
  Forall (fun q => is_Some (Copier.files w !! q)) (Copier.dests t destPath) ->
  Copier.copyEntry false t destPath w
  = (Done tt, logged w (List.map Copier.Skipped (Copier.dests t destPath))).
Proof.
  induction t as [content|entries IH] using tree_ind_nested; intros destPath w Hall.
  - simpl in *. inversion Hall; subst. now apply copyFile_skips.
  - revert w Hall. induction IH as [|[entry t] es Ht _ IHes]; intros w Hall.
    + simpl. unfold ret, logged. simpl. rewrite app_nil_r. now destruct w.
    + rewrite copyEntry_Dir_cons, dests_Dir_cons in *.
      apply Forall_app in Hall as [H1 H2]. simpl in Ht.
      unfold bind. rewrite (Ht _ w H1).
      rewrite (IHes (logged w _)) by exact H2.
      now rewrite logged_logged, map_app.
Qed.

(** A copy that completes leaves every destination in place, and removes
    nothing. *)
Lemma copyEntry_Done force t : forall destPath w w1,
  Copier.copyEntry force t destPath w = (Done tt, w1) ->
  Forall (fun q => is_Some (Copier.files w1 !! q)) (Copier.dests t destPath)
  /\ (forall q, is_Some (Copier.files w !! q) -> is_Some (Copier.files w1 !! q)).
Proof.
  induction t as [content|entries IH] using tree_ind_nested; intros destPath w w1 H.
  - simpl in *. unfold Copier.copyFile, bind, Copier.existsSync in H.
    destruct (bool_decide (is_Some (Copier.files w !! destPath))) eqn:Hp;
      destruct force; simpl in H.
    + unfold Copier.copyFileSync in H.
      destruct (decide (destPath ∈ Copier.denied w)); [discriminate|].
      injection H as <-. simpl. split.
      * repeat constructor. rewrite lookup_insert_eq. eauto.
      * intros q Hq. destruct (decide (destPath = q)) as [->|Hne];
          [rewrite lookup_insert_eq; eauto | now rewrite lookup_insert_ne].
    + injection H as <-. simpl. apply bool_decide_eq_true in Hp.
      split; [repeat constructor; assumption | auto].
    + unfold Copier.copyFileSync in H.
      destruct (decide (destPath ∈ Copier.denied w)); [discriminate|].
      injection H as <-. simpl. split.
      * repeat constructor. rewrite lookup_insert_eq. eauto.
      * intros q Hq. destruct (decide (destPath = q)) as [->|Hne];
          [rewrite lookup_insert_eq; eauto | now rewrite lookup_insert_ne].
    + unfold Copier.copyFileSync in H.
      destruct (decide (destPath ∈ Copier.denied w)); [discriminate|].
      injection H as <-. simpl. split.
      * repeat constructor. rewrite lookup_insert_eq. eauto.
      * intros q Hq. destruct (decide (destPath = q)) as [->|Hne];
          [rewrite lookup_insert_eq; eauto | now rewrite lookup_insert_ne].
  - revert w w1 H. induction IH as [|[entry t] es Ht _ IHes]; intros w w1 H.
    + injection H as <-. split; [constructor | auto].
    + rewrite copyEntry_Dir_cons in H. rewrite dests_Dir_cons.
      apply bind_Done in H as ([] & w0 & H0 & H). simpl in Ht.
      destruct (Ht _ _ _ H0) as [A0 M0]. destruct (IHes _ _ H) as [A1 M1].
      split; [|auto]. apply Forall_app. split; [|assumption].
      eapply Forall_impl; [exact A0|]. intros q Hq. simpl. auto.
Qed.

Lemma all_Skipped l : forallb Copier.is_Skipped (List.map Copier.Skipped l) = true.
Proof. induction l as [|q l IH]; [reflexivity | exact IH]. Qed.

(** C1, as the claim words it, fails for the interactive scaffolder: its
    [writeFile] has no overwrite switch.  A Dockerfile that exists is
    replaced, by the operation itself and by a whole run. *)
Lemma writeFile_replaces_existing_file :
  files sample_world !! "Dockerfile" = Some (js "FROM scratch")
  /\ fst (writeFile "Dockerfile" (js "FROM node:20") sample_world) = Done tt
  /\ files (snd (writeFile "Dockerfile" (js "FROM node:20") sample_world))
       !! "Dockerfile" = Some (js "FROM node:20")
  /\ fst (Interactive.main ascii_toLowerCase sample_answers sample_preset sample_world)
     = Done tt
  /\ files (snd (Interactive.main ascii_toLowerCase sample_answers sample_preset
                   sample_world)) !! "Dockerfile" = Some (js "FROM node:20").
Proof. vm_compute. repeat split; reflexivity. Qed.

(** C1, amended.  In the template copier, without [--force], copying onto a
    path that exists logs it as skipped and changes no file; so after a run
    of the copier that completed, a second run without [--force] completes
    too, logs nothing but skipped files and leaves every file as it was.
    The interactive scaffolder has no such switch: its [writeFile] puts the
    new content in place of whatever the path held. *)
Theorem copier_skips_existing_and_rerun_writes_nothing :
  (forall src dest w,
      is_Some (Copier.files w !! dest) ->
      Copier.copyFile false src dest w = (Done tt, logged w [Copier.Skipped dest]))
  /\
  (forall force package w w1,
      Copier.main force (Some package) w = (0%nat, w1) ->
      exists events,
        Copier.main false (Some package) w1 = (0%nat, logged w1 events)
        /\ forallb Copier.is_Skipped events = true)
  /\
  (forall target content w,
      target ∉ denied w ->
      exists w',
        writeFile target content w = (Done tt, w')
        /\ files w' !! target = Some content).
Proof.
  split; [|split].
  - apply copyFile_skips.
  - intros force package w w1 H. unfold Copier.main in *.
    destruct package as [|e es]; [discriminate|].
    destruct (Copier.copyDir force (e :: es) Copier.TARGET_DIR w) as [[[]|err] w0] eqn:Hrun;
      [|discriminate].
    injection H as ->. unfold Copier.copyDir in *.
    destruct (copyEntry_Done _ _ _ _ _ Hrun) as [Hall _].
    rewrite (copyEntry_all_skipped _ _ _ Hall).
    eexists. split; [reflexivity | apply all_Skipped].
  - intros target content w Hok. unfold writeFile.
    destruct (decide (target ∈ denied w)); [contradiction|].
    eexists. split; [reflexivity|]. simpl. apply lookup_insert_eq.
Qed.

Lemma copier_skips_existing_and_rerun_writes_nothing_witness :
  let first := Copier.main false (Some sample_package) sample_project in
  Copier.copyFile false (js "on: push") ".github/workflows/ci.yml" sample_project
  = (Done tt, logged sample_project [Copier.Skipped ".github/workflows/ci.yml"])
  /\
  (exists events,
      Copier.main false (Some sample_package) (snd first)
      = (0%nat, logged (snd first) events)
      /\ forallb Copier.is_Skipped events = true)
  /\
  (exists w',
      writeFile "Dockerfile" (js "FROM node:20") sample_world = (Done tt, w')
      /\ files w' !! "Dockerfile" = Some (js "FROM node:20")).
Proof.
  intros first.
  destruct copier_skips_existing_and_rerun_writes_nothing as (Hskip & Hrerun & Hwrite).
  split; [|split].
  - apply Hskip. vm_compute. eauto.
  - apply (Hrerun false sample_package sample_project). vm_compute. reflexivity.
  - apply Hwrite. vm_compute. intros H. discriminate H.
Defined.

Example copier_first_run :
  Copier.log (snd (Copier.main false (Some sample_package) sample_project))
  = [Copier.Skipped ".github/workflows/ci.yml";
     Copier.Copied ".github/workflows/extra/lint.yml"].
Proof. vm_compute. reflexivity. Qed.

(* ================================================================== *)
(** * Further properties of the code *)

(** ** removeStepBlock: what the scan keeps *)

Lemma split_lines_no_LF s : forallb no_LF (split_lines s) = true.
Proof.
  induction s as [|c s IH]; [reflexivity|]. simpl.
  destruct (N.eqb_spec c LF) as [->|Hc]; [exact IH|].
  destruct (split_lines s) as [|l ls]; simpl in *.
  - unfold no_LF. simpl. rewrite N.eqb_sym.
    apply N.eqb_neq in Hc. now rewrite Hc.
  - apply andb_prop in IH as [Hl Hls]. rewrite Hls, andb_true_r.
    unfold no_LF in *. simpl. rewrite N.eqb_sym.
    apply N.eqb_neq in Hc. now rewrite Hc.
Qed.

Lemma kept_sublist sub lines : forall skipping,
  sublist (kept sub skipping lines) lines.
Proof.
  induction lines as [|l lines IH]; intros skipping; simpl; [constructor|].
  destruct skipping; simpl.
  - destruct (is_sibling_step sub l); [apply sublist_skip | apply sublist_cons]; apply IH.
  - destruct (is_target_step sub l); [apply sublist_cons | apply sublist_skip]; apply IH.
Qed.

Lemma sibling_not_target sub l :
  is_sibling_step sub l = true -> is_target_step sub l = false.
Proof.
  unfold is_sibling_step, is_target_step. intros H.
  apply andb_prop in H as [_ H]. rewrite negb_true_iff in H.
  now rewrite H, andb_false_r.
Qed.

(** No line the scan keeps is a target header. *)
Lemma kept_without_target sub lines : forall skipping,
  forallb (fun l => negb (is_target_step sub l)) (kept sub skipping lines) = true.
Proof.
  induction lines as [|l lines IH]; intros skipping; simpl; [reflexivity|].
  destruct skipping; simpl.
  - destruct (is_sibling_step sub l) eqn:Hs; simpl; [|apply IH].
    now rewrite (sibling_not_target _ _ Hs), IH.
  - destruct (is_target_step sub l) eqn:Ht; simpl; [apply IH|].
    now rewrite Ht, IH.
Qed.

Lemma forallb_sublist {A} (p : A -> bool) l1 l2 :
  sublist l1 l2 -> forallb p l2 = true -> forallb p l1 = true.
Proof.
  induction 1 as [|x l1 l2 _ IH|x l1 l2 _ IH]; simpl; intros H; [reflexivity| |].
  - apply andb_prop in H as [-> H]. now rewrite IH.
  - apply andb_prop in H as [_ H]. now apply IH.
Qed.

(** The lines of the result, when the scan kept any; a result without lines
    is the empty text, which is one empty line. *)
Lemma split_lines_removeStepBlock yaml sub :
  split_lines (removeStepBlock yaml sub)
  = match kept sub false (split_lines yaml) with
    | [] => [[]]
    | ls => ls
    end.
Proof.
  rewrite removeStepBlock_kept.
  destruct (kept sub false (split_lines yaml)) as [|l ls] eqn:Hk; [reflexivity|].
  apply split_join_lines; [discriminate|]. rewrite <- Hk.
  apply (forallb_sublist _ _ (split_lines yaml));
    [apply kept_sublist | apply split_lines_no_LF].
Qed.

Lemma is_target_step_empty_line sub : is_target_step sub [] = false.
Proof. reflexivity. Qed.

(** X1.  After a removal no step header that holds the target is left: no
    line of the result, once trimmed, starts with [- name:] and holds the
    target. *)
Theorem removeStepBlock_leaves_no_target (yaml stepNameSubstring : jsstring) :
  forall line, In line (split_lines (removeStepBlock yaml stepNameSubstring)) ->
               is_target_step stepNameSubstring line = false.
Proof.
  intros line Hin. rewrite split_lines_removeStepBlock in Hin.
  pose proof (kept_without_target stepNameSubstring (split_lines yaml) false) as Hall.
  destruct (kept stepNameSubstring false (split_lines yaml)) as [|l ls].
  - destruct Hin as [<-|[]]. apply is_target_step_empty_line.
  - rewrite forallb_forall in Hall. specialize (Hall line Hin).
    now rewrite negb_true_iff in Hall.
Qed.

Lemma removeStepBlock_leaves_no_target_witness :
  let yaml := js "  - name: A
    run: a
  - name: B
    run: b
  - name: C
    run: c" in
  In (js "  - name: C") (split_lines (removeStepBlock yaml (js "B")))
  /\ is_target_step (js "B") (js "  - name: C") = false.
Proof.
  intros yaml.
  assert (Hin : In (js "  - name: C") (split_lines (removeStepBlock yaml (js "B")))).
  { vm_compute. right. right. left. reflexivity. }
  split; [exact Hin|].
  exact (removeStepBlock_leaves_no_target yaml (js "B") (js "  - name: C") Hin).
Defined.

(** X2.  Removing the same target a second time changes nothing. *)
Theorem removeStepBlock_idempotent (yaml stepNameSubstring : jsstring) :
  removeStepBlock (removeStepBlock yaml stepNameSubstring) stepNameSubstring
  = removeStepBlock yaml stepNameSubstring.
Proof.
  rewrite (removeStepBlock_kept (removeStepBlock yaml stepNameSubstring)).
  rewrite split_lines_removeStepBlock.
  pose proof (kept_without_target stepNameSubstring (split_lines yaml) false) as Hall.
  destruct (kept stepNameSubstring false (split_lines yaml)) as [|l ls] eqn:Hk.
  - now rewrite removeStepBlock_kept, Hk.
  - rewrite <- (app_nil_r (l :: ls)) at 1.
    rewrite kept_false_no_target by exact Hall.
    now rewrite kept_nil, app_nil_r, removeStepBlock_kept, Hk.
Qed.

Lemma join_lines_length_cons l ls :
  (length (join_lines ls) <= length (join_lines (l :: ls)))%nat.
Proof.
  destruct ls as [|l' ls]; [simpl; lia|].
  rewrite (join_lines_cons l (l' :: ls)) by discriminate.
  set (j := join_lines (l' :: ls)). rewrite length_app. simpl. lia.
Qed.

Lemma join_lines_length_sublist ls1 ls2 :
  sublist ls1 ls2 -> (length (join_lines ls1) <= length (join_lines ls2))%nat.
Proof.
  induction 1 as [|l ls1 ls2 Hsub IH|l ls1 ls2 Hsub IH].
  - lia.
  - destruct ls1 as [|a ls1].
    + destruct ls2 as [|b ls2]; [lia|].
      rewrite (join_lines_cons l (b :: ls2)) by discriminate.
      rewrite length_app. simpl. lia.
    + destruct ls2 as [|b ls2]; [inversion Hsub|].
      rewrite (join_lines_cons l (a :: ls1)), (join_lines_cons l (b :: ls2))
        by discriminate.
      set (j1 := join_lines (a :: ls1)) in *. set (j2 := join_lines (b :: ls2)) in *.
      rewrite !length_app. simpl. lia.
  - pose proof (join_lines_length_cons l ls2). lia.
Qed.

(** X3.  A removal only drops lines: the result is the lines of the
    document, some left out, in their order and unchanged; so it is never
    longer than the document. *)
Theorem removeStepBlock_only_drops_lines (yaml stepNameSubstring : jsstring) :
  (exists ls, sublist ls (split_lines yaml)
              /\ removeStepBlock yaml stepNameSubstring = join_lines ls)
  /\ (length (removeStepBlock yaml stepNameSubstring) <= length yaml)%nat.
Proof.
  rewrite removeStepBlock_kept.
  pose proof (kept_sublist stepNameSubstring (split_lines yaml) false) as Hsub.
  split; [eauto|].
  rewrite <- (join_split_lines yaml) at 2. now apply join_lines_length_sublist.
Qed.

Lemma kept_block_then sub pre hdr body next rest :
  forallb (fun l => negb (is_target_step sub l)) pre = true ->
  is_target_step sub hdr = true ->
  forallb (fun l => negb (is_sibling_step sub l)) body = true ->
  is_sibling_step sub next = true ->
  kept sub false (pre ++ hdr :: body ++ next :: rest)
  = pre ++ next :: kept sub false rest.
Proof.
  intros Hpre Hhdr Hbody Hnext.
  rewrite kept_false_no_target by assumption.
  rewrite kept_false_target by assumption.
  rewrite kept_true_no_sibling by assumption.
  now rewrite kept_true_sibling.
Qed.

(** X4.  Every step that holds the target goes, not the first one only: of
    two target steps with other steps between them, both are removed with
    their bodies, and the lines before, between and after stay. *)
Theorem removeStepBlock_removes_every_target_block
    (stepNameSubstring : jsstring)
    (pre : list jsstring) (hdr1 : jsstring) (body1 : list jsstring) (next1 : jsstring)
    (mid : list jsstring) (hdr2 : jsstring) (body2 : list jsstring) (next2 : jsstring)
    (rest : list jsstring) :
  let target l := is_target_step stepNameSubstring l in
  let sibling l := is_sibling_step stepNameSubstring l in
  forallb no_LF
    (pre ++ hdr1 :: body1 ++ next1 :: mid ++ hdr2 :: body2 ++ next2 :: rest) = true ->
  forallb (fun l => negb (target l)) pre = true ->
  target hdr1 = true ->
  forallb (fun l => negb (sibling l)) body1 = true ->
  sibling next1 = true ->
  forallb (fun l => negb (target l)) mid = true ->
  target hdr2 = true ->
  forallb (fun l => negb (sibling l)) body2 = true ->
  sibling next2 = true ->
  forallb (fun l => negb (target l)) rest = true ->
  removeStepBlock
    (join_lines (pre ++ hdr1 :: body1 ++ next1 :: mid ++ hdr2 :: body2 ++ next2 :: rest))
    stepNameSubstring
  = join_lines (pre ++ next1 :: mid ++ next2 :: rest).
Proof.
  intros target sibling Hlf Hpre H1 Hb1 Hn1 Hmid H2 Hb2 Hn2 Hrest.
  rewrite removeStepBlock_kept, split_join_lines; auto; [|destruct pre; discriminate].
  rewrite kept_block_then by assumption.
  rewrite kept_block by assumption. reflexivity.
Qed.

Lemma removeStepBlock_removes_every_target_block_witness :
  removeStepBlock (js "steps:
  - name: Pull
    run: pull
  - name: Run migrations (staging)
    run: migrate
  - name: Smoke test
    run: curl
  - name: Run migrations (production)
    run: migrate
  - name: Restart
    run: restart") (js "Run migrations")
  = js "steps:
  - name: Pull
    run: pull
  - name: Smoke test
    run: curl
  - name: Restart
    run: restart".
Proof.
  apply (removeStepBlock_removes_every_target_block (js "Run migrations")
           [js "steps:"; js "  - name: Pull"; js "    run: pull"]
           (js "  - name: Run migrations (staging)") [js "    run: migrate"]
           (js "  - name: Smoke test") [js "    run: curl"]
           (js "  - name: Run migrations (production)") [js "    run: migrate"]
           (js "  - name: Restart") [js "    run: restart"]);
    vm_compute; reflexivity.
Defined.

Lemma includes_empty s : includes s [] = true.
Proof. destruct s; reflexivity. Qed.

(** X5.  With the empty string as target every [- name:] line is a target
    and no line ends the skipping: the result is the lines before the first
    line that, once trimmed, starts with [- name:]. *)
Theorem removeStepBlock_empty_target (yaml : jsstring) :
  removeStepBlock yaml []
  = join_lines
      (takeWhile (fun l => negb (startsWith (trim l) (js "- name:")))
         (split_lines yaml)).
Proof.
  rewrite removeStepBlock_kept, kept_false_takeWhile.
  - f_equal. induction (split_lines yaml) as [|l ls IH]; [reflexivity|].
    simpl. unfold is_target_step at 1. rewrite includes_empty, andb_true_r.
    destruct (startsWith (trim l) (js "- name:")); simpl; [reflexivity|].
    now rewrite IH.
  - intros l _. unfold is_sibling_step. now rewrite includes_empty, andb_false_r.
Qed.

(** ** replacePlaceholders: values *)

Lemma brace_free_until_close a : forall b x y,
  forallb (fun c => negb (is_brace c)) a = true ->
  forallb (fun c => negb (is_brace c)) b = true ->
  a ++ [125; 125] ++ x = b ++ [125; 125] ++ y -> a = b /\ x = y.
Proof.
  induction a as [|c a IH]; intros b x y Ha Hb H; destruct b as [|d b]; simpl in *.
  - injection H as ->. auto.
  - injection H as <- _. vm_compute in Hb. discriminate.
  - injection H as -> _. vm_compute in Ha. discriminate.
  - injection H as -> H.
    apply andb_prop in Ha as [_ Ha]. apply andb_prop in Hb as [_ Hb].
    destruct (IH b x y Ha Hb H) as [-> ->]. auto.
Qed.

(** Two tokens of a plain key at the head of one text are the same. *)
Lemma token_at_head_unique key m m' post post' :
  is_literal_key key = true -> is_token key m -> is_token key m' ->
  m ++ post = m' ++ post' -> m = m' /\ post = post'.
Proof.
  intros Hk Hm Hm' H.
  destruct (token_inner key m Hk Hm) as (w1 & w2 & _ & _ & -> & Hf).
  destruct (token_inner key m' Hk Hm') as (u1 & u2 & _ & _ & -> & Hf').
  rewrite <- !app_assoc in H. simpl in H. injection H as H.
  destruct (brace_free_until_close (w1 ++ key ++ w2) (u1 ++ key ++ u2) post post' Hf Hf')
    as [-> ->]; [|auto].
  rewrite <- !app_assoc. exact H.
Qed.

(** At a token the pattern matches that token. *)
Lemma exec_at_token_head key re m post :
  is_literal_key key = true -> placeholder_RegExp key = Returned re ->
  is_token key m -> exec_at re (m ++ post) = Some (length m).
Proof.
  intros Hk Hre Hm. destruct (exec_at re (m ++ post)) as [n|] eqn:H.
  - destruct (exec_at_token _ _ _ _ Hre H) as (m' & post' & Hm' & Hs & ->).
    now destruct (token_at_head_unique key m m' post post' Hk Hm Hm' Hs) as [-> _].
  - exfalso. apply (exec_at_no_token key re _ Hre H). now exists m, post.
Qed.

Lemma token_not_nil key m : is_token key m -> m <> [].
Proof. intros H ->. apply token_length in H. simpl in H. lia. Qed.

Lemma exec_at_nil_placeholder key re :
  placeholder_RegExp key = Returned re -> exec_at re [] = None.
Proof. intros Hre. now apply (exec_at_needs_braces key). Qed.

(** A text that is one token renders as the expansion of the value. *)
Lemma replace_exact_token key re m v :
  is_literal_key key = true -> placeholder_RegExp key = Returned re ->
  is_token key m -> replace re v m = GetSubstitution m [] [] v.
Proof.
  intros Hk Hre Hm. unfold replace. rewrite <- (app_nil_r m) at 1.
  rewrite replace_from_match.
  - rewrite replace_from_nil, (exec_at_nil_placeholder key re Hre).
    now rewrite app_nil_r.
  - now apply (token_not_nil key).
  - now apply (exec_at_token_head key).
Qed.

Lemma replacePlaceholders_exact_token key m v :
  is_literal_key key = true -> is_token key m ->
  replacePlaceholders m [(key, JString v)] = Returned (GetSubstitution m [] [] v).
Proof.
  intros Hk Hm. destruct (placeholder_RegExp_literal key Hk) as [re Hre].
  rewrite (replacePlaceholders_cons _ _ _ _ re Hre). simpl.
  now rewrite (replace_exact_token key).
Qed.

(** X6.  A value without dollar signs is put in place of every token of
    its key, as it is: the rendering of a text is the text with each token
    of the key replaced by the value, and a text that is one token renders
    as the value.  The value is not scanned again for the same key, also
    when it holds a token of that key. *)
Theorem replacePlaceholders_plain_value (key v : jsstring) :
  is_literal_key key = true -> no_dollar v = true ->
  (forall str, exists out,
      replacePlaceholders str [(key, JString v)] = Returned out
      /\ tokens_replaced key v str out)
  /\
  (forall m, is_token key m -> replacePlaceholders m [(key, JString v)] = Returned v).
Proof.
  intros Hk Hv. split.
  - intros str. destruct (placeholder_RegExp_literal key Hk) as [re Hre].
    exists (replace re v str). split.
    + now rewrite (replacePlaceholders_cons _ _ _ _ re Hre).
    + apply (replace_from_tokens_replaced key re v Hre Hv (length str)). lia.
  - intros m Hm. rewrite replacePlaceholders_exact_token by assumption.
    now rewrite GetSubstitution_no_dollar.
Qed.

Lemma replacePlaceholders_plain_value_witness :
  replacePlaceholders (js "{{ NAME }}") [(js "NAME", JString (js "{{NAME}}-x"))]
  = Returned (js "{{NAME}}-x").
Proof.
  apply (replacePlaceholders_plain_value (js "NAME") (js "{{NAME}}-x")).
  - reflexivity.
  - reflexivity.
  - exists (js " "), (js " "). repeat split; repeat constructor.
Defined.

Lemma GetSubstitution_app_no_dollar matched before after a r :
  no_dollar a = true ->
  GetSubstitution matched before after (a ++ r)
  = a ++ GetSubstitution matched before after r.
Proof.
  unfold no_dollar. induction a as [|c a IH]; intros H; [reflexivity|].
  simpl in H. rewrite negb_true_iff in H. apply orb_false_elim in H as [Hc Ha].
  simpl. rewrite N.eqb_sym, Hc. f_equal. apply IH. now rewrite Ha.
Qed.

Lemma GetSubstitution_dollar_dollar matched before after r :
  GetSubstitution matched before after (DOLLAR :: DOLLAR :: r)
  = DOLLAR :: GetSubstitution matched before after r.
Proof. reflexivity. Qed.

Lemma GetSubstitution_dollar_ampersand matched before after r :
  GetSubstitution matched before after (DOLLAR :: AMPERSAND :: r)
  = matched ++ GetSubstitution matched before after r.
Proof. reflexivity. Qed.

Lemma GetSubstitution_dollar_other matched before after d r :
  existsb (N.eqb d) [DOLLAR; AMPERSAND; BACKTICK; APOSTROPHE] = false ->
  GetSubstitution matched before after (DOLLAR :: d :: r)
  = DOLLAR :: GetSubstitution matched before after (d :: r).
Proof.
  intros Hd. simpl in Hd. repeat (apply orb_false_elim in Hd as [? Hd]).
  change (GetSubstitution matched before after (DOLLAR :: d :: r))
    with (if d =? DOLLAR then DOLLAR :: GetSubstitution matched before after r
          else if d =? AMPERSAND then matched ++ GetSubstitution matched before after r
          else if d =? BACKTICK then before ++ GetSubstitution matched before after r
          else if d =? APOSTROPHE then after ++ GetSubstitution matched before after r
          else DOLLAR :: GetSubstitution matched before after (d :: r)).
  repeat match goal with H : (d =? _) = false |- _ => rewrite H; clear H end.
  reflexivity.
Qed.

(** X7.  A value is a replacement pattern, not plain text: in a value [$$]
    stands for one dollar sign and [$&] for the token being replaced, while
    a dollar sign before any other character (a digit, say: the pattern has
    no group) stays as it is. *)
Theorem replacePlaceholders_dollar_patterns (key m a b : jsstring) (d : N) :
  is_literal_key key = true -> is_token key m ->
  no_dollar a = true -> no_dollar b = true ->
  existsb (N.eqb d) [DOLLAR; AMPERSAND; BACKTICK; APOSTROPHE] = false ->
  replacePlaceholders m [(key, JString (a ++ js "$$" ++ b))] = Returned (a ++ js "$" ++ b)
  /\ replacePlaceholders m [(key, JString (a ++ js "$&" ++ b))] = Returned (a ++ m ++ b)
  /\ replacePlaceholders m [(key, JString (a ++ [DOLLAR; d] ++ b))]
     = Returned (a ++ [DOLLAR; d] ++ b).
Proof.
  intros Hk Hm Ha Hb Hd. rewrite !replacePlaceholders_exact_token by assumption.
  change (js "$$" ++ b) with (DOLLAR :: DOLLAR :: b).
  change (js "$&" ++ b) with (DOLLAR :: AMPERSAND :: b).
  change (js "$" ++ b) with (DOLLAR :: b).
  change ([DOLLAR; d] ++ b) with (DOLLAR :: d :: b).
  rewrite !GetSubstitution_app_no_dollar by assumption.
  rewrite GetSubstitution_dollar_dollar, GetSubstitution_dollar_ampersand.
  rewrite GetSubstitution_dollar_other by assumption.
  rewrite (GetSubstitution_no_dollar m [] [] b Hb).
  rewrite (GetSubstitution_no_dollar m [] [] (d :: b)); [auto|].
  unfold no_dollar in *. simpl in *.
  apply orb_false_elim in Hd as [Hd _]. now rewrite N.eqb_sym, Hd.
Qed.

Lemma replacePlaceholders_dollar_patterns_witness :
  replacePlaceholders (js "{{CMD}}") [(js "CMD", JString (js "echo $$ ok"))]
  = Returned (js "echo $ ok").
Proof.
  apply (replacePlaceholders_dollar_patterns (js "CMD") (js "{{CMD}}")
           (js "echo ") (js " ok") 49).
  - reflexivity.
  - exists [], []. repeat split; constructor.
  - reflexivity.
  - reflexivity.
  - reflexivity.
Defined.

Lemma token_no_dollar key m :
  is_literal_key key = true -> is_token key m -> no_dollar m = true.
Proof.
  intros Hk (w1 & w2 & H1 & H2 & ->). unfold no_dollar.
  rewrite !existsb_app. rewrite negb_true_iff.
  assert (Hsp : forall w, Forall (fun c => is_space c = true) w ->
                          existsb (N.eqb DOLLAR) w = false).
  { induction 1 as [|c w Hc _ IH]; simpl; [reflexivity|]. rewrite IH, orb_false_r.
    destruct (N.eqb_spec DOLLAR c) as [<-|]; [discriminate Hc | reflexivity]. }
  rewrite (Hsp w1 H1), (Hsp w2 H2).
  assert (Hkey : existsb (N.eqb DOLLAR) key = false).
  { unfold is_literal_key in Hk. induction key as [|c key IH]; [reflexivity|].
    simpl in *. apply andb_prop in Hk as [Hc Hk]. rewrite (IH Hk), orb_false_r.
    destruct (N.eqb_spec DOLLAR c) as [<-|]; [discriminate Hc | reflexivity]. }
  now rewrite Hkey.
Qed.

(** X8.  The keys take their turns on one text: what an earlier key put in
    is scanned by the later keys.  A value that is a token of a later key
    ends up as that key's value. *)
Theorem replacePlaceholders_later_keys_scan_values (key1 key2 m1 m2 v2 : jsstring) :
  is_literal_key key1 = true -> is_literal_key key2 = true ->
  is_token key1 m1 -> is_token key2 m2 -> no_dollar v2 = true ->
  replacePlaceholders m1 [(key1, JString m2); (key2, JString v2)] = Returned v2.
Proof.
  intros Hk1 Hk2 Hm1 Hm2 Hv2.
  change [(key1, JString m2); (key2, JString v2)]
    with ([(key1, JString m2)] ++ [(key2, JString v2)]).
  rewrite replacePlaceholders_app, replacePlaceholders_exact_token by assumption.
  rewrite GetSubstitution_no_dollar by now apply (token_no_dollar key2).
  rewrite replacePlaceholders_exact_token by assumption.
  now rewrite GetSubstitution_no_dollar.
Qed.

Lemma replacePlaceholders_later_keys_scan_values_witness :
  replacePlaceholders (js "{{INSTALL_COMMAND}}")
    [(js "INSTALL_COMMAND", JString (js "{{ TEST_COMMAND }}"));
     (js "TEST_COMMAND", JString (js "npm test"))]
  = Returned (js "npm test").
Proof.
  apply (replacePlaceholders_later_keys_scan_values
           (js "INSTALL_COMMAND") (js "TEST_COMMAND")).
  - reflexivity.
  - reflexivity.
  - exists [], []. repeat split; constructor.
  - exists (js " "), (js " "). repeat split; repeat constructor.
  - reflexivity.
Defined.

(** ** The names in the variable map *)

(** X9.  Whatever the project name, IMAGE_NAME in both variants and
    APP_NAME in the current one are the lower-cased name without the code
    units outside [a-z0-9-_], so they hold code units of that set only; a
    name without any such code unit gives the empty name. *)
Theorem sanitised_names (toLowerCase : jsstring -> jsstring) (a : answers) (p : preset) :
  let slug := List.filter is_slug_char (toLowerCase (projectName a)) in
  get_var (js "IMAGE_NAME") (Interactive.vars toLowerCase a p) = Some (JString slug)
  /\ get_var (js "APP_NAME") (Interactive.vars toLowerCase a p) = Some (JString slug)
  /\ get_var (js "IMAGE_NAME") (Legacy.vars toLowerCase a p) = Some (JString slug)
  /\ forallb is_slug_char slug = true
  /\ (forallb (fun c => negb (is_slug_char c)) (toLowerCase (projectName a)) = true ->
      slug = []).
Proof.
  intros slug.
  destruct (interactive_names_sanitised toLowerCase a p) as (HA & HI & Hall).
  split; [exact HI|]. split; [exact HA|].
  split; [apply legacy_image_name_sanitised|]. split; [exact Hall|].
  subst slug. clear. induction (toLowerCase (projectName a)) as [|c s IH]; [reflexivity|].
  simpl. intros H. apply andb_prop in H as [Hc Hs].
  rewrite negb_true_iff in Hc. rewrite Hc. now apply IH.
Qed.

Lemma sanitised_names_witness :
  get_var (js "IMAGE_NAME")
    (Interactive.vars ascii_toLowerCase (sample_answers_named (js "?! +")) sample_preset)
  = Some (JString []).
Proof.
  destruct (sanitised_names ascii_toLowerCase (sample_answers_named (js "?! +"))
              sample_preset) as (HI & _ & _ & _ & Hempty).
  rewrite HI, Hempty; reflexivity.
Defined.

(** ** Runs: how they fail, and what they leave alone *)

Section Throws.

Variable T : gmap string jsstring.
Variable D : gset string.
Variable L : list string.

Lemma throws_only_ret {A} (a : A) : throws_only T D L (ret a).
Proof. intros w r w' HT HD [= <- <-]. auto. Qed.

Lemma throws_only_bind {A B} (c : io world A) (f : A -> io world B) :
  throws_only T D L c -> (forall a, throws_only T D L (f a)) ->
  throws_only T D L (bind c f).
Proof.
  intros Hc Hf w r w' HT HD H. unfold bind in H.
  destruct (c w) as [[a|e] w1] eqn:Hcw.
  - destruct (Hc _ _ _ HT HD Hcw) as (HT1 & HD1 & _).
    exact (Hf a _ _ _ HT1 HD1 H).
  - injection H as <- <-. exact (Hc _ _ _ HT HD Hcw).
Qed.

Lemma throws_only_readTemplate relPath :
  In relPath L -> throws_only T D L (readTemplate relPath).
Proof.
  intros Hin w r w' HT HD. unfold readTemplate.
  destruct (templates w !! relPath) eqn:Hp; intros [= <- <-]; repeat split; auto.
  left. exists relPath. rewrite <- HT. auto.
Qed.

Lemma throws_only_render str vars :
  literal_keys vars -> throws_only T D L (render str vars).
Proof.
  intros Hlit w r w' HT HD. unfold render.
  destruct (replacePlaceholders_total vars str Hlit) as [out ->].
  intros [= <- <-]. auto.
Qed.

Lemma throws_only_writeFile target content :
  throws_only T D L (writeFile target content).
Proof.
  intros w r w' HT HD. unfold writeFile.
  destruct (decide (target ∈ denied w)) as [Hin|_]; intros [= <- <-];
    repeat split; auto.
  right. exists target. rewrite <- HD. auto.
Qed.

Lemma throws_only_existsSync p : throws_only T D L (existsSync p).
Proof. intros w r w' HT HD [= <- <-]. auto. Qed.

Lemma throws_only_makeExecutable p : throws_only T D L (makeExecutable p).
Proof.
  intros w r w' HT HD. unfold makeExecutable.
  destruct (_ && _); intros [= <- <-]; auto.
Qed.

Lemma throws_only_writeRendered target tplPath vars :
  In tplPath L -> literal_keys vars ->
  throws_only T D L (writeRendered target tplPath vars).
Proof.
  intros Hin Hlit. unfold writeRendered.
  apply throws_only_bind; [now apply throws_only_readTemplate|]. intros tpl.
  apply throws_only_bind; [now apply throws_only_render|]. intros out.
  apply throws_only_writeFile.
Qed.

Lemma throws_only_if {A} (b : bool) (c1 c2 : io world A) :
  throws_only T D L c1 -> throws_only T D L c2 ->
  throws_only T D L (if b then c1 else c2).
Proof. now destruct b. Qed.

End Throws.

Ltac throws_step :=
  lazymatch goal with
  | |- throws_only _ _ _ (ret _) => apply throws_only_ret
  | |- throws_only _ _ _ (readTemplate _) => apply throws_only_readTemplate
  | |- throws_only _ _ _ (render _ _) => apply throws_only_render
  | |- throws_only _ _ _ (existsSync _) => apply throws_only_existsSync
  | |- throws_only _ _ _ (makeExecutable _) => apply throws_only_makeExecutable
  | |- throws_only _ _ _ (writeRendered _ _ _) => apply throws_only_writeRendered
  | |- throws_only _ _ _ (writeFile _ _) => apply throws_only_writeFile
  | |- throws_only _ _ _ (if _ then _ else _) => apply throws_only_if
  | |- throws_only _ _ _ (bind _ _) => apply throws_only_bind; [|intros ?]
  end.

Lemma interactive_main_throws_only toLowerCase a p T D :
  throws_only T D (interactive_templates_read a) (Interactive.main toLowerCase a p).
Proof.
  unfold Interactive.main, Interactive.script, Interactive.dockerFiles,
    interactive_templates_read.
  destruct (mode a), (useDocker a); repeat throws_step;
    first [ apply interactive_vars_literal | simpl; auto 20 ].
Qed.

Lemma legacy_main_throws_only toLowerCase a p T D :
  throws_only T D (legacy_templates_read a) (Legacy.main toLowerCase a p).
Proof.
  unfold Legacy.main, legacy_templates_read.
  destruct (useDocker a); repeat throws_step;
    first [ apply legacy_vars_literal | simpl; auto 20 ].
Qed.

(** X10.  Whatever the answers and the preset, and whatever the text, the
    call of [replacePlaceholders] with the variable map of either variant
    returns: the keys of both maps are plain names, so [new RegExp] throws
    for none of them (the values, which come from the prompts, are not
    part of the pattern).  So no run of either variant ends with an
    exception of [replacePlaceholders]. *)
Theorem main_never_rejects_a_key
    (toLowerCase : jsstring -> jsstring) (a : answers) (p : preset) :
  (forall str, exists out,
      replacePlaceholders str (Interactive.vars toLowerCase a p) = Returned out)
  /\
  (forall str, exists out,
      replacePlaceholders str (Legacy.vars toLowerCase a p) = Returned out)
  /\
  (forall w w', Interactive.main toLowerCase a p w <> (Threw BadPattern, w'))
  /\
  (forall w w', Legacy.main toLowerCase a p w <> (Threw BadPattern, w')).
Proof.
  split; [|split; [|split]].
  - intros str. apply replacePlaceholders_total, interactive_vars_literal.
  - intros str. apply replacePlaceholders_total, legacy_vars_literal.
  - intros w w' H.
    destruct (proj2 (proj2 (interactive_main_throws_only toLowerCase a p _ _
                              w _ _ eq_refl eq_refl H)))
      as [(path & He & _)|(target & He & _)]; discriminate He.
  - intros w w' H.
    destruct (proj2 (proj2 (legacy_main_throws_only toLowerCase a p _ _
                              w _ _ eq_refl eq_refl H)))
      as [(path & He & _)|(target & He & _)]; discriminate He.
Qed.

Example values_are_no_pattern :
  replacePlaceholders (js "name: {{ APP_NAME }}, test: {{TEST_COMMAND}}")
    [(js "APP_NAME", JString (js "my(app")); (js "TEST_COMMAND", JString (js "a|b (c"))]
  = Returned (js "name: my(app, test: a|b (c").
Proof. vm_compute. reflexivity. Qed.

#[local] Instance same_outside_frame L : Frame (same_outside L).
Proof.
  refine {| frame_ok := fun t => In t L |}.
  - intros w. split; [apply frame_refl | auto].
  - intros w1 w2 w3 [S1 H1] [S2 H2]. split; [eapply frame_trans; eauto|].
    intros q Hq. now rewrite H2, H1.
  - intros w t c Hin. split; [now apply frame_write|].
    intros q Hq. simpl. apply lookup_insert_ne. now intros ->.
  - intros w x. split; [apply frame_exec | auto].
Defined.

Lemma interactive_main_same_outside toLowerCase a p :
  stable (same_outside (interactive_outputs a)) (Interactive.main toLowerCase a p).
Proof.
  unfold Interactive.main, Interactive.script, Interactive.dockerFiles,
    interactive_outputs.
  destruct (mode a), (useDocker a); repeat stable_step; simpl; auto 20.
Qed.

Lemma legacy_main_same_outside toLowerCase a p :
  stable (same_outside (legacy_outputs a)) (Legacy.main toLowerCase a p).
Proof.
  unfold Legacy.main, legacy_outputs.
  destruct (useDocker a); repeat stable_step; simpl; auto 20.
Qed.

(** X11.  A run touches nothing but its outputs: however it ends, every
    file at a path that is not one of the outputs of the mode is as it was
    (or absent as before), and the templates are as they were.  In simple
    mode the outputs are the one workflow, in production mode the five
    workflows and three scripts, and with Docker the Dockerfile and the
    ignore list. *)
Theorem main_touches_only_its_outputs
    (toLowerCase : jsstring -> jsstring) (a : answers) (p : preset) (w : world) :
  (forall r w',
      Interactive.main toLowerCase a p w = (r, w') ->
      templates w' = templates w /\
      forall q, ~ In q (interactive_outputs a) -> files w' !! q = files w !! q)
  /\
  (forall r w',
      Legacy.main toLowerCase a p w = (r, w') ->
      templates w' = templates w /\
      forall q, ~ In q (legacy_outputs a) -> files w' !! q = files w !! q).
Proof.
  split; intros r w' H.
  - destruct (interactive_main_same_outside toLowerCase a p w r w' H) as [[HT _] Hq].
    auto.
  - destruct (legacy_main_same_outside toLowerCase a p w r w' H) as [[HT _] Hq].
    auto.
Qed.

Lemma main_touches_only_its_outputs_witness :
  let run := Interactive.main ascii_toLowerCase sample_answers sample_preset sample_world in
  files (snd run) !! "README.md" = files sample_world !! "README.md"
  /\ files (snd run) !! ".github/workflows/monolith.yml" = None.
Proof.
  intros run.
  destruct (proj1 (main_touches_only_its_outputs ascii_toLowerCase sample_answers
                     sample_preset sample_world) (fst run) (snd run))
    as [_ Hq]; [apply surjective_pairing|].
  split.
  - apply Hq. vm_compute. intros H.
    repeat (destruct H as [H|H]; [discriminate H|]). exact H.
  - rewrite Hq; [reflexivity|]. vm_compute. intros H.
    repeat (destruct H as [H|H]; [discriminate H|]). exact H.
Defined.

(** ** Runs: the executable marks *)

Section Marks.

Variable R : gset string -> gset string -> Prop.
Hypothesis R_refl : forall E, R E E.
Hypothesis R_trans : forall E1 E2 E3, R E1 E2 -> R E2 E3 -> R E1 E3.

Lemma marks_ret {A} (a : A) : marks R (ret a).
Proof. intros w r w' [= _ <-]. apply R_refl. Qed.

Lemma marks_bind {A B} (c : io world A) (f : A -> io world B) :
  marks R c -> (forall a, marks R (f a)) -> marks R (bind c f).
Proof.
  intros Hc Hf w r w' H. unfold bind in H.
  destruct (c w) as [[a|e] w1] eqn:Hcw.
  - eapply R_trans; [exact (Hc _ _ _ Hcw) | exact (Hf a _ _ _ H)].
  - injection H as _ <-. exact (Hc _ _ _ Hcw).
Qed.

Lemma marks_readTemplate relPath : marks R (readTemplate relPath).
Proof.
  intros w r w'. unfold readTemplate.
  destruct (templates w !! relPath); intros [= _ <-]; apply R_refl.
Qed.

Lemma marks_render str vars : marks R (render str vars).
Proof.
  unfold render. destruct (replacePlaceholders str vars).
  - apply marks_ret.
  - intros w r w' [= _ <-]. apply R_refl.
  - intros w r w' [= _ <-]. apply R_refl.
Qed.

Lemma marks_existsSync p : marks R (existsSync p).
Proof. intros w r w' [= _ <-]. apply R_refl. Qed.

Lemma marks_writeFile target content : marks R (writeFile target content).
Proof.
  intros w r w'. unfold writeFile.
  destruct (decide (target ∈ denied w)); intros [= _ <-]; apply R_refl.
Qed.

Lemma marks_writeRendered target tplPath vars :
  marks R (writeRendered target tplPath vars).
Proof.
  unfold writeRendered.
  apply marks_bind; [apply marks_readTemplate|]. intros tpl.
  apply marks_bind; [apply marks_render|]. intros out.
  apply marks_writeFile.
Qed.

Lemma marks_makeExecutable p :
  (forall E, R E ({[p]} ∪ E)) -> marks R (makeExecutable p).
Proof.
  intros Hp w r w'. unfold makeExecutable.
  destruct (_ && _); intros [= _ <-]; [apply Hp | apply R_refl].
Qed.

Lemma marks_if {A} (b : bool) (c1 c2 : io world A) :
  marks R c1 -> marks R c2 -> marks R (if b then c1 else c2).
Proof. now destruct b. Qed.

End Marks.

Ltac marks_step Hrefl Htrans :=
  lazymatch goal with
  | |- marks _ (ret _) => apply (marks_ret _ Hrefl)
  | |- marks _ (readTemplate _) => apply (marks_readTemplate _ Hrefl)
  | |- marks _ (render _ _) => apply (marks_render _ Hrefl)
  | |- marks _ (existsSync _) => apply (marks_existsSync _ Hrefl)
  | |- marks _ (makeExecutable _) => apply (marks_makeExecutable _ Hrefl)
  | |- marks _ (writeRendered _ _ _) => apply (marks_writeRendered _ Hrefl Htrans)
  | |- marks _ (writeFile _ _) => apply (marks_writeFile _ Hrefl)
  | |- marks _ (if _ then _ else _) => apply marks_if
  | |- marks _ (bind _ _) => apply (marks_bind _ Htrans); [|intros ?]
  end.

Lemma grows_by_refl S E : grows_by S E E.
Proof. unfold grows_by. split; [reflexivity | apply union_subseteq_l]. Qed.

Lemma grows_by_trans S E1 E2 E3 :
  grows_by S E1 E2 -> grows_by S E2 E3 -> grows_by S E1 E3.
Proof.
  unfold grows_by. intros [H1 H2] [H3 H4]. split; [now transitivity E2|].
  intros x Hx. apply H4 in Hx. apply elem_of_union in Hx as [Hx|Hx].
  - now apply H2.
  - apply elem_of_union. now right.
Qed.

Lemma grows_by_mark S p E : p ∈ S -> grows_by S E ({[p]} ∪ E).
Proof.
  unfold grows_by. intros Hp. split; [apply union_subseteq_r|].
  intros x Hx. apply elem_of_union in Hx as [Hx|Hx]; apply elem_of_union.
  - apply elem_of_singleton in Hx as ->. now right.
  - now left.
Qed.

Lemma script_paths_elem p :
  In p ["scripts/deploy.sh"; "scripts/rollback.sh"; "scripts/health-check.sh"]%string ->
  p ∈ script_paths.
Proof.
  unfold script_paths. simpl. intros [<-|[<-|[<-|[]]]];
    repeat (apply elem_of_union; first [ left; apply elem_of_singleton; reflexivity
                                       | right; apply elem_of_singleton; reflexivity
                                       | left ]).
Qed.

Lemma interactive_main_marks_grow toLowerCase a p :
  marks (grows_by script_paths) (Interactive.main toLowerCase a p).
Proof.
  unfold Interactive.main, Interactive.script, Interactive.dockerFiles.
  destruct (mode a), (useDocker a);
    repeat marks_step (grows_by_refl script_paths) (grows_by_trans script_paths);
    intros E; apply grows_by_mark, script_paths_elem; simpl; auto.
Qed.

Lemma interactive_main_simple_marks toLowerCase a p :
  mode a = simple -> marks eq (Interactive.main toLowerCase a p).
Proof.
  intros Hmode. unfold Interactive.main, Interactive.dockerFiles. rewrite Hmode.
  destruct (useDocker a);
    repeat marks_step (@eq_refl (gset string)) (@eq_trans (gset string)).
Qed.

(** ** Runs: what a completed run leaves *)

#[local] Instance same_chmod_frame : Frame same_chmod.
Proof.
  refine {| frame_ok := fun _ => True |}.
  - reflexivity.
  - intros w1 w2 w3 H1 H2. unfold same_chmod in *. congruence.
  - reflexivity.
  - reflexivity.
Defined.

#[local] Instance setup_and_at_frame p : Frame (setup_and_at p).
Proof.
  refine {| frame_ok := fun t => p <> t |}.
  - intros w. split; [|split]; apply frame_refl.
  - intros w1 w2 w3 (H1 & H2 & H3) (H4 & H5 & H6).
    split; [|split]; eapply frame_trans; eauto.
  - intros w t c Hne. split; [|split]; apply frame_write; [exact I | exact Hne | exact I].
  - intros w x. split; [|split]; apply frame_exec.
Defined.

Lemma writeRenderedWith_Done f target tplPath vars w u w' :
  writeRenderedWith f target tplPath vars w = (Done u, w') ->
  exists tpl out,
    templates w !! tplPath = Some tpl /\
    replacePlaceholders (f tpl) vars = Returned out /\
    (target ∉ denied w) /\
    w' = set_files w (<[target := out]> (files w)).
Proof.
  unfold writeRenderedWith. intros H.
  apply bind_Done in H as (tpl & w1 & H1 & H).
  apply bind_Done in H as (out & w2 & H2 & H).
  apply readTemplate_Done in H1 as [Htpl ->].
  apply render_Done in H2 as [Hout ->].
  apply writeFile_Done in H as [Hok ->]. eauto 10.
Qed.

Lemma holds_rendering_stable f target tplPath vars w w' :
  setup_and_at target w w' ->
  holds_rendering f target tplPath vars w -> holds_rendering f target tplPath vars w'.
Proof.
  intros ([HT HD] & Hat & _) (tpl & out & Htpl & Hout & Hok & Hfile).
  exists tpl, out. unfold same_at in Hat. rewrite HT, HD, Hat. auto.
Qed.

(** A step that writes a rendering, followed by steps that leave its target
    alone: when the whole completes, the target holds the rendering. *)
Lemma writeRenderedWith_then {B} f target tplPath vars (rest : unit -> io world B)
    w b w' :
  bind (writeRenderedWith f target tplPath vars) rest w = (Done b, w') ->
  stable (setup_and_at target) (rest tt) ->
  exists w1, same_setup w w1 /\ executable w1 = executable w
             /\ rest tt w1 = (Done b, w')
             /\ holds_rendering f target tplPath vars w'.
Proof.
  intros H Hrest. apply bind_Done in H as ([] & w1 & H1 & H).
  apply writeRenderedWith_Done in H1 as (tpl & out & Htpl & Hout & Hok & ->).
  exists (set_files w (<[target := out]> (files w))).
  split; [now split|]. split; [reflexivity|]. split; [exact H|].
  apply (holds_rendering_stable _ _ _ _ _ _ (Hrest _ _ _ H)).
  exists tpl, out. simpl. rewrite lookup_insert_eq. auto.
Qed.

Lemma writeRendered_then {B} target tplPath vars (rest : unit -> io world B) w b w' :
  bind (writeRendered target tplPath vars) rest w = (Done b, w') ->
  stable (setup_and_at target) (rest tt) ->
  exists w1, same_setup w w1 /\ executable w1 = executable w
             /\ rest tt w1 = (Done b, w')
             /\ holds_rendering (fun tpl => tpl) target tplPath vars w'.
Proof. apply (writeRenderedWith_then (fun tpl => tpl)). Qed.

Lemma grows_by_elem S E E' p : grows_by S E E' -> p ∈ E -> p ∈ E'.
Proof. intros [H _] Hp. now apply H. Qed.

(** A script step followed by steps that leave the script alone: when the
    whole completes, the script holds its rendering, and it is marked
    unless its mode cannot be changed. *)
Lemma script_then {B} toLowerCase tplRel outName a p (rest : unit -> io world B)
    w b w' :
  bind (Interactive.script toLowerCase tplRel outName a p) rest w = (Done b, w') ->
  stable (setup_and_at ("scripts/" +:+ outName)) (rest tt) ->
  marks (grows_by script_paths) (rest tt) ->
  exists w1, same_setup w w1
             /\ rest tt w1 = (Done b, w')
             /\ holds_rendering (fun tpl => tpl) ("scripts/" +:+ outName) tplRel
                  (Interactive.vars toLowerCase a p) w'
             /\ marked_if_possible ("scripts/" +:+ outName) w'.
Proof.
  intros H Hrest Hmarks. apply bind_Done in H as ([] & w2 & H1 & H).
  unfold Interactive.script in H1.
  apply bind_Done in H1 as ([] & w1 & H1 & H2).
  apply writeRenderedWith_Done in H1 as (tpl & out & Htpl & Hout & Hok & ->).
  unfold makeExecutable in H2. simpl files in H2. simpl chmod_fails in H2.
  rewrite lookup_insert_eq in H2.
  rewrite (bool_decide_eq_true_2 (is_Some (Some out))) in H2 by eauto.
  destruct (bool_decide ("scripts/" +:+ outName ∈ chmod_fails w)) eqn:Hmode;
    simpl in H2; injection H2 as <-.
  - apply bool_decide_eq_true in Hmode.
    eexists. split; [|split; [exact H|split]]; [now split| |].
    + apply (holds_rendering_stable _ _ _ _ _ _ (Hrest _ _ _ H)).
      exists tpl, out. simpl. rewrite lookup_insert_eq. auto.
    + right. destruct (Hrest _ _ _ H) as (_ & _ & Hsame).
      unfold same_chmod in Hsame. now rewrite Hsame.
  - eexists. split; [|split; [exact H|split]]; [now split| |].
    + apply (holds_rendering_stable _ _ _ _ _ _ (Hrest _ _ _ H)).
      exists tpl, out. simpl. rewrite lookup_insert_eq. auto.
    + left. apply (grows_by_elem _ _ _ _ (Hmarks _ _ _ H)). simpl.
      apply elem_of_union. left. now apply elem_of_singleton.
Qed.

(** What a completed Docker block leaves. *)
Lemma dockerFiles_post toLowerCase a p w w' :
  Interactive.dockerFiles toLowerCase a p w = (Done tt, w') ->
  holds_rendering (fun tpl => tpl) "Dockerfile"
    ("docker/Dockerfile." +:+ stack_name (stack_of a) +:+ ".template")
    (Interactive.vars toLowerCase a p) w'
  /\ is_Some (files w' !! ".dockerignore")
  /\ same_setup w w' /\ executable w' = executable w.
Proof.
  unfold Interactive.dockerFiles. intros H.
  apply bind_Done in H as ([] & w1 & H1 & H).
  apply writeRenderedWith_Done in H1 as (tpl & out & Htpl & Hout & Hok & ->).
  apply bind_Done in H as (present & w2 & Hp & H).
  injection Hp as <- <-. simpl in H.
  rewrite lookup_insert_ne in H by discriminate.
  destruct (bool_decide (is_Some (files w !! ".dockerignore"))) eqn:Hp; simpl in H.
  - injection H as <-. apply bool_decide_eq_true in Hp. split; [|split; [|split]].
    + exists tpl, out. simpl. rewrite lookup_insert_eq. auto.
    + simpl. now rewrite lookup_insert_ne by discriminate.
    + now split.
    + reflexivity.
  - apply bind_Done in H as (ign & w3 & Hread & H).
    apply readTemplate_Done in Hread as [Hign ->].
    apply writeFile_Done in H as [_ ->]. simpl in *. split; [|split; [|split]].
    + exists tpl, out. simpl.
      rewrite lookup_insert_ne by discriminate. rewrite lookup_insert_eq. auto.
    + simpl. rewrite lookup_insert_eq. eauto.
    + now split.
    + reflexivity.
Qed.

Ltac rest_stable :=
  cbv beta; unfold Interactive.script, Interactive.dockerFiles; stable_run.

Ltac rest_marks :=
  cbv beta; unfold Interactive.script, Interactive.dockerFiles;
  repeat marks_step (grows_by_refl script_paths) (grows_by_trans script_paths);
  intros ?; apply grows_by_mark, script_paths_elem; simpl; auto.

Lemma interactive_production_outcome toLowerCase a p w w' :
  mode a = production ->
  Interactive.main toLowerCase a p w = (Done tt, w') ->
  production_outcome toLowerCase a p w'.
Proof.
  intros Hmode H. unfold Interactive.main in H. rewrite Hmode in H.
  apply writeRendered_then in H as (w1 & _ & _ & H & P1); [|rest_stable].
  apply writeRendered_then in H as (w2 & _ & _ & H & P2); [|rest_stable].
  apply (writeRenderedWith_then (strip_migrations a) ".github/workflows/deploy.yml"
           "workflows/deploy.yml.template" (Interactive.vars toLowerCase a p))
    in H as (w3 & _ & _ & H & P3); [|rest_stable].
  apply writeRendered_then in H as (w4 & _ & _ & H & P4); [|rest_stable].
  apply writeRendered_then in H as (w5 & _ & _ & H & P5); [|rest_stable].
  apply script_then in H as (w6 & _ & H & P6 & E6); [|rest_stable|rest_marks].
  apply script_then in H as (w7 & _ & H & P7 & E7); [|rest_stable|rest_marks].
  apply script_then in H as (w8 & _ & H & P8 & E8); [|rest_stable|rest_marks].
  cbv beta in H. unfold production_outcome.
  repeat (split; [assumption|]). split; [now split|]. split; [now split|].
  split; [now split|]. intros Hd. rewrite Hd in H.
  now destruct (dockerFiles_post _ _ _ _ _ H) as (PD & PI & _).
Qed.

Lemma interactive_simple_outcome toLowerCase a p w w' :
  mode a = simple ->
  Interactive.main toLowerCase a p w = (Done tt, w') ->
  simple_outcome toLowerCase a p w'.
Proof.
  intros Hmode H. unfold Interactive.main in H. rewrite Hmode in H.
  apply writeRendered_then in H as (w1 & _ & _ & H & P1); [|rest_stable].
  cbv beta in H. unfold simple_outcome. split; [assumption|].
  intros Hd. rewrite Hd in H.
  now destruct (dockerFiles_post _ _ _ _ _ H) as (PD & PI & _).
Qed.

Lemma set_files_same w : set_files w (files w) = w.
Proof. now destruct w. Qed.

Lemma replay_writeRenderedWith f target tplPath vars w :
  holds_rendering f target tplPath vars w ->
  writeRenderedWith f target tplPath vars w = (Done tt, w).
Proof.
  intros (tpl & out & Htpl & Hout & Hok & Hfile).
  unfold writeRenderedWith, bind, readTemplate, render, writeFile.
  rewrite Htpl, Hout. unfold ret.
  destruct (decide (target ∈ denied w)); [contradiction|].
  now rewrite insert_id, set_files_same.
Qed.

Lemma replay_writeRendered target tplPath vars w :
  holds_rendering (fun tpl => tpl) target tplPath vars w ->
  writeRendered target tplPath vars w = (Done tt, w).
Proof. apply (replay_writeRenderedWith (fun tpl => tpl)). Qed.

Lemma replay_makeExecutable p w :
  marked_if_possible p w -> makeExecutable p w = (Done tt, w).
Proof.
  intros [Hp|Hp]; unfold makeExecutable.
  - destruct (_ && _); [|reflexivity].
    f_equal. unfold set_executable.
    rewrite (subseteq_union_1_L {[p]} (executable w)); [now destruct w|].
    now apply singleton_subseteq_l.
  - rewrite (bool_decide_eq_true_2 _ Hp). now rewrite andb_false_r.
Qed.

Lemma replay_then {A B} (c : io world A) (f : A -> io world B) w a r :
  c w = (Done a, w) -> f a w = r -> bind c f w = r.
Proof. intros Hc Hf. unfold bind. now rewrite Hc. Qed.

Lemma replay_script toLowerCase tplRel outName a p w :
  holds_rendering (fun tpl => tpl) ("scripts/" +:+ outName) tplRel
    (Interactive.vars toLowerCase a p) w ->
  marked_if_possible ("scripts/" +:+ outName) w ->
  Interactive.script toLowerCase tplRel outName a p w = (Done tt, w).
Proof.
  intros Hh He. unfold Interactive.script.
  apply (replay_then _ _ _ tt); [now apply replay_writeRendered|].
  now apply replay_makeExecutable.
Qed.

Lemma replay_dockerFiles toLowerCase a p w :
  holds_rendering (fun tpl => tpl) "Dockerfile"
    ("docker/Dockerfile." +:+ stack_name (stack_of a) +:+ ".template")
    (Interactive.vars toLowerCase a p) w ->
  is_Some (files w !! ".dockerignore") ->
  Interactive.dockerFiles toLowerCase a p w = (Done tt, w).
Proof.
  intros Hh Hi. unfold Interactive.dockerFiles.
  apply (replay_then _ _ _ tt); [now apply replay_writeRendered|].
  unfold bind, existsSync. now rewrite bool_decide_eq_true_2.
Qed.

(** X12.  A run of the current variant that completed can be repeated with
    the same answers: the second run completes too and leaves the world as
    the first left it, file for file (the outputs are written again with
    the content they have, the ignore list is skipped). *)
Theorem interactive_main_rerun_changes_nothing
    (toLowerCase : jsstring -> jsstring) (a : answers) (p : preset) (w w' : world) :
  Interactive.main toLowerCase a p w = (Done tt, w') ->
  Interactive.main toLowerCase a p w' = (Done tt, w').
Proof.
  intros H. destruct (mode a) eqn:Hmode.
  - destruct (interactive_simple_outcome _ _ _ _ _ Hmode H) as (P1 & PD).
    unfold Interactive.main. rewrite Hmode.
    apply (replay_then _ _ _ tt); [now apply replay_writeRendered|].
    destruct (useDocker a); [|reflexivity].
    destruct (PD eq_refl). now apply replay_dockerFiles.
  - destruct (interactive_production_outcome _ _ _ _ _ Hmode H)
      as (P1 & P2 & P3 & P4 & P5 & [P6 E6] & [P7 E7] & [P8 E8] & PD).
    unfold Interactive.main. rewrite Hmode.
    apply (replay_then _ _ _ tt); [now apply replay_writeRendered|].
    apply (replay_then _ _ _ tt); [now apply replay_writeRendered|].
    apply (replay_then _ _ _ tt);
      [exact (replay_writeRenderedWith (strip_migrations a) _ _ _ _ P3)|].
    apply (replay_then _ _ _ tt); [now apply replay_writeRendered|].
    apply (replay_then _ _ _ tt); [now apply replay_writeRendered|].
    apply (replay_then _ _ _ tt); [now apply replay_script|].
    apply (replay_then _ _ _ tt); [now apply replay_script|].
    apply (replay_then _ _ _ tt); [now apply replay_script|].
    destruct (useDocker a); [|reflexivity].
    destruct (PD eq_refl). now apply replay_dockerFiles.
Qed.

Lemma interactive_main_rerun_changes_nothing_witness :
  let first := Interactive.main ascii_toLowerCase sample_answers sample_preset
                 sample_world in
  Interactive.main ascii_toLowerCase sample_answers sample_preset (snd first)
  = (Done tt, snd first).
Proof.
  intros first.
  apply (interactive_main_rerun_changes_nothing ascii_toLowerCase sample_answers
           sample_preset sample_world).
  vm_compute. reflexivity.
Defined.

Lemma interactive_main_same_setup toLowerCase a p :
  stable same_setup (Interactive.main toLowerCase a p).
Proof.
  unfold Interactive.main, Interactive.script, Interactive.dockerFiles.
  destruct (mode a), (useDocker a); stable_run.
Qed.

(** X13.  In production mode with a migration command that is not blank, a
    completed run leaves in the deploy workflow the substitution of the
    whole deploy template, migration steps included, and the variable
    MIGRATION_COMMAND is the command trimmed. *)
Theorem deploy_keeps_migration_steps
    (toLowerCase : jsstring -> jsstring) (a : answers) (p : preset) (w w' : world) :
  mode a = production ->
  trim (migrationCommand a) <> [] ->
  Interactive.main toLowerCase a p w = (Done tt, w') ->
  get_var (js "MIGRATION_COMMAND") (Interactive.vars toLowerCase a p)
  = Some (JString (trim (migrationCommand a)))
  /\ exists deployTpl out,
       templates w !! "workflows/deploy.yml.template" = Some deployTpl /\
       replacePlaceholders deployTpl (Interactive.vars toLowerCase a p) = Returned out /\
       files w' !! ".github/workflows/deploy.yml" = Some out.
Proof.
  intros Hmode Hcmd H. split.
  - unfold Interactive.vars, Interactive.MIGRATION_COMMAND,
      Interactive.asked_migrationCommand. now rewrite Hmode.
  - destruct (interactive_production_outcome _ _ _ _ _ Hmode H)
      as (_ & _ & (tpl & out & Htpl & Hout & _ & Hfile) & _).
    destruct (interactive_main_same_setup _ _ _ _ _ _ H) as [HT _].
    exists tpl, out. rewrite <- HT. repeat split; try assumption.
    unfold strip_migrations, Interactive.MIGRATION_COMMAND,
      Interactive.asked_migrationCommand in Hout. rewrite Hmode in Hout.
    destruct (trim (migrationCommand a)); [congruence | exact Hout].
Qed.

Lemma deploy_keeps_migration_steps_witness :
  let a := sample_answers_migrating (js " npm run migrate ") in
  let run := Interactive.main ascii_toLowerCase a sample_preset sample_world in
  get_var (js "MIGRATION_COMMAND") (Interactive.vars ascii_toLowerCase a sample_preset)
  = Some (JString (js "npm run migrate"))
  /\ exists deployTpl out,
       templates sample_world !! "workflows/deploy.yml.template" = Some deployTpl /\
       replacePlaceholders deployTpl (Interactive.vars ascii_toLowerCase a sample_preset)
       = Returned out /\
       files (snd run) !! ".github/workflows/deploy.yml" = Some out.
Proof.
  intros a run.
  apply (deploy_keeps_migration_steps ascii_toLowerCase a sample_preset sample_world).
  - reflexivity.
  - vm_compute. discriminate.
  - vm_compute. reflexivity.
Defined.

Example sample_deploy_yml_migrating :
  files (snd (Interactive.main ascii_toLowerCase
                (sample_answers_migrating (js "npm run migrate")) sample_preset
                sample_world))
    !! ".github/workflows/deploy.yml"
  = Some (js "name: Deploy myapp
    steps:
      - name: Pull image
        run: docker pull myapp
      - name: Run migrations (staging)
        run: npm run migrate
      - name: Restart
        run: ./deploy.sh").
Proof. vm_compute. reflexivity. Qed.

Lemma interactive_main_same_chmod toLowerCase a p :
  stable same_chmod (Interactive.main toLowerCase a p).
Proof.
  unfold Interactive.main, Interactive.script, Interactive.dockerFiles.
  destruct (mode a), (useDocker a); stable_run.
Qed.

(** X14.  The only paths a run marks executable are the three scripts of
    the production mode, and it unmarks nothing; a completed run in
    production mode has marked each of the three scripts on which
    [chmodSync] does not throw; a run in simple mode leaves the marks as
    they are. *)
Theorem scripts_marked_executable
    (toLowerCase : jsstring -> jsstring) (a : answers) (p : preset) (w : world) :
  (forall r w',
      Interactive.main toLowerCase a p w = (r, w') ->
      executable w ⊆ executable w' /\ executable w' ⊆ executable w ∪ script_paths)
  /\
  (forall w' script,
      mode a = production ->
      Interactive.main toLowerCase a p w = (Done tt, w') ->
      script ∈ script_paths -> script ∉ chmod_fails w ->
      script ∈ executable w')
  /\
  (forall r w',
      mode a = simple ->
      Interactive.main toLowerCase a p w = (r, w') ->
      executable w' = executable w).
Proof.
  split; [|split].
  - intros r w' H. exact (interactive_main_marks_grow toLowerCase a p w r w' H).
  - intros w' script Hmode H Hscript Hchmod.
    destruct (interactive_production_outcome _ _ _ _ _ Hmode H)
      as (_ & _ & _ & _ & _ & [_ E6] & [_ E7] & [_ E8] & _).
    pose proof (interactive_main_same_chmod toLowerCase a p w _ _ H) as Hsame.
    unfold same_chmod in Hsame. unfold marked_if_possible in E6, E7, E8.
    rewrite Hsame in E6, E7, E8. unfold script_paths in Hscript.
    repeat (apply elem_of_union in Hscript as [Hscript|Hscript]);
      apply elem_of_singleton in Hscript; subst script; tauto.
  - intros r w' Hmode H. symmetry.
    exact (interactive_main_simple_marks toLowerCase a p Hmode w r w' H).
Qed.

Lemma scripts_marked_executable_witness :
  "scripts/rollback.sh"%string
  ∈ executable (snd (Interactive.main ascii_toLowerCase sample_answers sample_preset
                       sample_world)).
Proof.
  apply (proj1 (proj2 (scripts_marked_executable ascii_toLowerCase sample_answers
                         sample_preset sample_world))).
  - reflexivity.
  - vm_compute. reflexivity.
  - vm_compute. reflexivity.
  - vm_compute. intros H. discriminate H.
Defined.

(** Where [chmodSync] throws, the exception is dropped: the run completes
    all the same, and the script is left unmarked. *)
Example chmod_failure_is_swallowed :
  let w := {| templates := templates sample_world; files := files sample_world;
              executable := ∅; denied := ∅;
              chmod_fails := {[ "scripts/rollback.sh"%string ]} |} in
  let run := Interactive.main ascii_toLowerCase sample_answers sample_preset w in
  fst run = Done tt
  /\ executable (snd run)
     = {[ "scripts/deploy.sh"%string; "scripts/health-check.sh"%string ]}.
Proof. vm_compute. split; reflexivity. Qed.

Lemma writeRendered_run target tplPath vars w tpl :
  templates w !! tplPath = Some tpl -> literal_keys vars -> target ∉ denied w ->
  exists out,
    replacePlaceholders tpl vars = Returned out /\
    writeRendered target tplPath vars w
    = (Done tt, set_files w (<[target := out]> (files w))).
Proof.
  intros Htpl Hlit Hok. destruct (replacePlaceholders_total vars tpl Hlit) as [out Hout].
  exists out. split; [assumption|].
  unfold writeRendered, bind, readTemplate, render, writeFile, ret.
  rewrite Htpl, Hout. now destruct (decide (target ∈ denied w)).
Qed.

(** X15.  A run stops at the first exception and takes nothing back.  In
    production mode with the deploy template missing, the run ends with
    ENOENT for that template; the two workflows before it are written, and
    nothing else is. *)
Theorem missing_deploy_template_stops_the_run
    (toLowerCase : jsstring -> jsstring) (a : answers) (p : preset) (w : world)
    (ciTpl buildTpl : jsstring) :
  mode a = production ->
  templates w !! ("workflows/ci." +:+ stack_name (stack_of a) +:+ ".yml.template")
  = Some ciTpl ->
  templates w !! (if useDocker a then "workflows/build.docker.yml.template"
                  else "workflows/build.basic.yml.template")%string
  = Some buildTpl ->
  templates w !! "workflows/deploy.yml.template" = None ->
  ".github/workflows/ci.yml"%string ∉ denied w ->
  ".github/workflows/build.yml"%string ∉ denied w ->
  exists ciYml buildYml w',
    replacePlaceholders ciTpl (Interactive.vars toLowerCase a p) = Returned ciYml /\
    replacePlaceholders buildTpl (Interactive.vars toLowerCase a p) = Returned buildYml /\
    Interactive.main toLowerCase a p w
    = (Threw (ENOENT "workflows/deploy.yml.template"), w') /\
    files w'
    = <[".github/workflows/build.yml"%string := buildYml]>
        (<[".github/workflows/ci.yml"%string := ciYml]> (files w)) /\
    executable w' = executable w.
Proof.
  intros Hmode Hci Hbuild Hdeploy Hok1 Hok2.
  destruct (writeRendered_run ".github/workflows/ci.yml" _
              (Interactive.vars toLowerCase a p) w ciTpl Hci
              (interactive_vars_literal _ _ _) Hok1) as (ciYml & Hout1 & Hrun1).
  destruct (writeRendered_run ".github/workflows/build.yml" _
              (Interactive.vars toLowerCase a p)
              (set_files w (<[".github/workflows/ci.yml"%string := ciYml]> (files w)))
              buildTpl Hbuild (interactive_vars_literal _ _ _) Hok2)
    as (buildYml & Hout2 & Hrun2).
  exists ciYml, buildYml. eexists. split; [assumption|]. split; [assumption|].
  unfold Interactive.main. rewrite Hmode.
  unfold bind at 1. rewrite Hrun1. unfold bind at 1. rewrite Hrun2.
  unfold bind at 1. unfold bind at 1. unfold readTemplate at 1. simpl templates.
  rewrite Hdeploy. split; [reflexivity|]. split; reflexivity.
Qed.

Lemma missing_deploy_template_stops_the_run_witness :
  let w := {| templates := delete "workflows/deploy.yml.template" sample_templates;
              files := ∅; executable := ∅; denied := ∅; chmod_fails := ∅ |} in
  exists ciYml buildYml w',
    replacePlaceholders (js "ci {{TEST_COMMAND}}")
      (Interactive.vars ascii_toLowerCase sample_answers sample_preset) = Returned ciYml /\
    replacePlaceholders (js "build {{IMAGE_NAME}}")
      (Interactive.vars ascii_toLowerCase sample_answers sample_preset) = Returned buildYml /\
    Interactive.main ascii_toLowerCase sample_answers sample_preset w
    = (Threw (ENOENT "workflows/deploy.yml.template"), w') /\
    files w'
    = <[".github/workflows/build.yml"%string := buildYml]>
        (<[".github/workflows/ci.yml"%string := ciYml]> (files w)) /\
    executable w' = executable w.
Proof.
  intros w.
  apply (missing_deploy_template_stops_the_run ascii_toLowerCase sample_answers
           sample_preset w).
  - reflexivity.
  - vm_compute. reflexivity.
  - vm_compute. reflexivity.
  - vm_compute. reflexivity.
  - vm_compute. intros H. discriminate H.
  - vm_compute. intros H. discriminate H.
Defined.

(** ** The template copier, file by file *)

Lemma bind_ends {W A B} (c : io W A) (f : A -> io W B) w r w' :
  bind c f w = (r, w') ->
  (exists a w1, c w = (Done a, w1) /\ f a w1 = (r, w'))
  \/ (exists e, c w = (Threw e, w') /\ r = Threw e).
Proof.
  unfold bind. destruct (c w) as [[a|e] w1]; intros H.
  - left. eauto.
  - right. injection H as <- <-. eauto.
Qed.

Lemma copyFile_ends force src dest w r w' :
  Copier.copyFile force src dest w = (r, w') ->
  Copier.denied w' = Copier.denied w /\
  ((r = Done tt /\ force = false /\ is_Some (Copier.files w !! dest) /\
    Copier.files w' = Copier.files w /\
    Copier.log w' = Copier.log w ++ [Copier.Skipped dest])
   \/ (r = Done tt /\ (force = true \/ Copier.files w !! dest = None) /\
       Copier.files w' = <[dest := src]> (Copier.files w) /\
       Copier.log w' = Copier.log w ++ [Copier.Copied dest])
   \/ ((exists e, r = Threw e) /\ w' = w)).
Proof.
  unfold Copier.copyFile, bind, Copier.existsSync.
  destruct (bool_decide (is_Some (Copier.files w !! dest))) eqn:Hp;
    [apply bool_decide_eq_true in Hp | apply bool_decide_eq_false in Hp];
    destruct force; simpl; unfold Copier.copyFileSync, Copier.say;
    try (destruct (decide (dest ∈ Copier.denied w))); intros [= <- <-]; simpl;
    (split; [reflexivity|]);
    try (right; right; split; [eexists; reflexivity | reflexivity]).
  all: try (left; repeat split; (reflexivity || assumption)).
  all: right; left; split; [reflexivity|]; split; [|split; reflexivity].
  all: try (left; reflexivity).
  right. destruct (Copier.files w !! dest) eqn:E; [exfalso; eauto | reflexivity].
Qed.

Lemma copyEntry_Dir_nil force destPath w :
  Copier.copyEntry force (Copier.Dir []) destPath w = (Done tt, w).
Proof. reflexivity. Qed.

Lemma dest_contents_Dir_cons entry t es destPath :
  dest_contents (Copier.Dir ((entry, t) :: es)) destPath
  = dest_contents t (destPath +:+ "/" +:+ entry)
    ++ dest_contents (Copier.Dir es) destPath.
Proof. reflexivity. Qed.

Lemma dest_contents_dests t : forall destPath,
  List.map fst (dest_contents t destPath) = Copier.dests t destPath.
Proof.
  induction t as [content|entries IH] using tree_ind_nested; intros destPath.
  - reflexivity.
  - induction IH as [|[entry t] es Ht _ IHes]; [reflexivity|].
    rewrite dest_contents_Dir_cons, dests_Dir_cons, List.map_app.
    simpl in Ht. now rewrite Ht, IHes.
Qed.

(** A relation that every [copyFile] to an allowed destination respects is
    respected by a copy of a whole tree, however the copy ends. *)
Lemma copyEntry_respects force (ok : string -> Prop)
    (R : Copier.world -> Copier.world -> Prop) :
  (forall w, R w w) ->
  (forall w1 w2 w3, R w1 w2 -> R w2 w3 -> R w1 w3) ->
  (forall src dest w r w',
     ok dest -> Copier.copyFile force src dest w = (r, w') -> R w w') ->
  forall t destPath w r w',
    (forall q, In q (Copier.dests t destPath) -> ok q) ->
    Copier.copyEntry force t destPath w = (r, w') -> R w w'.
Proof.
  intros Hrefl Htrans Hstep.
  induction t as [content|entries IH] using tree_ind_nested;
    intros destPath w r w' Hok H.
  - simpl in H. apply (Hstep content destPath w r w'); [|exact H].
    apply Hok. now left.
  - revert w Hok H. induction IH as [|[entry t] es Ht _ IHes]; intros w Hok H.
    + rewrite copyEntry_Dir_nil in H. injection H as _ <-. apply Hrefl.
    + rewrite copyEntry_Dir_cons in H. rewrite dests_Dir_cons in Hok.
      simpl in Ht.
      apply bind_ends in H as [(u & w1 & H1 & H2)|(e & H1 & _)].
      * apply (Htrans w w1 w').
        -- apply (Ht _ _ _ _ (fun q Hq => Hok q (in_or_app _ _ _ (or_introl Hq))) H1).
        -- apply (IHes w1 (fun q Hq => Hok q (in_or_app _ _ _ (or_intror Hq))) H2).
      * apply (Ht _ _ _ _ (fun q Hq => Hok q (in_or_app _ _ _ (or_introl Hq))) H1).
Qed.

Lemma copyEntry_outside force t destPath w r w' :
  Copier.copyEntry force t destPath w = (r, w') ->
  forall q, ~ In q (Copier.dests t destPath) ->
    Copier.files w' !! q = Copier.files w !! q.
Proof.
  intros H.
  apply (copyEntry_respects force (fun q => In q (Copier.dests t destPath))
           (fun w w' => forall q, ~ In q (Copier.dests t destPath) ->
                          Copier.files w' !! q = Copier.files w !! q))
    with (t := t) (destPath := destPath) (r := r); try assumption.
  - reflexivity.
  - intros w1 w2 w3 H12 H23 q Hq. now rewrite H23, H12.
  - intros src dest w0 r0 w0' Hin Hrun q Hq.
    apply copyFile_ends in Hrun
      as [_ [(_ & _ & _ & Hf & _)|[(_ & _ & Hf & _)|(_ & ->)]]].
    + now rewrite Hf.
    + rewrite Hf. apply lookup_insert_ne. intros ->. now apply Hq.
    + reflexivity.
  - auto.
Qed.

(** X16.  Without [--force] the copier never changes a file that is
    there: whatever the exit code, every file of the working directory
    has the content it had before the run. *)
Theorem copier_without_force_keeps_existing_files
    (TEMPLATES_DIR : option (list (string * Copier.tree)))
    (w w' : Copier.world) (code : nat) :
  Copier.main false TEMPLATES_DIR w = (code, w') ->
  forall q content,
    Copier.files w !! q = Some content -> Copier.files w' !! q = Some content.
Proof.
  intros H.
  assert (Hrun : forall templates r w1,
            Copier.copyDir false templates Copier.TARGET_DIR w = (r, w1) ->
            forall q content, Copier.files w !! q = Some content ->
                              Copier.files w1 !! q = Some content).
  { intros templates r w1 Hrun.
    apply (copyEntry_respects false (fun _ => True)
             (fun w w' => forall q content, Copier.files w !! q = Some content ->
                                            Copier.files w' !! q = Some content))
      with (t := Copier.Dir templates) (destPath := Copier.TARGET_DIR) (r := r);
      auto.
    intros src dest w0 r0 w0' _ Hstep q content Hq.
    apply copyFile_ends in Hstep
      as [_ [(_ & _ & _ & Hf & _)|[(_ & [Hforce|Hnone] & Hf & _)|(_ & ->)]]].
    - now rewrite Hf.
    - discriminate Hforce.
    - rewrite Hf, lookup_insert_ne; [assumption|]. intros ->. congruence.
    - assumption. }
  unfold Copier.main in H.
  destruct TEMPLATES_DIR as [[|e es]|].
  - injection H as _ <-. auto.
  - destruct (Copier.copyDir false (e :: es) Copier.TARGET_DIR w) as [[[]|err] w1] eqn:E;
      injection H as _ <-; eapply Hrun; eassumption.
  - injection H as _ <-. auto.
Qed.

Lemma copier_without_force_keeps_existing_files_witness :
  let w := {| Copier.files := {[ ".github/workflows/ci.yml"%string := js "mine" ]};
              Copier.denied := ∅; Copier.log := [] |} in
  exists w',
    Copier.main false (Some sample_package) w = (0%nat, w') /\
    Copier.files w' !! ".github/workflows/ci.yml" = Some (js "mine").
Proof.
  intros w. eexists. split; [vm_compute; reflexivity|].
  apply (copier_without_force_keeps_existing_files (Some sample_package) w _ 0%nat).
  - vm_compute. reflexivity.
  - vm_compute. reflexivity.
Defined.

Lemma copy_event_same force w w1 q :
  Copier.files w1 !! q = Copier.files w !! q ->
  copy_event force w1 q = copy_event force w q.
Proof. unfold copy_event. now intros ->. Qed.

Lemma copy_result_same force w w1 q content :
  Copier.files w1 !! q = Copier.files w !! q ->
  copy_result force w1 q content = copy_result force w q content.
Proof. unfold copy_result. now intros ->. Qed.

Lemma copyFile_Done_exact force src dest w w' :
  Copier.copyFile force src dest w = (Done tt, w') ->
  Copier.log w' = Copier.log w ++ [copy_event force w dest] /\
  Copier.files w' !! dest = copy_result force w dest src.
Proof.
  intros H. unfold copy_event, copy_result.
  apply copyFile_ends in H
    as [_ [(_ & -> & Hp & Hf & Hl)|[(_ & Hwhy & Hf & Hl)|([e He] & _)]]].
  - rewrite Hl, Hf, (bool_decide_eq_true_2 _ Hp). destruct Hp as [old ->].
    split; reflexivity.
  - rewrite Hl, Hf, lookup_insert_eq. destruct Hwhy as [-> | ->].
    + rewrite andb_false_r. split; [reflexivity|].
      now destruct (Copier.files w !! dest).
    + rewrite bool_decide_eq_false_2 by (intros [? ?]; discriminate).
      split; reflexivity.
  - discriminate He.
Qed.

(** A copy that completes, over destinations that are pairwise distinct:
    the lines logged, and the content left at every destination. *)
Lemma copyEntry_Done_exact force t : forall destPath w w',
  Copier.copyEntry force t destPath w = (Done tt, w') ->
  NoDup (Copier.dests t destPath) ->
  Copier.log w'
  = Copier.log w ++ List.map (copy_event force w) (Copier.dests t destPath) /\
  (forall q content, In (q, content) (dest_contents t destPath) ->
     Copier.files w' !! q = copy_result force w q content).
Proof.
  induction t as [content|entries IH] using tree_ind_nested;
    intros destPath w w' H Hnd.
  - simpl in H. apply copyFile_Done_exact in H as [Hl Hf]. split; [exact Hl|].
    intros q c [[= <- <-]|[]]. exact Hf.
  - revert w H Hnd. induction IH as [|[entry t] es Ht _ IHes]; intros w H Hnd.
    + rewrite copyEntry_Dir_nil in H. injection H as <-.
      split; [simpl; now rewrite app_nil_r | intros q c []].
    + rewrite copyEntry_Dir_cons in H.
      rewrite dests_Dir_cons in *. rewrite dest_contents_Dir_cons.
      simpl in Ht.
      apply NoDup_app in Hnd as (Hnd1 & Hdisj & Hnd2).
      apply bind_ends in H as [([] & w1 & H1 & H2)|(e & _ & He)];
        [|discriminate He].
      destruct (Ht _ _ _ H1 Hnd1) as [Hl1 Hf1].
      destruct (IHes _ H2 Hnd2) as [Hl2 Hf2].
      assert (Hfirst : forall q, In q (Copier.dests (Copier.Dir es) destPath) ->
                Copier.files w1 !! q = Copier.files w !! q).
      { intros q Hq. apply (copyEntry_outside _ _ _ _ _ _ H1).
        intros Hq1. apply (Hdisj q); now apply list_elem_of_In. }
      split.
      * rewrite Hl2, Hl1, List.map_app, <- app_assoc. f_equal. f_equal.
        apply List.map_ext_in. intros q Hq. apply copy_event_same. now apply Hfirst.
      * intros q c Hin. apply in_app_or in Hin as [Hin|Hin].
        -- assert (Hq1 : In q (Copier.dests t (destPath +:+ "/" +:+ entry))).
           { rewrite <- dest_contents_dests. now apply (in_map fst) in Hin. }
           rewrite <- (Hf1 q c Hin).
           apply (copyEntry_outside _ _ _ _ _ _ H2).
           intros Hq2. apply (Hdisj q); now apply list_elem_of_In.
        -- assert (Hq2 : In q (Copier.dests (Copier.Dir es) destPath)).
           { rewrite <- dest_contents_dests. now apply (in_map fst) in Hin. }
           rewrite (Hf2 q c Hin). apply copy_result_same. now apply Hfirst.
Qed.

(** X17.  The copier writes at its destinations only: with or without
    [--force], and whether it completes or fails, a path that is not the
    destination of a template file holds after the run what it held
    before, and a path that was absent stays absent. *)
Theorem copier_writes_only_destinations (force : bool)
    (templates : list (string * Copier.tree)) (w w' : Copier.world) (code : nat) :
  Copier.main force (Some templates) w = (code, w') ->
  forall q, ~ In q (Copier.dests (Copier.Dir templates) Copier.TARGET_DIR) ->
    Copier.files w' !! q = Copier.files w !! q.
Proof.
  intros H q Hq. unfold Copier.main in H.
  destruct templates as [|e es]; [now injection H as _ <-|].
  destruct (Copier.copyDir force (e :: es) Copier.TARGET_DIR w) as [[[]|err] w1] eqn:E;
    injection H as _ <-; exact (copyEntry_outside _ _ _ _ _ _ E q Hq).
Qed.

Lemma copier_writes_only_destinations_witness :
  let run := Copier.main true (Some sample_package) sample_project in
  fst run = 0%nat /\
  Copier.files (snd run) !! ".github/workflows/deploy.yml" = None.
Proof.
  intros run. split; [vm_compute; reflexivity|].
  etransitivity.
  - apply (copier_writes_only_destinations true sample_package sample_project
             (snd run) 0%nat).
    + vm_compute. reflexivity.
    + vm_compute. intros [H|[H|[]]]; discriminate H.
  - vm_compute. reflexivity.
Defined.

(** X18.  What a completed copy leaves at each destination, the
    destinations being pairwise distinct: the template's content where the
    file was absent or [--force] is given, the file's own content
    otherwise. *)
Theorem copier_destination_contents (force : bool)
    (templates : list (string * Copier.tree)) (w w' : Copier.world) :
  NoDup (Copier.dests (Copier.Dir templates) Copier.TARGET_DIR) ->
  Copier.copyDir force templates Copier.TARGET_DIR w = (Done tt, w') ->
  forall q content,
    In (q, content) (dest_contents (Copier.Dir templates) Copier.TARGET_DIR) ->
    Copier.files w' !! q
    = match Copier.files w !! q with
      | Some old => Some (if force then content else old)
      | None => Some content
      end.
Proof.
  intros Hnd H q content Hin.
  exact (proj2 (copyEntry_Done_exact force _ _ _ _ H Hnd) q content Hin).
Qed.

Lemma copier_destination_contents_witness :
  let run := Copier.copyDir true sample_package Copier.TARGET_DIR sample_project in
  fst run = Done tt /\
  Copier.files (snd run) !! ".github/workflows/ci.yml" = Some (js "on: push") /\
  Copier.files (snd run) !! ".github/workflows/extra/lint.yml"
  = Some (js "on: pull_request").
Proof.
  intros run. split; [vm_compute; reflexivity|].
  assert (Hnd : NoDup (Copier.dests (Copier.Dir sample_package) Copier.TARGET_DIR)).
  { vm_compute. repeat constructor; intros H; inversion H as [|? ? ? H']; subst;
      inversion H'. }
  assert (Hrun : Copier.copyDir true sample_package Copier.TARGET_DIR sample_project
                 = (Done tt, snd run)) by (vm_compute; reflexivity).
  split.
  - etransitivity.
    + apply (copier_destination_contents true sample_package sample_project
               (snd run) Hnd Hrun _ (js "on: push")).
      vm_compute. now left.
    + vm_compute. reflexivity.
  - etransitivity.
    + apply (copier_destination_contents true sample_package sample_project
               (snd run) Hnd Hrun _ (js "on: pull_request")).
      vm_compute. right. now left.
    + vm_compute. reflexivity.
Defined.



(** ** The scripts of the older variant *)

Lemma thrown_ENOENT_read (L : list string) {A} (c : io world A) w w' path :
  throws_only (templates w) (denied w) L c ->
  c w = (Threw (ENOENT path), w') -> In path L.
Proof.
  intros Hc H.
  destruct (Hc w _ _ eq_refl eq_refl H)
    as (_ & _ & [(p0 & [= ->] & Hin & _)|(t & Ht & _)]);
    [assumption | discriminate Ht].
Qed.

Lemma read_render_ends {A} tplPath vars (k : jsstring -> io world A) w r w' :
  literal_keys vars ->
  (let* tpl := readTemplate tplPath in
   let* out := render tpl vars in
   k out) w = (r, w') ->
  (r = Threw (ENOENT tplPath) /\ w' = w) \/ (exists out, k out w = (r, w')).
Proof.
  intros Hlit. unfold bind, readTemplate, render.
  destruct (templates w !! tplPath) as [tpl|].
  - destruct (replacePlaceholders_total vars tpl Hlit) as [out ->].
    unfold ret. eauto.
  - intros [= <- <-]. auto.
Qed.

Ltac other_template Hpath Hin :=
  exfalso; simpl in Hin, Hpath;
  repeat (destruct Hin as [Hin|Hin];
          [rewrite <- Hin in Hpath; clear Hin; intuition discriminate|]);
  exact Hin.

(** X20.  The older variant reads and fills in all three script templates
    before it writes any script.  So a run that ends because a script
    template is missing has written the four workflows at most: every
    other file, the three scripts and the Dockerfile among them, is as it
    was before the run. *)
Theorem legacy_missing_script_template_writes_no_script
    (toLowerCase : jsstring -> jsstring) (a : answers) (p : preset)
    (w w' : world) (path : string) :
  In path ["scripts/deploy.sh.template"; "scripts/rollback.sh.template";
           "scripts/health-check.sh.template"]%string ->
  Legacy.main toLowerCase a p w = (Threw (ENOENT path), w') ->
  forall q,
    ~ In q [".github/workflows/ci.yml"; ".github/workflows/build.yml";
            ".github/workflows/deploy.yml"; ".github/workflows/rollback.yml"]%string ->
    files w' !! q = files w !! q.
Proof.
  intros Hpath H q Hq. unfold Legacy.main in H.
  set (WF := [".github/workflows/ci.yml"; ".github/workflows/build.yml";
              ".github/workflows/deploy.yml"; ".github/workflows/rollback.yml"]%string)
    in Hq.
  pose proof (legacy_vars_literal toLowerCase a p) as Hlit.
  assert (Hhead : forall (c : io world unit) (k : io world unit) w0 w1,
             (c ;;; k) w0 = (Threw (ENOENT path), w1) ->
             stable (same_outside WF) c ->
             (forall T D, exists L, throws_only T D L c /\
                (forall x, In x L -> ~ In x ["scripts/deploy.sh.template";
                                             "scripts/rollback.sh.template";
                                             "scripts/health-check.sh.template"]%string)) ->
             exists w2, files w2 !! q = files w0 !! q
                        /\ k w2 = (Threw (ENOENT path), w1)).
  { intros c k w0 w1 Hrun Hs Ht.
    apply bind_ends in Hrun as [([] & w2 & H1 & H2)|(e & H1 & [= <-])].
    - exists w2. split; [|exact H2]. exact (proj2 (Hs _ _ _ H1) q Hq).
    - exfalso. destruct (Ht (templates w0) (denied w0)) as (L & HL & Hnot).
      exact (Hnot path (thrown_ENOENT_read L c w0 w1 path HL H1) Hpath). }
  unshelve epose proof (Hhead _ _ _ _ H _ _) as (w1 & F1 & H1).
  { unfold WF. repeat stable_step. simpl. auto. }
  { intros T D. exists ["workflows/ci.yml.template"%string]. split.
       - repeat throws_step; [now left | exact Hlit].
       - intros x [<-|[]]. simpl. intuition discriminate. }
  unshelve epose proof (Hhead _ _ _ _ H1 _ _) as (w2 & F2 & H2).
  { unfold WF. repeat stable_step. simpl. auto. }
  { intros T D.
       exists ["workflows/build.docker.yml.template";
               "workflows/build.basic.yml.template"]%string. split.
       - repeat throws_step; [destruct (useDocker a); simpl; auto | exact Hlit].
       - intros x [<-|[<-|[]]]; simpl; intuition discriminate. }
  unshelve epose proof (Hhead _ _ _ _ H2 _ _) as (w3 & F3 & H3).
  { unfold WF. repeat stable_step. simpl. auto. }
  { intros T D. exists ["workflows/deploy.yml.template"%string]. split.
       - repeat throws_step; [now left | exact Hlit].
       - intros x [<-|[]]. simpl. intuition discriminate. }
  unshelve epose proof (Hhead _ _ _ _ H3 _ _) as (w4 & F4 & H4).
  { unfold WF. repeat stable_step. simpl. auto 6. }
  { intros T D. exists ["workflows/rollback.yml.template"%string]. split.
       - repeat throws_step; [now left | exact Hlit].
       - intros x [<-|[]]. simpl. intuition discriminate. }
  rewrite <- F1, <- F2, <- F3, <- F4. clear F1 F2 F3 F4 Hhead H H1 H2 H3.
  rename H4 into H.
  apply bind_ends in H as [([] & w5 & _ & H)|(e & H & [= <-])].
  - exfalso. destruct (useDocker a); [|discriminate H].
    apply (thrown_ENOENT_read
             ["docker/Dockerfile." +:+ stack_name (stack_of a) +:+ ".template"])
      in H; [|repeat throws_step; [now left | exact Hlit]].
    destruct (stack_of a); other_template Hpath H.
  - apply (read_render_ends _ _ _ _ _ _ Hlit) in H as [[_ ->]|[deploySh H]];
      [reflexivity|].
    apply (read_render_ends _ _ _ _ _ _ Hlit) in H as [[_ ->]|[rollbackSh H]];
      [reflexivity|].
    apply (read_render_ends _ _ _ _ _ _ Hlit) in H as [[_ ->]|[healthSh H]];
      [reflexivity|].
    exfalso. apply (thrown_ENOENT_read []) in H; [exact H|].
    repeat throws_step.
Qed.

Lemma legacy_missing_script_template_writes_no_script_witness :
  let w := {| templates :=
                list_to_map
                  [ ("workflows/ci.yml.template"%string, js "ci {{TEST_COMMAND}}");
                    ("workflows/build.docker.yml.template"%string, js "build {{IMAGE_NAME}}");
                    ("workflows/deploy.yml.template"%string, sample_deploy_template);
                    ("workflows/rollback.yml.template"%string, js "rollback");
                    ("scripts/deploy.sh.template"%string, js "deploy {{PORT}}");
                    ("scripts/rollback.sh.template"%string, js "rollback {{PORT}}") ];
              files := ∅; executable := ∅; denied := ∅; chmod_fails := ∅ |} in
  let run := Legacy.main ascii_toLowerCase sample_answers sample_preset w in
  fst run = Threw (ENOENT "scripts/health-check.sh.template") /\
  files (snd run) !! "scripts/deploy.sh" = None.
Proof.
  intros w run. split; [vm_compute; reflexivity|].
  etransitivity.
  - apply (legacy_missing_script_template_writes_no_script ascii_toLowerCase
             sample_answers sample_preset w (snd run)
             "scripts/health-check.sh.template").
    + right. right. now left.
    + vm_compute. reflexivity.
    + simpl. intuition discriminate.
  - vm_compute. reflexivity.
Defined.
